(** * A model of the MEGA client core

    The development follows the two source modules of the client.

    - [API] (api.mjs): the request counter and query string, the
      handling of a unary response with its retries on the error
      code -3, and the long-poll legs [pull] and [wait].  What the
      event loop does between the synchronous part of a call and its
      [.then] handler is made explicit: a call is split into what it
      does at once and what it does when its fetch settles.
    - [Storage] (storage.mjs): the table of file objects, the import
      of node records, the initial load, the change-batch handler
      that reload registers, account information and the session
      snapshot.

    JavaScript values received from the server are kept in a small
    JSON-like datatype.  The table [this.files] is a finite map keyed
    by node handle, and a reference to a file object is the handle
    under which the table holds it.  A function that may throw
    returns the state it reached together with the exception.

    The second half proves properties of these definitions: first
    claim by claim (C1 to C10), then further properties of the same
    code (X1 to X27): the long poll step by step, the failures and
    retries of a unary request, the life of a storage from
    construction to close, and the file graph under loads, reloads and
    change batches. *)

From Stdlib Require Import ZArith Lia List String Ascii Bool.
From Stdlib Require Import DecimalString DecimalPos DecimalZ.
From stdpp Require Import base option gmap strings list sorting.
Import ListNotations.

#[local] Set Warnings "-register-all".

Local Open Scope string_scope.
Local Open Scope Z_scope.
Local Open Scope list_scope.

(** ** JavaScript values *)

Module JS.

Inductive value :=
| VUndef
| VNull
| VBool (b : bool)
| VNum (z : Z)
| VStr (s : string)
| VArr (items : list value)
| VObj (props : list (string * value)).

(** An [Error] object: its [name] and its [message]. *)
Record error := mkError { ename : string; emessage : string }.

Definition Error (msg : string) : error := mkError "Error" msg.
Definition TypeError (msg : string) : error := mkError "TypeError" msg.

(** ToBoolean. *)
Definition truthy (v : value) : bool :=
  match v with
  | VUndef | VNull => false
  | VBool b => b
  | VNum z => negb (z =? 0)%Z
  | VStr s => negb (s =? "")%string
  | VArr _ | VObj _ => true
  end.

(** Own property of an object literal, [undefined] when absent. *)
Fixpoint own (props : list (string * value)) (k : string) : value :=
  match props with
  | [] => VUndef
  | (k', v) :: rest => if (k =? k')%string then v else own rest k
  end.

(** [o[k] = v] on an object literal: an existing key is overwritten
    in place, a new key is appended. *)
Fixpoint set_prop (props : list (string * value)) (k : string) (v : value)
  : list (string * value) :=
  match props with
  | [] => [(k, v)]
  | (k', v') :: rest =>
      if (k =? k')%string then (k, v) :: rest
      else (k', v') :: set_prop rest k v
  end.

(** [delete o[k]]. *)
Definition delete_prop (props : list (string * value)) (k : string)
  : list (string * value) :=
  filter (fun kv => negb (k =? fst kv)%string) props.

(** A canonical array index: the decimal rendering of a number below
    [2^32 - 1]. *)
Definition array_index (k : string) : option N :=
  match NilZero.uint_of_string k with
  | Some u =>
      let n := N.of_uint u in
      if ((NilZero.string_of_uint (N.to_uint n) =? k)%string
          && (n <? 2 ^ 32 - 1)%N)%bool
      then Some n else None
  | None => None
  end.

(** Property read [v.k] / [v[k]]; [None] is the TypeError raised on
    [undefined] and [null]. *)
Definition get (v : value) (k : string) : option value :=
  match v with
  | VUndef | VNull => None
  | VBool _ | VNum _ => Some VUndef
  | VStr s =>
      if (k =? "length")%string then Some (VNum (Z.of_nat (String.length s)))
      else match array_index k with
           | Some i =>
               match String.get (N.to_nat i) s with
               | Some c => Some (VStr (String c EmptyString))
               | None => Some VUndef
               end
           | None => Some VUndef
           end
  | VArr l =>
      if (k =? "length")%string then Some (VNum (Z.of_nat (length l)))
      else match array_index k with
           | Some i => Some (nth (N.to_nat i) l VUndef)
           | None => Some VUndef
           end
  | VObj ps => Some (own ps k)
  end.

(** Property read on a value already known not to be nullish. *)
Definition get_or_undef (v : value) (k : string) : value :=
  match get v k with Some x => x | None => VUndef end.

(** [typeof v === 'object'] (which holds of [null] too). *)
Definition typeof_object (v : value) : bool :=
  match v with
  | VNull | VArr _ | VObj _ => true
  | _ => false
  end.

(** The own enumerable properties that [Object.assign] copies. *)
Definition enumerable (v : value) : list (string * value) :=
  match v with
  | VObj ps => ps
  | VArr l =>
      imap (fun i x => (NilZero.string_of_uint (N.to_uint (N.of_nat i)), x)) l
  | VStr s =>
      imap (fun i c => (NilZero.string_of_uint (N.to_uint (N.of_nat i)),
                        VStr (String c EmptyString)))
           (list_ascii_of_string s)
  | _ => []
  end.

Definition assign (target : list (string * value)) (source : value)
  : list (string * value) :=
  fold_left (fun o kv => set_prop o (fst kv) (snd kv)) (enumerable source) target.

(** Numbers as far as the request counter needs them: integers, and
    [NaN] for a string that is not an integer literal.  (ToNumber
    also reads fractions and exponents; those are outside this
    fragment and every statement about the counter assumes a string
    of decimal digits.) *)
Inductive number := Int (z : Z) | NaN.

Definition digits_to_number (s : string) : number :=
  match s with
  | EmptyString => NaN
  | _ => match NilZero.uint_of_string s with
         | Some u => Int (Z.of_uint u)
         | None => NaN
         end
  end.

Definition to_number (s : string) : number :=
  match s with
  | EmptyString => Int 0
  | String "-" rest =>
      match digits_to_number rest with
      | Int z => Int (- z)
      | NaN => NaN
      end
  | _ => digits_to_number s
  end.

Definition number_to_string (n : number) : string :=
  match n with
  | Int z => NilZero.string_of_int (Z.to_int z)
  | NaN => "NaN"
  end.

Definition succ (n : number) : number :=
  match n with
  | Int z => Int (z + 1)
  | NaN => NaN
  end.

(** Arrays: [indexOf] and [splice] with a count of one. *)

Section Arrays.
Context {A : Type} `{EqDecision A}.

(** [l.indexOf(x)]: the first position of [x]. *)
Fixpoint index_of (x : A) (l : list A) : option nat :=
  match l with
  | [] => None
  | y :: r => if decide (y = x) then Some 0%nat else S <$> index_of x r
  end.

Definition indexOf (x : A) (l : list A) : Z :=
  match index_of x l with
  | Some i => Z.of_nat i
  | None => -1
  end.

(** [l.splice(start, 1)]: a negative [start] counts from the end. *)
Definition splice1 (start : Z) (l : list A) : list A :=
  let len := Z.of_nat (length l) in
  let i := if start <? 0 then Z.max (len + start) 0 else Z.min start len in
  delete (Z.to_nat i) l.

End Arrays.

End JS.

Import JS.

(** ** The transport: api.mjs *)

Module API.

Definition MAX_RETRIES : Z := 4.

(** The table [ERRORS], keyed by the negated error code. *)
Definition ERRORS (k : Z) : option string :=
  match k with
  | 1 => Some "EINTERNAL (-1): An internal error has occurred. Please submit a bug report, detailing the exact circumstances in which this error occurred."
  | 2 => Some "EARGS (-2): You have passed invalid arguments to this command."
  | 3 => Some ("EAGAIN (-3): A temporary congestion or server malfunction prevented your request from being processed. No data was altered. Retried "
               ++ number_to_string (Int MAX_RETRIES) ++ " times.")%string
  | 4 => Some "ERATELIMIT (-4): You have exceeded your command weight per time quota. Please wait a few seconds, then try again (this should never happen in sane real-life applications)."
  | 5 => Some "EFAILED (-5): The upload failed. Please restart it from scratch."
  | 6 => Some "ETOOMANY (-6): Too many concurrent IP addresses are accessing this upload target URL."
  | 7 => Some "ERANGE (-7): The upload file packet is out of range or not starting and ending on a chunk boundary."
  | 8 => Some "EEXPIRED (-8): The upload target URL you are trying to access has expired. Please request a fresh one."
  | 9 => Some "ENOENT (-9): Object (typically, node or user) not found. Wrong password?"
  | 10 => Some "ECIRCULAR (-10): Circular linkage attempted"
  | 11 => Some "EACCESS (-11): Access violation (e.g., trying to write to a read-only share)"
  | 12 => Some "EEXIST (-12): Trying to create an object that already exists"
  | 13 => Some "EINCOMPLETE (-13): Trying to access an incomplete resource"
  | 14 => Some "EKEY (-14): A decryption operation failed (never returned by the API)"
  | 15 => Some "ESID (-15): Invalid or expired user session, please relogin"
  | 16 => Some "EBLOCKED (-16): User blocked"
  | 17 => Some "EOVERQUOTA (-17): Request over quota"
  | 18 => Some "ETEMPUNAVAIL (-18): Resource temporarily not available, please try again later"
  | _ => None
  end.

(** [Error(ERRORS[-resp])]; a code outside the table gives
    [Error(undefined)], whose message is empty. *)
Definition api_error (resp : Z) : error :=
  Error (default "" (ERRORS (- resp))).

Definition DEFAULT_GATEWAY : string := "https://g.api.mega.co.nz/".

(** [counterId] starts as a string and becomes a number at the first
    post-increment. *)
Inductive counter := CStr (s : string) | CNum (n : number).

(** An [AbortController], told apart from the others by the order in
    which it was created. *)
Definition controller := nat.

(** The registered ['sc'] listeners.  The only code that registers
    one is [Storage.reload]; all of them are the same closure over the
    owning storage. *)
Inductive listener := StorageSync.

Record t := mk {
  keepalive : bool;
  counterId : counter;
  gateway : string;
  sid : option string;
  sn : option controller;
  closed : bool;
  sc_listeners : list listener;
  controllers : nat   (* how many AbortControllers were created so far *)
}.

Definition set_counterId (c : counter) (a : t) : t :=
  mk (keepalive a) c (gateway a) (sid a) (sn a) (closed a)
     (sc_listeners a) (controllers a).
Definition set_sid (s : option string) (a : t) : t :=
  mk (keepalive a) (counterId a) (gateway a) s (sn a) (closed a)
     (sc_listeners a) (controllers a).
Definition set_sn (c : option controller) (a : t) : t :=
  mk (keepalive a) (counterId a) (gateway a) (sid a) c (closed a)
     (sc_listeners a) (controllers a).
Definition set_closed (b : bool) (a : t) : t :=
  mk (keepalive a) (counterId a) (gateway a) (sid a) (sn a) b
     (sc_listeners a) (controllers a).
Definition add_sc_listener (l : listener) (a : t) : t :=
  mk (keepalive a) (counterId a) (gateway a) (sid a) (sn a) (closed a)
     (sc_listeners a ++ [l]) (controllers a).
Definition new_controller (a : t) : controller * t :=
  (controllers a,
   mk (keepalive a) (counterId a) (gateway a) (sid a) (sn a) (closed a)
      (sc_listeners a) (S (controllers a))).

(** The constructor.  [rnd] is the string [Math.random().toString()];
    [gateway_opt] is [opt.gateway]. *)
Definition create (keepalive : bool) (gateway_opt : option string) (rnd : string) : t :=
  mk keepalive
     (CStr (substring 2 10 rnd))
     (match gateway_opt with
      | Some g => if (g =? "")%string then DEFAULT_GATEWAY else g
      | None => DEFAULT_GATEWAY
      end)
     None None false [] 0.

(** [this.counterId++]: the old value as a number, and the field
    afterwards. *)
Definition to_numeric (c : counter) : number :=
  match c with
  | CStr s => to_number s
  | CNum n => n
  end.

Definition post_increment (c : counter) : number * counter :=
  let old := to_numeric c in (old, CNum (succ old)).

(** What is handed to [this.fetch]. *)
Inductive fetch_call :=
| PostCs (gateway : string) (qs : list (string * value)) (body : value)
| PostSc (gateway : string) (sn : value) (sid : option string) (signal : controller)
| PostWait (url : value) (signal : controller).

(** What the fetch promise settles to: a rejection, or a response
    with its [statusText], its [ok] flag and the outcome of
    [response.json()]. *)
Inductive fetch_result :=
| Rejected (e : error)
| Response (statusText : string) (ok : bool) (json : error + value).

Definition handleApiResponse (statusText : string) (ok : bool) (json : error + value)
  : error + value :=
  if (statusText =? "Server Too Busy")%string then inr (VNum (-3))
  else if negb ok then inl (Error ("Server returned error: " ++ statusText)%string)
  else json.

Definition settle (r : fetch_result) : error + value :=
  match r with
  | Rejected e => inl e
  | Response st ok js => handleApiResponse st ok js
  end.

(** *** request *)

(** The synchronous part of [request(json, originalCb, retryno)]:
    the closed check, the query string, the removal of
    [_querystring] from the caller's object, and the fetch. *)
Record sent := mkSent {
  sent_api : t;
  sent_json : list (string * value);   (* the caller's object afterwards *)
  sent_isLogout : bool;
  sent_fetch : fetch_call
}.

Definition isLogout (json : list (string * value)) : bool :=
  match own json "a" with
  | VStr a => (a =? "sml")%string
  | _ => false
  end.

(** The object [qs] as request starts it: the id taken from the
    counter, and the session id when there is one. *)
Definition query (a : t) : list (string * value) * t :=
  let (old, c) := post_increment (counterId a) in
  let a1 := set_counterId c a in
  let qs := [("id", VStr (number_to_string old))] in
  (match sid a1 with
   | Some s => if (s =? "")%string then qs else set_prop qs "sid" (VStr s)
   | None => qs
   end, a1).

Definition request_send (a : t) (json : list (string * value)) : error + sent :=
  if (closed a && negb (isLogout json))%bool then inl (Error "API is closed")
  else
    let (qs, a1) := query a in
    let q := own json "_querystring" in
    let qs := if typeof_object q then assign qs q else qs in
    let json1 := if typeof_object q then delete_prop json "_querystring" else json in
    inr (mkSent a1 json1 (isLogout json)
                (PostCs (gateway a1) qs (VArr [VObj json1]))).

(** What the [.then] handler of a unary request decides. *)
Inductive decision :=
| Drop                                       (* the API was closed meanwhile *)
| Retry (delay : Z)                          (* setTimeout(() => this.request(json, cb, retryno + 1), delay) *)
| Deliver (pull : option value) (err : option error) (resp : value)
                                             (* optionally this.pull(resp.sn), then cb(err, resp) *)
| Reject (e : error).                        (* the .catch branch: cb(err) *)

Definition is_negative_number (v : value) : option Z :=
  match v with
  | VNum z => if z <? 0 then Some z else None
  | _ => None
  end.

Definition request_then (a : t) (isLogout : bool) (retryno : Z) (resp : value) : decision :=
  if (closed a && negb isLogout)%bool then Drop
  else if negb (truthy resp) then Deliver None (Some (Error "Empty response")) VUndef
  else
    let resp := if truthy (get_or_undef resp "length") then get_or_undef resp "0" else resp in
    match is_negative_number resp with
    | Some z =>
        if ((z =? -3) && (retryno <? MAX_RETRIES))%bool
        then Retry (2 ^ (retryno + 1) * 1000)
        else Deliver None (Some (api_error z)) resp
    | None =>
        if (keepalive a && truthy resp && truthy (get_or_undef resp "sn"))%bool
        then Deliver (Some (get_or_undef resp "sn")) None resp
        else Deliver None None resp
    end.

(** The whole promise chain on a settled fetch:
    [.then(handleApiResponse).then(...).catch(err => cb(err))]. *)
Definition request_settled (a : t) (isLogout : bool) (retryno : Z) (r : fetch_result)
  : decision :=
  match settle r with
  | inl e => Reject e
  | inr resp => request_then a isLogout retryno resp
  end.

(** *** pull, wait, close *)

(** The synchronous part of [pull(sn, retryno)]: a fresh controller
    becomes [this.sn] and the long-poll fetch is issued. *)
Definition pull (a : t) (sn : value) : t * fetch_call :=
  let (c, a1) := new_controller a in
  let a2 := set_sn (Some c) a1 in
  (a2, PostSc (gateway a2) sn (sid a2) c).

Definition wait (a : t) (url : value) : t * fetch_call :=
  let (c, a1) := new_controller a in
  let a2 := set_sn (Some c) a1 in
  (a2, PostWait url c).

(** What the [.then] handler of a long-poll leg decides, after it
    has reset [this.sn]. *)
Inductive poll_decision :=
| PollStop                                   (* closed, or nothing to follow *)
| PollRetry (delay : Z)                      (* setTimeout(() => this.pull(sn, retryno + 1), delay) *)
| PollWait (err : option error) (url : value)
| PollNext (err : option error) (batch : option value) (sn : value)
| PollError (e : error).                     (* emit('error', e) and nothing else *)

Definition pull_then (a : t) (retryno : Z) (resp : value) : t * poll_decision :=
  let a1 := set_sn None a in
  if closed a1 then (a1, PollStop)
  else
    let retry :=
      match is_negative_number resp with
      | Some z => ((z =? -3) && (retryno <? MAX_RETRIES))%bool
      | None => false
      end in
    if retry then (a1, PollRetry (2 ^ (retryno + 1) * 1000))
    else
      let err := option_map api_error (is_negative_number resp) in
      match get resp "w" with
      | None => (a1, PollError (TypeError "Cannot read properties of undefined"))
      | Some w =>
          if truthy w then (a1, PollWait err w)
          else
            let sn := get_or_undef resp "sn" in
            if truthy sn then
              let batch := get_or_undef resp "a" in
              (a1, PollNext err (if truthy batch then Some batch else None) sn)
            else
              (a1, match err with Some e => PollError e | None => PollStop end)
      end.

Definition ignoreAbortError (e : error) : option error :=
  if (ename e =? "AbortError")%string then None else Some e.

Definition pull_settled (a : t) (retryno : Z) (r : fetch_result) : t * poll_decision :=
  match settle r with
  | inl e =>
      match ignoreAbortError e with
      | Some e' => (a, PollError e')
      | None => (a, PollStop)
      end
  | inr resp => pull_then a retryno resp
  end.

(** [close()]: the controller in [this.sn], if any, is the one aborted. *)
Definition close (a : t) : option controller * t :=
  (sn a, set_closed true a).

(** *** Running a unary request against the server's answers *)

(** What a call of [request] makes observable, in order. *)
Inductive event :=
| Threw (e : error)                           (* request itself threw *)
| Fetched (c : fetch_call)
| TimerSet (delay : Z)
| PullStarted (c : fetch_call)
| Called (err : option error) (resp : value)  (* cb(err, resp) in the .then handler *)
| Caught (e : error).                         (* cb(err) in the .catch handler *)

(** [request(json, cb, retryno)] followed through its retries, the
    server's successive answers being [answers].  Each call consumes
    one answer; with none left the fetch stays pending. *)
Fixpoint request_run (a : t) (json : list (string * value)) (retryno : Z)
  (answers : list fetch_result) : t * list event :=
  match request_send a json with
  | inl e => (a, [Threw e])
  | inr s =>
      match answers with
      | [] => (sent_api s, [Fetched (sent_fetch s)])
      | r :: rest =>
          match request_settled (sent_api s) (sent_isLogout s) retryno r with
          | Drop => (sent_api s, [Fetched (sent_fetch s)])
          | Retry d =>
              let (a', evs) := request_run (sent_api s) (sent_json s) (retryno + 1) rest in
              (a', Fetched (sent_fetch s) :: TimerSet d :: evs)
          | Deliver None err resp =>
              (sent_api s, [Fetched (sent_fetch s); Called err resp])
          | Deliver (Some sn) err resp =>
              let (a', c) := pull (sent_api s) sn in
              (a', [Fetched (sent_fetch s); PullStarted c; Called err resp])
          | Reject e =>
              (sent_api s, [Fetched (sent_fetch s); Caught e])
          end
      end
  end.

Definition timers (evs : list event) : list Z :=
  omap (fun e => match e with TimerSet d => Some d | _ => None end) evs.

Definition calls (evs : list event) : list (option error * value) :=
  omap (fun e => match e with Called err resp => Some (err, resp) | _ => None end) evs.

Definition fetches (evs : list event) : list fetch_call :=
  omap (fun e => match e with Fetched c => Some c | _ => None end) evs.

(** Nothing but the start of the long poll. *)
Definition pull_only (evs : list event) : Prop :=
  evs = [] \/ exists c, evs = [PullStarted c].

(** The response as the handler sees it after
    [if (resp.length) resp = resp[0]]. *)
Definition unwrap (resp : value) : value :=
  if truthy (get_or_undef resp "length") then get_or_undef resp "0" else resp.

(** The answer is the error code [z]: a bare negative number, an
    array that starts with one, or (for -3) the status text
    'Server Too Busy'. *)
Definition answers_code (r : fetch_result) (z : Z) : Prop :=
  exists v, settle r = inr v /\ truthy v = true /\ unwrap v = VNum z /\ z < 0.

(** The answer is the successful response [resp]. *)
Definition answers_with (r : fetch_result) (resp : value) : Prop :=
  exists v, settle r = inr v /\ truthy v = true /\ unwrap v = resp
            /\ is_negative_number resp = None.

(** *** A sequence of calls of request on one instance *)








(** The payload brings its own value for the query parameter [k]
    in [_querystring]. *)
Definition overrides (k : string) (json : list (string * value)) : bool :=
  let q := own json "_querystring" in
  (typeof_object q
   && existsb (fun kv => (fst kv =? k)%string) (enumerable q))%bool.


(** *** The long-poll legs of one instance *)

(** What is in flight for the long poll: a fetch to [sc], a fetch
    to a wait URL, or the backoff timer of a retry. *)
Inductive leg :=
| LegPull (signal : controller) (sn : value) (retryno : Z)
| LegWait (signal : controller) (sn : value)
| LegTimer (sn : value) (retryno : Z).

Record session := mkSession { api : t; legs : list leg }.

Definition start_pull (w : session) (sn : value) (retryno : Z) : session :=
  let (a', c) := pull (api w) sn in
  match c with
  | PostSc _ _ _ signal => mkSession a' (legs w ++ [LegPull signal sn retryno])
  | _ => mkSession a' (legs w)
  end.

Definition start_wait (w : session) (url sn : value) : session :=
  let (a', c) := wait (api w) url in
  match c with
  | PostWait _ signal => mkSession a' (legs w ++ [LegWait signal sn])
  | _ => mkSession a' (legs w)
  end.

(** The fetch of a unary request settles with [r]. *)
Definition unary_settled (w : session) (isLogout : bool) (retryno : Z) (r : fetch_result)
  : session * decision :=
  let d := request_settled (api w) isLogout retryno r in
  match d with
  | Deliver (Some sn) _ _ => (start_pull w sn 0, d)
  | _ => (w, d)
  end.

(** What a long-poll leg emits on the instance. *)
Inductive poll_event :=
| EmitSc (batch : value)
| EmitError (e : error).

Definition emit_error (err : option error) : list poll_event :=
  match err with
  | Some e => [EmitError e]
  | None => []
  end.

(** Leg [i] comes to its end: the fetch of a pull or of a wait
    settles with [r], or a backoff timer fires ([r] is then of no
    use).  [sc_throws] is the exception, if any, that a listener of
    ['sc'] throws when the batch is emitted: it leaves the handler
    before the next pull and is reported as an ['error'] event. *)
Definition leg_settled (w : session) (i : nat) (r : fetch_result)
  (sc_throws : option error) : session * list poll_event :=
  match legs w !! i with
  | Some (LegPull _ sn retryno) =>
      let (a', d) := pull_settled (api w) retryno r in
      let w1 := mkSession a' (delete i (legs w)) in
      match d with
      | PollStop => (w1, [])
      | PollRetry _ =>
          (mkSession a' (legs w1 ++ [LegTimer sn (retryno + 1)]), [])
      | PollWait err url => (start_wait w1 url sn, emit_error err)
      | PollNext err None sn' => (start_pull w1 sn' 0, emit_error err)
      | PollNext err (Some batch) sn' =>
          match sc_throws with
          | Some e => (w1, emit_error err ++ [EmitSc batch; EmitError e])
          | None => (start_pull w1 sn' 0, emit_error err ++ [EmitSc batch])
          end
      | PollError e => (w1, [EmitError e])
      end
  | Some (LegWait _ sn) =>
      (* .catch(() => {}).then(() => { this.sn = undefined; this.pull(sn) }) *)
      (start_pull (mkSession (set_sn None (api w)) (delete i (legs w))) sn 0, [])
  | Some (LegTimer sn retryno) =>
      (* () => { this.pull(sn, retryno + 1) }, the count kept in the leg *)
      (start_pull (mkSession (api w) (delete i (legs w))) sn retryno, [])
  | None => (w, [])
  end.

Definition active_polls (w : session) : nat := length (legs w).

(** *** A long poll followed through the server's answers *)

(** A backoff timer, when that is what the session waits on, fires:
    the closure calls [pull] again.  (The fetch result handed to
    [leg_settled] is of no use to a timer.) *)
Definition fire_timer (w : session) : session :=
  match legs w !! 0%nat with
  | Some (LegTimer _ _) => (leg_settled w 0 (Rejected (Error "")) None).1
  | _ => w
  end.

(** The first leg of the session followed through the successive
    answers of the server, no listener throwing: before each answer a
    pending backoff timer fires and the answer settles the fetch of the
    pull that it starts. *)
Fixpoint poll_run (w : session) (answers : list fetch_result)
  : session * list poll_event :=
  match answers with
  | [] => (w, [])
  | r :: rest =>
      let (w1, evs1) := leg_settled (fire_timer w) 0 r None in
      let (w2, evs2) := poll_run w1 rest in
      (w2, evs1 ++ evs2)
  end.

(** [close()] on the instance of a session: what is in flight stays
    in flight, and the controller in [this.sn], if any, is aborted. *)
Definition close_session (w : session) : option controller * session :=
  let (c, a) := close (api w) in (c, mkSession a (legs w)).

(** What a fetch rejects with once its signal is aborted. *)
Definition AbortError : error := mkError "AbortError" "The user aborted a request.".

End API.

(** ** The text form of keys *)

Module Base64.

(** [e64] and [d64] come from ./crypto/index.mjs, which is not among
    the sources.  The snapshot exposes the master key
    base64url-encoded: the URL-safe alphabet, three bytes to four
    characters, no padding.  Decoding skips characters outside the
    alphabets and also accepts the standard '+' and '/'. *)
Definition alphabet : list ascii :=
  list_ascii_of_string
    "ABCDEFGHIJKLMNOPQRSTUVWXYZabcdefghijklmnopqrstuvwxyz0123456789-_".

Definition encode_sextet (n : N) : ascii :=
  nth (N.to_nat n) alphabet "A"%char.

Fixpoint find_char (c : ascii) (l : list ascii) (i : N) : option N :=
  match l with
  | [] => None
  | x :: r => if Ascii.eqb x c then Some i else find_char c r (N.succ i)
  end.

Definition decode_char (c : ascii) : option N :=
  if Ascii.eqb c "+" then Some 62%N
  else if Ascii.eqb c "/" then Some 63%N
  else find_char c alphabet 0%N.

Definition byte_of (n : N) : Byte.byte :=
  default Byte.x00 (Byte.of_N n).

(** The six-bit groups of a buffer, three bytes to four groups. *)
Fixpoint sextets (bs : list Byte.byte) : list N :=
  match bs with
  | [] => []
  | [b1] =>
      let n1 := Byte.to_N b1 in
      [n1 / 4; n1 mod 4 * 16]
  | [b1; b2] =>
      let n1 := Byte.to_N b1 in
      let n2 := Byte.to_N b2 in
      [n1 / 4; n1 mod 4 * 16 + n2 / 16; n2 mod 16 * 4]
  | b1 :: b2 :: b3 :: rest =>
      let n1 := Byte.to_N b1 in
      let n2 := Byte.to_N b2 in
      let n3 := Byte.to_N b3 in
      n1 / 4 :: n1 mod 4 * 16 + n2 / 16 :: n2 mod 16 * 4 + n3 / 64 :: n3 mod 64
      :: sextets rest
  end%N.

Definition encode (bs : list Byte.byte) : list ascii :=
  encode_sextet <$> sextets bs.

Fixpoint decode (ss : list N) : list Byte.byte :=
  match ss with
  | s1 :: s2 :: s3 :: s4 :: rest =>
      byte_of (s1 * 4 + s2 / 16)
      :: byte_of (s2 mod 16 * 16 + s3 / 4)
      :: byte_of (s3 mod 4 * 64 + s4)
      :: decode rest
  | [s1; s2; s3] =>
      [byte_of (s1 * 4 + s2 / 16); byte_of (s2 mod 16 * 16 + s3 / 4)]
  | [s1; s2] => [byte_of (s1 * 4 + s2 / 16)]
  | _ => []
  end%N.

(** Modelled from the spec: [e64] of ./crypto/index.mjs, the
    base64url text of a buffer, without padding. *)
Definition e64 (buffer : list Byte.byte) : string :=
  string_of_list_ascii (encode buffer).

(** Modelled from the spec: [d64] of ./crypto/index.mjs, the buffer
    that a base64url text stands for. *)
Definition d64 (s : string) : list Byte.byte :=
  decode (omap decode_char (list_ascii_of_string s)).

End Base64.

(** ** File objects: the part of mutable-file.mjs the storage relies on *)

Module MutableFile.

(** *** Node records and file objects *)

(** A node record as the server sends it, in the listing and in a
    ['t'] action. *)
Record node := mkNode {
  h : string;            (* handle *)
  p : option string;     (* parent handle, if the record has one *)
  t : Z;                 (* node type *)
  ts : value;            (* timestamp *)
  attrs : value;         (* encrypted attributes *)
  nkey : value           (* encrypted key *)
}.

Definition NODE_TYPE_DRIVE : Z := 2.
Definition NODE_TYPE_INBOX : Z := 3.
Definition NODE_TYPE_RUBBISH_BIN : Z := 4.

(** A [MutableFile].  Another file object is referred to by the key
    under which [this.files] holds it: that table never loses or
    rebinds a key, so a key names one object for good.  (Handles are
    taken not to be names that every object inherits, such as
    [constructor].) *)
Record file := mkFile {
  nodeId : string;
  type : Z;
  directory : bool;
  name : option string;
  timestamp : value;
  attributes : value;
  parent : option string;
  children : option (list string);
  shareId : value;
  shared : option bool
}.

Definition set_name (n : string) (f : file) : file :=
  mkFile (nodeId f) (type f) (directory f) (Some n) (timestamp f) (attributes f)
         (parent f) (children f) (shareId f) (shared f).
Definition set_timestamp (v : value) (f : file) : file :=
  mkFile (nodeId f) (type f) (directory f) (name f) v (attributes f)
         (parent f) (children f) (shareId f) (shared f).
Definition set_attributes (v : value) (f : file) : file :=
  mkFile (nodeId f) (type f) (directory f) (name f) (timestamp f) v
         (parent f) (children f) (shareId f) (shared f).
Definition set_parent (q : option string) (f : file) : file :=
  mkFile (nodeId f) (type f) (directory f) (name f) (timestamp f) (attributes f)
         q (children f) (shareId f) (shared f).
Definition set_children (cs : option (list string)) (f : file) : file :=
  mkFile (nodeId f) (type f) (directory f) (name f) (timestamp f) (attributes f)
         (parent f) cs (shareId f) (shared f).
Definition set_share (id : value) (f : file) : file :=
  mkFile (nodeId f) (type f) (directory f) (name f) (timestamp f) (attributes f)
         (parent f) (children f) id (Some (truthy id)).

(** Modelled from the spec: the constructor of [MutableFile]
    (mutable-file.mjs is not among the sources).  A node's identity is
    its handle, its type and timestamp are those of the record; the
    name and attributes are whatever decryption yields from the
    record's blob, kept here as the blob itself.  A new object has
    neither parent nor children. *)
Definition new_MutableFile (f : node) : file :=
  mkFile (h f) (t f) (negb (t f =? 0)) None (ts f) (attrs f) None None VUndef None.

(** Modelled from the spec: [File.decryptAttributes] (file.mjs is
    not among the sources) decrypts the blob and replaces the
    attributes; the attributes are again kept as the blob they come
    from. *)
Definition decryptAttributes (at_ : value) (f : file) : file :=
  set_attributes at_ f.

(** [if (!parent.children) parent.children = []; parent.children.push(x)]. *)
Definition push_child (x : string) (f : file) : file :=
  set_children (Some (default [] (children f) ++ [x])) f.

End MutableFile.

(** ** The storage: storage.mjs *)

Module Storage.
Import MutableFile.

(** *** The storage object *)

Inductive status_t := StatusClosed | StatusConnecting | StatusReady.

(** The constructor's options: the three flags may be absent. *)
Record options_t := mkOptions {
  opt_keepalive : option bool;
  opt_autoload : option bool;
  opt_autologin : option bool;
  opt_email : value;
  opt_password : value;
  opt_gateway : option string
}.

(** The storage.  [mounts] is assigned by reload before any import
    can push to it, so it is kept as a list from the start. *)
Record storage := mk {
  api : API.t;
  files : gmap string file;
  options : options_t;
  status : status_t;
  mounts : list string;
  root : option string;
  trash : option string;
  inbox : option string;
  key : option (list Byte.byte);     (* the master key, a Buffer *)
  aes : option (list Byte.byte);     (* the key the AES object was built from *)
  sid : option string;
  name : value;
  user : value;
  ready_once : list bool             (* reloads waiting for 'ready', with their force flag *)
}.

Definition set_api (x : API.t) (s : storage) : storage :=
  mk x (files s) (options s) (status s) (mounts s) (root s) (trash s) (inbox s)
     (key s) (aes s) (sid s) (name s) (user s) (ready_once s).
Definition set_files (x : gmap string file) (s : storage) : storage :=
  mk (api s) x (options s) (status s) (mounts s) (root s) (trash s) (inbox s)
     (key s) (aes s) (sid s) (name s) (user s) (ready_once s).
Definition set_status (x : status_t) (s : storage) : storage :=
  mk (api s) (files s) (options s) x (mounts s) (root s) (trash s) (inbox s)
     (key s) (aes s) (sid s) (name s) (user s) (ready_once s).
Definition set_mounts (x : list string) (s : storage) : storage :=
  mk (api s) (files s) (options s) (status s) x (root s) (trash s) (inbox s)
     (key s) (aes s) (sid s) (name s) (user s) (ready_once s).
Definition set_root (x : option string) (s : storage) : storage :=
  mk (api s) (files s) (options s) (status s) (mounts s) x (trash s) (inbox s)
     (key s) (aes s) (sid s) (name s) (user s) (ready_once s).
Definition set_trash (x : option string) (s : storage) : storage :=
  mk (api s) (files s) (options s) (status s) (mounts s) (root s) x (inbox s)
     (key s) (aes s) (sid s) (name s) (user s) (ready_once s).
Definition set_inbox (x : option string) (s : storage) : storage :=
  mk (api s) (files s) (options s) (status s) (mounts s) (root s) (trash s) x
     (key s) (aes s) (sid s) (name s) (user s) (ready_once s).
Definition set_ready_once (x : list bool) (s : storage) : storage :=
  mk (api s) (files s) (options s) (status s) (mounts s) (root s) (trash s) (inbox s)
     (key s) (aes s) (sid s) (name s) (user s) x.

(** In-place mutation of the file object held under [k]. *)
Definition update_file (k : string) (g : file -> file) (s : storage) : storage :=
  set_files (alter g k (files s)) s.

(** *** _importFile *)

Definition _importFile (s : storage) (f : node) : storage * string :=
  match files s !! h f with
  | Some _ => (s, h f)
  | None =>
      let s := set_files (<[h f := new_MutableFile f]> (files s)) s in
      let s := if t f =? NODE_TYPE_DRIVE
               then update_file (h f) (set_name "Cloud Drive") (set_root (Some (h f)) s)
               else s in
      let s := if t f =? NODE_TYPE_RUBBISH_BIN
               then update_file (h f) (set_name "Rubbish Bin") (set_trash (Some (h f)) s)
               else s in
      let s := if t f =? NODE_TYPE_INBOX
               then update_file (h f) (set_name "Inbox") (set_inbox (Some (h f)) s)
               else s in
      let s := if 1 <? t f then set_mounts (mounts s ++ [h f]) s else s in
      let s := match p f with
               | Some q =>
                   if (q =? "")%string then s
                   else match files s !! q with
                        | Some _ =>
                            update_file (h f) (set_parent (Some q))
                              (update_file q (push_child (h f)) s)
                        | None => s      (* Issue 58: an orphan *)
                        end
               | None => s
               end in
      (s, h f)
  end.

(** The table after the import of a record whose handle is new: the
    new object is entered, and linked when the record names a parent
    that the table has. *)
Definition imported (m : gmap string file) (f : node) (nf : file) : gmap string file :=
  let m1 := <[h f := nf]> m in
  match p f with
  | Some q =>
      if (q =? "")%string then m1
      else match m1 !! q with
           | Some _ => alter (set_parent (Some q)) (h f) (alter (push_child (h f)) q m1)
           | None => m1
           end
  | None => m1
  end.

(** *** The change-batch handler registered by reload *)

(** One action of a change batch.  Codes other than 'u', 'd' and 't'
    are skipped by the handler. *)
Inductive action :=
| ActU (n : string) (ts : value) (at_ : value)
| ActD (n : string)
| ActT (f : list node)
| ActOther (a : string).

(** What the handler emits: on the storage ([this.emit]) and on the
    file object ([file.emit]). *)
Inductive event :=
| Update (file : string)
| FileUpdate (file : string)
| Move (file oldparent : string)
| FileMove (file oldparent : string)
| Add (file : string)
| Delete (file : string)
| FileDelete (file : string).

(** The handler's run-time state: the storage, the local object
    [deleted] (its keys in insertion order) and what was emitted. *)
Record sync := mkSync {
  st : storage;
  deleted : list string;
  emitted : list event
}.

Definition on_st (g : storage -> storage) (y : sync) : sync :=
  mkSync (g (st y)) (deleted y) (emitted y).
Definition emit (e : event) (y : sync) : sync :=
  mkSync (st y) (deleted y) (emitted y ++ [e]).
(** [deleted[n] = true] *)
Definition mark (n : string) (y : sync) : sync :=
  mkSync (st y) (if decide (n ∈ deleted y) then deleted y else deleted y ++ [n])
         (emitted y).
(** [delete deleted[n]] *)
Definition unmark (n : string) (y : sync) : sync :=
  mkSync (st y) (filter (fun m => m <> n) (deleted y)) (emitted y).

(** [Object.keys]: the keys that are array indices first, in
    ascending numeric order, then the others in insertion order. *)
Definition keys (l : list string) : list string :=
  ((fun n => NilZero.string_of_uint (N.to_uint n))
     <$> merge_sort N.le (omap array_index l))
  ++ filter (fun m => array_index m = None) l.

(** [l.forEach(body)] where [body] may throw: the first exception
    ends the loop, and what was done before it stays done. *)
Fixpoint forEach {S A} (body : S -> A -> S * option error) (l : list A) (s : S)
  : S * option error :=
  match l with
  | [] => (s, None)
  | x :: r =>
      match body s x with
      | (s', None) => forEach body r s'
      | (s', Some e) => (s', Some e)
      end
  end.

Definition undefined_read (prop : string) : error :=
  TypeError ("Cannot read properties of undefined (reading '" ++ prop ++ "')")%string.

(** The body of [o.t.f.forEach]. *)
Definition move_or_add (y : sync) (f : node) : sync * option error :=
  match files (st y) !! h f with
  | Some file =>
      let y := unmark (h f) y in
      match parent file with
      | None => (y, Some (undefined_read "nodeId"))
      | Some op =>
          match files (st y) !! op with
          | None => (y, Some (undefined_read "nodeId"))
              (* not reached: the object in [file.parent] is in the table *)
          | Some oldparent =>
              if decide (Some (nodeId oldparent) = p f) then (y, None)
              else
                match children oldparent with
                | None => (y, Some (undefined_read "splice"))
                | Some cs =>
                    let y := on_st (update_file op
                               (set_children (Some (splice1 (indexOf (h f) cs) cs)))) y in
                    let q := default "undefined" (p f) in
                    match files (st y) !! q with
                    | None =>
                        (on_st (update_file (h f) (set_parent None)) y,
                         Some (undefined_read "children"))
                    | Some _ =>
                        let y := on_st (update_file (h f) (set_parent (Some q))) y in
                        let y := on_st (update_file q (push_child (h f))) y in
                        (emit (Move (h f) op) (emit (FileMove (h f) op) y), None)
                    end
                end
          end
      end
  | None =>
      let (s', x) := _importFile (st y) f in
      (emit (Add x) (on_st (fun _ => s') y), None)
  end.

(** The body of [arr.forEach]. *)
Definition apply_action (y : sync) (o : action) : sync * option error :=
  match o with
  | ActU n ts at_ =>
      match files (st y) !! n with
      | Some _ =>
          let y := on_st (update_file n (set_timestamp ts)) y in
          let y := on_st (update_file n (decryptAttributes at_)) y in
          (emit (Update n) (emit (FileUpdate n) y), None)
      | None => (y, None)
      end
  | ActD n => (mark n y, None)
  | ActT f => forEach move_or_add f y
  | ActOther _ => (y, None)
  end.

(** The body of [Object.keys(deleted).forEach]. *)
Definition finalize (y : sync) (n : string) : sync * option error :=
  match files (st y) !! n with
  | None => (y, Some (undefined_read "parent"))
  | Some file =>
      match parent file with
      | None => (y, Some (undefined_read "children"))
      | Some q =>
          match files (st y) !! q with
          | None => (y, Some (undefined_read "children"))
              (* not reached: the object in [file.parent] is in the table *)
          | Some par =>
              match children par with
              | None => (y, Some (undefined_read "splice"))
              | Some cs =>
                  let y := on_st (update_file q
                             (set_children (Some (splice1 (indexOf n cs) cs)))) y in
                  (emit (FileDelete n) (emit (Delete n) y), None)
              end
          end
      end
  end.

(** The listener [arr => { ... }] of ['sc']: the storage afterwards,
    the events emitted, and the exception if one was thrown. *)
Definition sc_handler (s : storage) (arr : list action)
  : storage * list event * option error :=
  let (y, e) := forEach apply_action arr (mkSync s [] []) in
  match e with
  | Some e => (st y, emitted y, Some e)
  | None =>
      let (y', e') := forEach finalize (keys (deleted y)) y in
      (st y', emitted y', e')
  end.

(** *** Shapes of the file graph *)

(** Every object sits under its own handle, and an object that has a
    parent is among that parent's children.  The load and the
    additions and moves of a change batch keep a graph like this;
    a deletion does not, as it leaves the deleted object in the table
    with its parent set. *)
Definition linked_at (m : gmap string file) (x : string) : Prop :=
  forall f q, m !! x = Some f -> parent f = Some q ->
    exists fq cs, m !! q = Some fq /\ children fq = Some cs /\ x ∈ cs.

Definition ids_ok (m : gmap string file) : Prop :=
  forall x f, m !! x = Some f -> nodeId f = x.

Definition linked_graph (m : gmap string file) : Prop :=
  ids_ok m /\ forall x, linked_at m x.

(** The parent recorded in object [x], and its children, if the
    table has [x]. *)
Definition par_of (m : gmap string file) (x : string) : option (option string) :=
  parent <$> m !! x.

Definition kids_of (m : gmap string file) (x : string)
  : option (option (list string)) :=
  children <$> m !! x.

(** Every child listed is an object of the table. *)
Definition children_known (m : gmap string file) : Prop :=
  forall x cs c, kids_of m x = Some (Some cs) -> c ∈ cs -> is_Some (m !! c).

(** [c] is in the table without a parent, and no object lists it
    among its children. *)
Definition unlinked (m : gmap string file) (c : string) : Prop :=
  par_of m c = Some None /\
  forall x cs, kids_of m x = Some (Some cs) -> c ∉ cs.

(** [x] is in the graph as a child of [q]. *)
Definition child_of (m : gmap string file) (x q : string) : Prop :=
  exists f fq cs,
    m !! x = Some f /\ parent f = Some q /\
    m !! q = Some fq /\ children fq = Some cs /\ x ∈ cs.

(** The table after object [x] was moved from the parent [op],
    whose children were [cs], to the parent [q]. *)
Definition moved (m : gmap string file) (x op : string) (cs : list string) (q : string)
  : gmap string file :=
  alter (push_child x) q
    (alter (set_parent (Some q)) x
       (alter (set_children (Some (splice1 (indexOf x cs) cs))) op m)).

(** The table after object [x] was taken out of the children [cs]
    of its parent [q]. *)
Definition detached (m : gmap string file) (x q : string) (cs : list string)
  : gmap string file :=
  alter (set_children (Some (splice1 (indexOf x cs) cs))) q m.



(** The action carries a record for [x]. *)
Definition brings (x : string) (o : action) : Prop :=
  match o with
  | ActT recs => Exists (fun r => h r = x) recs
  | _ => False
  end.





(** [this.api.emit('sc', arr)]: the registered listeners run one
    after the other on the same storage; an exception thrown by one
    leaves [emit] and the later ones do not run. *)
Definition emit_sc (s : storage) (arr : list action)
  : storage * list event * option error :=
  let '(s', evs, e) :=
    forEach (fun (x : storage * list event) (_ : API.listener) =>
               let '(s1, evs1, e1) := sc_handler (fst x) arr in
               ((s1, snd x ++ evs1), e1))
            (API.sc_listeners (api s)) (s, []) in
  (s', evs, e).

(** *** reload *)

(** The listing the server returns to [{ a: 'f', c: 1 }]: the node
    records and, when the account has links, the public handles
    ([item.h], [item.ph]). *)
Record listing := mkListing {
  lst_f : list node;
  lst_ph : option (list (string * value))
}.

Inductive reload_result :=
| Deferred (s : storage)                    (* waits for 'ready' *)
| Threw (s : storage) (e : error)           (* request threw: the API is closed *)
| Requested (s : storage) (fetch : API.sent).

Definition is_connecting (x : status_t) : bool :=
  match x with StatusConnecting => true | _ => false end.

(** The synchronous part of [reload(force, cb)]. *)
Definition reload (s : storage) (force : bool) : reload_result :=
  if (is_connecting (status s) && negb force)%bool
  then Deferred (set_ready_once (ready_once s ++ [force]) s)
  else
    let s := set_mounts [] s in
    match API.request_send (api s) [("a", VStr "f"); ("c", VNum 1)] with
    | inl e => Threw s e
    | inr sent =>
        Requested (set_api (API.add_sc_listener API.StorageSync (API.sent_api sent)) s)
                  sent
    end.

(** [n] calls of [reload()] in a row. *)
Fixpoint reload_times (n : nat) (s : storage) : storage :=
  match n with
  | O => s
  | S n' =>
      match reload (reload_times n' s) false with
      | Deferred s' | Threw s' _ | Requested s' _ => s'
      end
  end.

(** The handler run [k] times in a row on the same batch, each run
    on the storage the previous one left; an exception ends the
    series. *)
Fixpoint sc_handler_times (k : nat) (s : storage) (arr : list action)
  : storage * list event * option error :=
  match k with
  | O => (s, [], None)
  | S k' =>
      match sc_handler s arr with
      | (s1, evs1, Some e) => (s1, evs1, Some e)
      | (s1, evs1, None) =>
          let '(s2, evs2, e2) := sc_handler_times k' s1 arr in
          (s2, evs1 ++ evs2, e2)
      end
  end.

(** The body of [response.f.forEach] in the callback of the listing
    request.  (The share keys and share URLs the callback also
    computes need the AES primitives of ./crypto, which are outside
    this development; they do not touch the table, the mounts, or any
    parent or child link.) *)
Definition find_ph (ph : list (string * value)) (nodeId : string) : value :=
  match find (fun item => (fst item =? nodeId)%string) ph with
  | Some item => snd item
  | None => VUndef
  end.

Definition load_node (ph : option (list (string * value))) (s : storage) (f : node)
  : storage :=
  let (s, x) := _importFile s f in
  match ph, files s !! x with
  | Some ph, Some file => update_file x (set_share (find_ph ph (nodeId file))) s
  | _, _ => s
  end.

(** The callback of the listing request: an error goes to [cb];
    otherwise the records are imported in the order received and
    [cb] gets the mounts. *)
Definition reload_response (s : storage) (err : option error) (response : listing)
  : storage * (error + list string) :=
  match err with
  | Some e => (s, inl e)
  | None =>
      let s := fold_left (load_node (lst_ph response)) (lst_f response) s in
      (s, inr (mounts s))
  end.

(** The closure [ready] of login: the status becomes 'ready' and the
    'ready' event runs the reloads that were waiting for it, each
    removed from the waiting list as it is run; [n] is the number of
    listeners when the event is emitted. *)
Fixpoint fire_ready (n : nat) (s : storage) : storage * list API.sent * option error :=
  match n, ready_once s with
  | S n', force :: rest =>
      match reload (set_ready_once rest s) force with
      | Deferred s1 => fire_ready n' s1
      | Threw s1 e => (s1, [], Some e)
      | Requested s1 sent =>
          let '(s2, sents, e) := fire_ready n' s1 in (s2, sent :: sents, e)
      end
  | _, _ => (s, [], None)
  end.

Definition ready (s : storage) : storage * list API.sent * option error :=
  let s := set_status StatusReady s in
  fire_ready (length (ready_once s)) s.

(** *** getAccountInfo *)

Record account := mkAccount {
  acc_type : value;
  spaceUsed : value;
  spaceTotal : value;
  downloadBandwidthTotal : value;
  downloadBandwidthUsed : value;
  sharedBandwidthUsed : value;
  sharedBandwidthLimit : value
}.

(** [x || y] *)
Definition or_else (x y : value) : value := if truthy x then x else y.

(** What the caller of getAccountInfo gets to see: a call of its
    callback, or an exception that nothing catches. *)
Inductive reply :=
| Reply (err : option error) (acc : option account)
| Uncaught (e : error).

(** The normalization of the response, from [const account = {}] to
    [cb(null, account)]; reading a property of [undefined] throws. *)
Definition normalize (response : value) : error + account :=
  match get response "utype" with
  | None => inl (undefined_read "utype")
  | Some utype =>
      inr (mkAccount utype
             (get_or_undef response "cstrg")
             (get_or_undef response "mstrg")
             (or_else (get_or_undef response "mxfer") (VNum (1024 ^ 5 * 10)))
             (or_else (get_or_undef response "caxfer") (VNum 0))
             (or_else (get_or_undef response "csxfer") (VNum 0))
             (get_or_undef response "srvratio"))
  end.

(** The callback [(err, response) => { ... }] handed to request:
    the calls of [cb] it makes and the exception it ends with, if
    any. *)
Definition getAccountInfo_cb (err : option error) (response : value)
  : list reply * option error :=
  let first := match err with
               | Some e => [Reply (Some e) None]
               | None => []
               end in
  match normalize response with
  | inl e => (first, Some e)
  | inr acc => (first ++ [Reply None (Some acc)], None)
  end.

(** Modelled from the spec: [createPromise] of util.mjs, which is
    not among the sources: the adapter behind the callback and promise
    surface of every call, which completes once, with an error or
    with a result.  [createPromise(originalCb)] makes a promise and
    the function [cb] that settles it: called with an error, [cb]
    rejects the promise, and otherwise resolves it with its second
    argument.  [originalCb] is a reaction of that promise: it gets the
    error alone, or [null] and the result; it runs for the first
    settlement only; and an exception it throws is caught by nothing,
    the [.catch] of request included. *)
Definition createPromise (err : option error) (arg : value) : option error * value :=
  match err with
  | Some e => (Some e, VUndef)
  | None => (None, arg)
  end.

(** The [cb] of getAccountInfo comes from [createPromise] as well:
    of the calls made to it, the first settles the promise and
    reaches the caller. *)
Definition settle_once (calls : list reply) : list reply := take 1 calls.

(** The callback handed to request, as it is run when request calls
    its own [cb(err, resp)]: what the caller of getAccountInfo gets to
    see. *)
Definition in_then (err : option error) (response : value) : list reply :=
  let (err', response') := createPromise err response in
  let (rs, thrown) := getAccountInfo_cb err' response' in
  settle_once rs ++ match thrown with Some e' => [Uncaught e'] | None => [] end.

(** ... and when the [.catch] handler of request calls [cb(err)]. *)
Definition in_catch (e : error) : list reply := in_then (Some e) VUndef.

Definition replies (evs : list API.event) : list reply :=
  flat_map (fun ev => match ev with
                      | API.Called err resp => in_then err resp
                      | API.Caught e => in_catch e
                      | API.Threw e => [Uncaught e]
                      | _ => []
                      end) evs.

(** [getAccountInfo(cb)], the server's answers being [answers]. *)
Definition getAccountInfo (s : storage) (answers : list API.fetch_result)
  : storage * list reply :=
  let (a', evs) :=
    API.request_run (api s)
      [("a", VStr "uq"); ("strg", VNum 1); ("xfer", VNum 1); ("pro", VNum 1)]
      0 answers in
  (set_api a' s, replies evs).

(** *** The constructor and the session snapshot *)

(** How the constructor ends: [this.login(cb)], or
    [process.nextTick(() => cb(null, this))]. *)
Inductive startup := StartLogin | StartTick.

Definition with_defaults (o : options_t) : options_t :=
  mkOptions (Some (default true (opt_keepalive o)))
            (Some (default true (opt_autoload o)))
            (Some (default true (opt_autologin o)))
            (opt_email o) (opt_password o) (opt_gateway o).

Definition flag (b : option bool) : bool := default false b.

(** [new Storage(options)]; [rnd] is the string the API constructor
    draws for its counter. *)
Definition create (o : options_t) (rnd : string) : storage * startup :=
  let o := with_defaults o in
  (mk (API.create (flag (opt_keepalive o)) (opt_gateway o) rnd)
      empty o StatusClosed [] None None None None None None VUndef VUndef [],
   if flag (opt_autologin o) then StartLogin else StartTick).

Record snapshot := mkSnapshot {
  snap_key : string;
  snap_sid : option string;
  snap_name : value;
  snap_user : value;
  snap_options : options_t
}.

(** [toJSON()]; without a key there is nothing for [e64] to encode. *)
Definition toJSON (s : storage) : error + snapshot :=
  match key s with
  | Some k =>
      inr (mkSnapshot (Base64.e64 k) (sid s) (name s) (user s) (options s))
  | None => inl (undefined_read "toString")
  end.

(** [Object.assign(json.options, { autoload: false, autologin: false })] *)
Definition no_auto (o : options_t) : options_t :=
  mkOptions (opt_keepalive o) (Some false) (Some false)
            (opt_email o) (opt_password o) (opt_gateway o).

Definition fromJSON (json : snapshot) (rnd : string) : storage * startup :=
  let (s, up) := create (no_auto (snap_options json)) rnd in
  let k := Base64.d64 (snap_key json) in
  (mk (API.set_sid (snap_sid json) (api s))
      (files s) (options s) (status s) (mounts s) (root s) (trash s) (inbox s)
      (Some k) (Some k) (snap_sid json) (snap_name json) (snap_user json)
      (ready_once s),
   up).

(** *** mkdir, upload and close *)

(** What [mkdir] and [upload] hand over to the root folder, whose
    methods are those of mutable-file.mjs. *)
Inductive delegated :=
| RootMkdir (root : string)
| RootUpload (root : string).

Definition is_ready (x : status_t) : bool :=
  match x with StatusReady => true | _ => false end.

Definition mkdir (s : storage) : error + delegated :=
  if negb (is_ready (status s)) then inl (Error "storage is not ready")
  else match root s with
       | Some r => inr (RootMkdir r)
       | None => inl (undefined_read "mkdir")
       end.

Definition upload (s : storage) : error + delegated :=
  if negb (is_ready (status s)) then inl (Error "storage is not ready")
  else match root s with
       | Some r => inr (RootUpload r)
       | None => inl (undefined_read "upload")
       end.

(** [close(cb)]: the status, [this.api.close()], and the logout
    request followed through the server's [answers]; the middle
    component is the controller that was aborted. *)
Definition close (s : storage) (answers : list API.fetch_result)
  : storage * option API.controller * list API.event :=
  let s := set_status StatusClosed s in
  let (aborted, a) := API.close (api s) in
  let (a', evs) := API.request_run a [("a", VStr "sml")] 0 answers in
  (set_api a' s, aborted, evs).

(** *** login, up to the account version *)

(** [toLowerCase] on the letters A to Z; an e-mail address is taken
    to be written in ASCII. *)
Definition lower (c : ascii) : ascii :=
  let n := nat_of_ascii c in
  if ((65 <=? n)%nat && (n <=? 90)%nat)%bool then ascii_of_nat (n + 32) else c.

Fixpoint toLowerCase (s : string) : string :=
  match s with
  | EmptyString => EmptyString
  | String c r => String (lower c) (toLowerCase r)
  end.

(** How [login(cb)] starts. *)
Inductive login_start :=
| NoCredentials (e : error)           (* process.nextTick(() => cb(e)) *)
| LoginThrew (e : error)              (* request threw: the API is closed *)
| VersionAsked (email : string) (sent : API.sent).

(** The synchronous part of [login]: without an e-mail address that
    is a string nothing is sent; otherwise the account version is
    asked for and the status becomes 'connecting'. *)
Definition login (s : storage) : storage * login_start :=
  match opt_email (options s) with
  | VStr email =>
      let email := toLowerCase email in
      match API.request_send (api s) [("a", VStr "us0"); ("user", VStr email)] with
      | inl e => (s, LoginThrew e)
      | inr sent =>
          (set_status StatusConnecting (set_api (API.sent_api sent) s),
           VersionAsked email sent)
      end
  | _ =>
      (s, NoCredentials (Error "starting a session without credentials isn't supported"))
  end.

(** What the callback of the version request decides; the two
    account handlers derive keys with ./crypto and are outside this
    development. *)
Inductive account_step :=
| LoginError (e : error)              (* cb(e) *)
| V1Account
| V2Account (info : value).

Definition login_version (err : option error) (response : value)
  : error + account_step :=
  match err with
  | Some e => inr (LoginError e)
  | None =>
      match get response "v" with
      | None => inl (undefined_read "v")
      | Some (VNum 1) => inr V1Account
      | Some (VNum 2) => inr (V2Account response)
      | Some _ => inr (LoginError (Error "Account version not supported"))
      end
  end.

(** The constructor with what it starts: [this.login(cb)], or the
    tick that calls [cb(null, this)]. *)
Inductive constructed :=
| Logging (l : login_start)
| Ticking.

Definition new_Storage (o : options_t) (rnd : string) : storage * constructed :=
  let (s, up) := create o rnd in
  match up with
  | StartLogin => let (s', l) := login s in (s', Logging l)
  | StartTick => (s, Ticking)
  end.

(** *** More shapes of the file graph *)

(** No object lists a child twice. *)
Definition children_distinct (m : gmap string file) : Prop :=
  forall x cs, kids_of m x = Some (Some cs) -> NoDup cs.

(** The handles that a listing of new records adds to the mounts. *)
Definition mount_handles (l : list node) : list string :=
  h <$> List.filter (fun f => 1 <? t f) l.



Definition is_delete (o : action) : bool :=
  match o with
  | ActD _ => true
  | _ => false
  end.

(** The handle of the last record of type [k] in a listing. *)
Definition last_of_type (k : Z) (l : list node) : option string :=
  h <$> last (List.filter (fun f => t f =? k) l).

End Storage.

(** ** Sample inputs *)

Module Samples.
Import API.

(** An instance as the storage constructor makes it, and some
    payloads and answers. *)
Definition api0 : API.t := create true None "0.8723456789123".

Definition payload_f : list (string * value) := [("a", VStr "f"); ("c", VNum 1)].

Definition payload_own_id : list (string * value) :=
  [("a", VStr "g"); ("_querystring", VObj [("id", VStr "7")])].

Definition eagain_bare : fetch_result := Response "OK" true (inr (VNum (-3))).
Definition eagain_array : fetch_result := Response "OK" true (inr (VArr [VNum (-3)])).
Definition eagain_busy : fetch_result :=
  Response "Server Too Busy" false (inl (Error "not JSON")).
Definition enoent : fetch_result := Response "OK" true (inr (VNum (-9))).

Definition listing_resp : value := VObj [("f", VArr []); ("sn", VStr "Zk3xQ9a1b2c")].
Definition answer_listing : fetch_result := Response "OK" true (inr (VArr [listing_resp])).

Definition quota_resp : value :=
  VObj [("utype", VNum 0); ("cstrg", VNum 1024); ("mstrg", VNum 53687091200)].
Definition answer_quota : fetch_result := Response "OK" true (inr (VArr [quota_resp])).

Definition api_counting : API.t := API.set_counterId (CStr "0000000009") api0.

Definition session0 : session := mkSession api0 [].

Definition answer_poll : fetch_result :=
  Response "OK" true (inr (VObj [("sn", VStr "Zk3xQ9a1b2d")])).

(** A storage after login: master key, session id, account name and
    user handle are set. *)
Definition master_key : list Byte.byte :=
  [Byte.x00; Byte.x11; Byte.x22; Byte.x33; Byte.x44; Byte.x55; Byte.x66; Byte.x77;
   Byte.x88; Byte.x99; Byte.xaa; Byte.xbb; Byte.xcc; Byte.xdd; Byte.xee; Byte.xff].

Definition logged_in : Storage.storage :=
  Storage.mk (API.set_sid (Some "c2Vzc2lvbi1pZA") api0) empty
    (Storage.with_defaults
       (Storage.mkOptions None None None (VStr "user@example.org") VUndef None))
    Storage.StatusReady [] None None None
    (Some master_key) (Some master_key) (Some "c2Vzc2lvbi1pZA")
    (VStr "Ada") (VStr "dXNlcmhhbmRsZQ") [].

(** A small drive: two folders under the root and three files in
    the first folder, loaded into an empty storage. *)
Definition record (handle : string) (parent : option string) (type : Z)
  : MutableFile.node :=
  MutableFile.mkNode handle parent type (VNum 1700000000) (VStr "YXR0cg") (VStr "a2V5").

Definition empty_storage : Storage.storage :=
  (Storage.create (Storage.mkOptions None None (Some false) VUndef VUndef None)
                  "0.8723456789123").1.

Definition drive_listing : Storage.listing :=
  Storage.mkListing
    [record "root" None 2;
     record "dirA" (Some "root") 1;
     record "dirB" (Some "root") 1;
     record "file1" (Some "dirA") 0;
     record "file2" (Some "dirA") 0;
     record "file3" (Some "dirA") 0]
    None.

Definition drive : Storage.storage :=
  (Storage.reload_response empty_storage None drive_listing).1.



(** A listing that has a child before its parent. *)
Definition orphan_listing : Storage.listing :=
  Storage.mkListing
    [record "root" None 2;
     record "child" (Some "late") 0;
     record "other" (Some "root") 0;
     record "late" (Some "root") 1;
     record "sibling" (Some "late") 0]
    None.

(** The drive after reload was called twice more. *)
Definition drive_reloaded_twice : Storage.storage := Storage.reload_times 2 drive.

(** A batch with a delete for a handle the drive does not have. *)
Definition batch_unknown_delete : list Storage.action :=
  [Storage.ActU "file2" (VNum 1700000005) (VStr "bmV3");
   Storage.ActD "gone";
   Storage.ActT [record "file4" (Some "dirB") 0]].

Definition add_batch : list Storage.action :=
  [Storage.ActT [record "file9" (Some "dirA") 0]].

End Samples.

(** * The text form of keys round-trips *)

Module Base64Facts.
Import Base64.

Lemma decode_encode_sextet n :
  (n < 64)%N -> decode_char (encode_sextet n) = Some n.
Proof.
  intros Hn.
  assert (Hall : forallb (fun m => match decode_char (encode_sextet m) with
                                   | Some m' => (m' =? m)%N
                                   | None => false
                                   end)
                         (List.map N.of_nat (seq 0 64)) = true)
    by (vm_compute; reflexivity).
  rewrite forallb_forall in Hall.
  specialize (Hall n). 
  destruct (decode_char (encode_sextet n)) as [m|].
  - f_equal. apply N.eqb_eq. apply Hall.
    apply in_map_iff. exists (N.to_nat n). split; [apply N2Nat.id|].
    apply in_seq. lia.
  - discriminate Hall.
    apply in_map_iff. exists (N.to_nat n). split; [apply N2Nat.id|].
    apply in_seq. lia.
Qed.

Lemma list_ind3 {A} (P : list A -> Prop) :
  P [] -> (forall a, P [a]) -> (forall a b, P [a; b]) ->
  (forall a b c l, P l -> P (a :: b :: c :: l)) ->
  forall l, P l.
Proof.
  intros H0 H1 H2 H3.
  fix IH 1.
  intros [|a [|b [|c l]]]; [exact H0 | apply H1 | apply H2 | apply H3, IH].
Qed.

Lemma byte_bound b : (Byte.to_N b < 256)%N.
Proof. pose proof (Byte.to_N_bounded b). lia. Qed.

Lemma sextets_bound bs : Forall (fun n => (n < 64)%N) (sextets bs).
Proof.
  induction bs as [|b1|b1 b2|b1 b2 b3 rest IH] using list_ind3.
  - constructor.
  - pose proof (byte_bound b1). cbn [sextets].
    repeat constructor.
    + apply N.Div0.div_lt_upper_bound. lia.
    + pose proof (N.mod_upper_bound (Byte.to_N b1) 4). lia.
  - pose proof (byte_bound b1). pose proof (byte_bound b2). cbn [sextets].
    repeat constructor.
    + apply N.Div0.div_lt_upper_bound. lia.
    + pose proof (N.mod_upper_bound (Byte.to_N b1) 4).
      assert (Byte.to_N b2 / 16 < 16)%N by (apply N.Div0.div_lt_upper_bound; lia).
      lia.
    + pose proof (N.mod_upper_bound (Byte.to_N b2) 16). lia.
  - pose proof (byte_bound b1). pose proof (byte_bound b2).
    pose proof (byte_bound b3). cbn [sextets].
    repeat (constructor; [|]); [| | | |exact IH].
    + apply N.Div0.div_lt_upper_bound. lia.
    + pose proof (N.mod_upper_bound (Byte.to_N b1) 4).
      assert (Byte.to_N b2 / 16 < 16)%N by (apply N.Div0.div_lt_upper_bound; lia).
      lia.
    + pose proof (N.mod_upper_bound (Byte.to_N b2) 16).
      assert (Byte.to_N b3 / 64 < 4)%N by (apply N.Div0.div_lt_upper_bound; lia).
      lia.
    + apply N.mod_upper_bound. lia.
Qed.

Lemma regroup1 n1 n2 :
  (n1 < 256 -> n2 < 256 ->
   n1 / 4 * 4 + (n1 mod 4 * 16 + n2 / 16) / 16 = n1)%N.
Proof.
  intros H1 H2.
  assert (E : ((n1 mod 4 * 16 + n2 / 16) / 16 = n1 mod 4)%N).
  { rewrite N.div_add_l by lia.
    rewrite (N.div_small (n2 / 16) 16).
    - lia.
    - apply N.Div0.div_lt_upper_bound; lia. }
  rewrite E. pose proof (N.div_mod n1 4). lia.
Qed.

Lemma regroup2 n1 n2 n3 :
  (n2 < 256 -> n3 < 256 ->
   (n1 mod 4 * 16 + n2 / 16) mod 16 * 16 + (n2 mod 16 * 4 + n3 / 64) / 4 = n2)%N.
Proof.
  intros H2 H3.
  assert (E1 : ((n1 mod 4 * 16 + n2 / 16) mod 16 = n2 / 16)%N).
  { rewrite N.add_comm, N.Div0.mod_add. apply N.mod_small.
    apply N.Div0.div_lt_upper_bound; lia. }
  assert (E2 : ((n2 mod 16 * 4 + n3 / 64) / 4 = n2 mod 16)%N).
  { rewrite N.div_add_l by lia.
    rewrite (N.div_small (n3 / 64) 4).
    - lia.
    - apply N.Div0.div_lt_upper_bound; lia. }
  rewrite E1, E2. pose proof (N.div_mod n2 16). lia.
Qed.

Lemma regroup3 n2 n3 :
  (n3 < 256 ->
   (n2 mod 16 * 4 + n3 / 64) mod 4 * 64 + n3 mod 64 = n3)%N.
Proof.
  intros H3.
  assert (E : ((n2 mod 16 * 4 + n3 / 64) mod 4 = n3 / 64)%N).
  { rewrite N.add_comm, N.Div0.mod_add. apply N.mod_small.
    apply N.Div0.div_lt_upper_bound; lia. }
  rewrite E. pose proof (N.div_mod n3 64). lia.
Qed.

Lemma byte_of_to_N b : byte_of (Byte.to_N b) = b.
Proof. unfold byte_of. rewrite Byte.of_to_N. reflexivity. Qed.

Lemma decode_sextets bs : decode (sextets bs) = bs.
Proof.
  induction bs as [|b1|b1 b2|b1 b2 b3 rest IH] using list_ind3.
  - reflexivity.
  - pose proof (byte_bound b1). cbn [sextets decode].
    pose proof (regroup1 (Byte.to_N b1) 0 ltac:(lia) ltac:(lia)) as E.
    change (0 / 16)%N with 0%N in E. rewrite N.add_0_r in E.
    rewrite E, byte_of_to_N. reflexivity.
  - pose proof (byte_bound b1). pose proof (byte_bound b2). cbn [sextets decode].
    rewrite regroup1 by assumption.
    pose proof (regroup2 (Byte.to_N b1) (Byte.to_N b2) 0 ltac:(lia) ltac:(lia)) as E.
    change (0 / 64)%N with 0%N in E. rewrite N.add_0_r in E.
    rewrite E, !byte_of_to_N. reflexivity.
  - pose proof (byte_bound b1). pose proof (byte_bound b2).
    pose proof (byte_bound b3). cbn [sextets decode].
    rewrite regroup1, regroup2, regroup3 by assumption.
    rewrite !byte_of_to_N. fold (decode (sextets rest)). rewrite IH. reflexivity.
Qed.

Lemma omap_decode_encode ss :
  Forall (fun n => (n < 64)%N) ss ->
  omap decode_char (encode_sextet <$> ss) = ss.
Proof.
  induction 1 as [|n ss Hn _ IH]; [reflexivity|].
  cbn [fmap list_fmap omap list_omap].
  rewrite (decode_encode_sextet n Hn). f_equal. exact IH.
Qed.

(** Decoding the text of a buffer gives the buffer back. *)
Lemma d64_e64 buffer : d64 (e64 buffer) = buffer.
Proof.
  unfold d64, e64, encode.
  rewrite list_ascii_of_string_of_list_ascii.
  rewrite omap_decode_encode by apply sextets_bound.
  apply decode_sextets.
Qed.

End Base64Facts.

(** * Properties of the transport *)

Module APIFacts.
Import API.

Lemma request_send_open a json :
  closed a = false ->
  exists s, request_send a json = inr s
            /\ closed (sent_api s) = false
            /\ keepalive (sent_api s) = keepalive a.
Proof.
  intros Hc. unfold request_send, query. rewrite Hc. simpl.
  eexists. split; [reflexivity|]. simpl. auto.
Qed.

Lemma request_settled_code a il retryno r z :
  closed a = false ->
  answers_code r z ->
  request_settled a il retryno r =
    if ((z =? -3) && (retryno <? MAX_RETRIES))%bool
    then Retry (2 ^ (retryno + 1) * 1000)
    else Deliver None (Some (api_error z)) (VNum z).
Proof.
  intros Hc (v & Hs & Ht & Hu & Hz).
  unfold request_settled, request_then. rewrite Hs, Hc, Ht. simpl.
  fold (unwrap v). rewrite Hu. simpl.
  destruct (Z.ltb_spec z 0); [reflexivity | lia].
Qed.

Lemma request_settled_success a il retryno r resp :
  closed a = false ->
  answers_with r resp ->
  exists p, request_settled a il retryno r = Deliver p None resp.
Proof.
  intros Hc (v & Hs & Ht & Hu & Hn).
  unfold request_settled, request_then. rewrite Hs, Hc, Ht. simpl.
  fold (unwrap v). rewrite Hu, Hn.
  destruct (_ && _)%bool; eauto.
Qed.

(** One step of the retry chain. *)
Lemma run_retry a json k r rest :
  closed a = false ->
  answers_code r (-3) ->
  k < MAX_RETRIES ->
  exists a' json' f,
    closed a' = false /\
    (request_run a json k (r :: rest)).2
      = Fetched f :: TimerSet (2 ^ (k + 1) * 1000)
          :: (request_run a' json' (k + 1) rest).2.
Proof.
  intros Hc Hr Hk.
  destruct (request_send_open a json Hc) as (s & Hs & Hcs & _).
  exists (sent_api s), (sent_json s), (sent_fetch s). split; [exact Hcs|].
  simpl. rewrite Hs.
  rewrite (request_settled_code _ _ _ _ _ Hcs Hr).
  destruct (Z.ltb_spec k MAX_RETRIES); [|lia]. simpl.
  destruct (request_run (sent_api s) (sent_json s) (k + 1) rest) as [a' evs].
  reflexivity.
Qed.

Lemma run_exhausted a json k r rest :
  closed a = false ->
  answers_code r (-3) ->
  MAX_RETRIES <= k ->
  exists f,
    (request_run a json k (r :: rest)).2
      = [Fetched f; Called (Some (api_error (-3))) (VNum (-3))].
Proof.
  intros Hc Hr Hk.
  destruct (request_send_open a json Hc) as (s & Hs & Hcs & _).
  exists (sent_fetch s). simpl. rewrite Hs.
  rewrite (request_settled_code _ _ _ _ _ Hcs Hr).
  destruct (Z.ltb_spec k MAX_RETRIES); [lia|]. reflexivity.
Qed.

(** A successful answer ends the chain: the callback is the last
    thing to happen, after the long poll was started if the response
    asked for it. *)
Lemma run_success a json k r rest resp :
  closed a = false ->
  answers_with r resp ->
  exists f pre,
    pull_only pre /\
    (request_run a json k (r :: rest)).2
      = Fetched f :: pre ++ [Called None resp].
Proof.
  intros Hc Hr.
  destruct (request_send_open a json Hc) as (s & Hs & Hcs & _).
  destruct (request_settled_success _ (sent_isLogout s) k _ _ Hcs Hr) as (p & Hp).
  exists (sent_fetch s). simpl. rewrite Hs, Hp.
  destruct p as [sn|].
  - exists [PullStarted (pull (sent_api s) sn).2].
    split; [right; eauto | reflexivity].
  - exists []. split; [left; reflexivity | reflexivity].
Qed.

(** C3.  A unary request on an open instance whose first three
    answers are the error code -3 and whose fourth is a successful
    response sends four fetches, sets exactly three timers between
    them, of 2000, 4000 and 8000 ms, and then hands the response to
    the callback without an error.  When the first five answers are
    all -3 it sets exactly four timers (2000, 4000, 8000, 16000 ms)
    and after the fifth fetch hands the callback the EAGAIN error of
    the table, whose text says that the request was retried 4 times. *)
Theorem request_retry_policy a json r1 r2 r3 :
  closed a = false ->
  answers_code r1 (-3) -> answers_code r2 (-3) -> answers_code r3 (-3) ->
  (forall r4 resp,
   answers_with r4 resp ->
   exists f1 f2 f3 f4 pre,
     pull_only pre /\
     (request_run a json 0 [r1; r2; r3; r4]).2
       = [Fetched f1; TimerSet 2000; Fetched f2; TimerSet 4000;
          Fetched f3; TimerSet 8000; Fetched f4]
         ++ pre ++ [Called None resp])
  /\
  (forall r4 r5,
   answers_code r4 (-3) -> answers_code r5 (-3) ->
   exists f1 f2 f3 f4 f5,
     (request_run a json 0 [r1; r2; r3; r4; r5]).2
       = [Fetched f1; TimerSet 2000; Fetched f2; TimerSet 4000;
          Fetched f3; TimerSet 8000; Fetched f4; TimerSet 16000;
          Fetched f5; Called (Some (api_error (-3))) (VNum (-3))]
     /\ emessage (api_error (-3))
        = "EAGAIN (-3): A temporary congestion or server malfunction prevented your request from being processed. No data was altered. Retried 4 times.").
Proof.
  intros Hc H1 H2 H3. split.
  - intros r4 resp H4.
    destruct (run_retry a json 0 r1 [r2; r3; r4] Hc H1) as (a1 & j1 & f1 & Hc1 & E1);
      [unfold MAX_RETRIES; lia|].
    destruct (run_retry a1 j1 1 r2 [r3; r4] Hc1 H2) as (a2 & j2 & f2 & Hc2 & E2);
      [unfold MAX_RETRIES; lia|].
    destruct (run_retry a2 j2 2 r3 [r4] Hc2 H3) as (a3 & j3 & f3 & Hc3 & E3);
      [unfold MAX_RETRIES; lia|].
    destruct (run_success a3 j3 3 r4 [] resp Hc3 H4) as (f4 & pre & Hpre & E4).
    exists f1, f2, f3, f4, pre. split; [exact Hpre|].
    rewrite E1. change (0 + 1) with 1. rewrite E2. change (1 + 1) with 2.
    rewrite E3. change (2 + 1) with 3. rewrite E4. reflexivity.
  - intros r4 r5 H4 H5.
    destruct (run_retry a json 0 r1 [r2; r3; r4; r5] Hc H1) as (a1 & j1 & f1 & Hc1 & E1);
      [unfold MAX_RETRIES; lia|].
    destruct (run_retry a1 j1 1 r2 [r3; r4; r5] Hc1 H2) as (a2 & j2 & f2 & Hc2 & E2);
      [unfold MAX_RETRIES; lia|].
    destruct (run_retry a2 j2 2 r3 [r4; r5] Hc2 H3) as (a3 & j3 & f3 & Hc3 & E3);
      [unfold MAX_RETRIES; lia|].
    destruct (run_retry a3 j3 3 r4 [r5] Hc3 H4) as (a4 & j4 & f4 & Hc4 & E4);
      [unfold MAX_RETRIES; lia|].
    destruct (run_exhausted a4 j4 4 r5 [] Hc4 H5) as (f5 & E5);
      [unfold MAX_RETRIES; lia|].
    exists f1, f2, f3, f4, f5. split; [|reflexivity].
    rewrite E1. change (0 + 1) with 1. rewrite E2. change (1 + 1) with 2.
    rewrite E3. change (2 + 1) with 3. rewrite E4. change (3 + 1) with 4.
    rewrite E5. reflexivity.
Qed.

Lemma request_retry_policy_witness :
  (exists f1 f2 f3 f4 pre,
     pull_only pre /\
     (request_run Samples.api0 Samples.payload_f 0
        [Samples.eagain_bare; Samples.eagain_busy; Samples.eagain_array;
         Samples.answer_listing]).2
       = [Fetched f1; TimerSet 2000; Fetched f2; TimerSet 4000;
          Fetched f3; TimerSet 8000; Fetched f4]
         ++ pre ++ [Called None Samples.listing_resp])
  /\
  (exists f1 f2 f3 f4 f5,
     (request_run Samples.api0 Samples.payload_f 0
        [Samples.eagain_bare; Samples.eagain_busy; Samples.eagain_array;
         Samples.eagain_bare; Samples.eagain_busy]).2
       = [Fetched f1; TimerSet 2000; Fetched f2; TimerSet 4000;
          Fetched f3; TimerSet 8000; Fetched f4; TimerSet 16000;
          Fetched f5; Called (Some (api_error (-3))) (VNum (-3))]
     /\ emessage (api_error (-3))
        = "EAGAIN (-3): A temporary congestion or server malfunction prevented your request from being processed. No data was altered. Retried 4 times.").
Proof.
  destruct (request_retry_policy Samples.api0 Samples.payload_f
              Samples.eagain_bare Samples.eagain_busy Samples.eagain_array)
    as [Hok Hfail].
  - reflexivity.
  - exists (VNum (-3)). repeat split.
  - exists (VNum (-3)). repeat split.
  - exists (VArr [VNum (-3)]). repeat split.
  - split.
    + apply Hok. exists (VArr [Samples.listing_resp]). repeat split.
    + apply Hfail.
      * exists (VNum (-3)). repeat split.
      * exists (VNum (-3)). repeat split.
Defined.

(** *** The request counter *)

Lemma own_set_prop o k k' v :
  own (set_prop o k' v) k = if (k =? k')%string then v else own o k.
Proof.
  induction o as [|[k0 v0] o IH]; simpl.
  - reflexivity.
  - destruct (String.eqb_spec k' k0) as [->|Hne]; simpl.
    + destruct (String.eqb_spec k k0); reflexivity.
    + destruct (String.eqb_spec k k0) as [->|Hne'].
      * destruct (String.eqb_spec k0 k'); [congruence | reflexivity].
      * exact IH.
Qed.

Lemma own_fold_set_prop (src o : list (string * value)) k :
  existsb (fun kv => (fst kv =? k)%string) src = false ->
  own (fold_left (fun o kv => set_prop o (fst kv) (snd kv)) src o) k = own o k.
Proof.
  revert o. induction src as [|[k0 v0] src IH]; intros o Hsrc; simpl in *.
  - reflexivity.
  - apply orb_false_iff in Hsrc as [Hk Hsrc].
    rewrite IH by exact Hsrc. rewrite own_set_prop.
    rewrite String.eqb_sym, Hk. reflexivity.
Qed.








Lemma query_sid a x :
  sid a = Some x -> x <> "" -> own (query a).1 "sid" = VStr x.
Proof.
  intros Hs Hx. unfold query. simpl. rewrite Hs.
  destruct (String.eqb_spec x ""); [contradiction | reflexivity].
Qed.

(** One accepted call: the API goes on as [query] leaves it, and the
    query string sent is that of [query] wherever the payload brings
    no value of its own. *)
Lemma request_send_accepted a json :
  (closed a && negb (isLogout json))%bool = false ->
  exists s g qs body,
    request_send a json = inr s /\
    sent_api s = (query a).2 /\
    sent_fetch s = PostCs g qs body /\
    forall k, overrides k json = false -> own qs k = own (query a).1 k.
Proof.
  intros Hc. unfold request_send. rewrite Hc.
  destruct (query a) as [qs a1]. simpl.
  eexists _, _, _, _. split; [reflexivity|]. simpl.
  split; [reflexivity|]. split; [reflexivity|].
  intros k Hov. unfold overrides in Hov.
  destruct (typeof_object (own json "_querystring")); [|reflexivity].
  simpl in Hov. unfold assign. rewrite own_fold_set_prop; [reflexivity | exact Hov].
Qed.

Lemma request_send_refused a json :
  (closed a && negb (isLogout json))%bool = true ->
  request_send a json = inl (Error "API is closed").
Proof. intros Hc. unfold request_send. rewrite Hc. reflexivity. Qed.






(** *** Activation of the long poll *)

Lemma truthy_sn_truthy resp :
  truthy (get_or_undef resp "sn") = true -> truthy resp = true.
Proof. destruct resp; simpl; try discriminate; reflexivity. Qed.

(** C4 (as amended).  On an open instance with keepalive, a unary
    response that is not a negative number and has a truthy [sn]
    always calls [pull]: one more long-poll fetch is in flight than
    before, whether or not others already are, and [this.sn] now holds
    the controller of the new one. *)
Theorem unary_response_starts_poll w il k r resp :
  closed (api w) = false ->
  keepalive (api w) = true ->
  answers_with r resp ->
  truthy (get_or_undef resp "sn") = true ->
  let w' := (unary_settled w il k r).1 in
  legs w' = legs w ++ [LegPull (controllers (api w)) (get_or_undef resp "sn") 0]
  /\ sn (api w') = Some (controllers (api w))
  /\ active_polls w' = S (active_polls w).
Proof.
  intros Hc Hk (v & Hs & Ht & Hu & Hn) Hsn w'. subst w'.
  unfold unary_settled, request_settled, request_then.
  rewrite Hs, Hc, Ht. simpl. fold (unwrap v). rewrite Hu, Hn, Hk, Hsn.
  rewrite (truthy_sn_truthy _ Hsn). simpl.
  unfold active_polls. simpl. rewrite length_app. simpl.
  repeat split. lia.
Qed.

Lemma unary_response_starts_poll_witness :
  let w' := (unary_settled Samples.session0 false 0 Samples.answer_listing).1 in
  legs w' = [LegPull 0%nat (VStr "Zk3xQ9a1b2c") 0]
  /\ sn (api w') = Some 0%nat
  /\ active_polls w' = 1%nat.
Proof.
  apply (unary_response_starts_poll Samples.session0 false 0
           Samples.answer_listing Samples.listing_resp).
  - reflexivity.
  - reflexivity.
  - exists (VArr [Samples.listing_resp]). repeat split.
  - reflexivity.
Defined.

(** C4 (as stated) fails: after two unary responses with a sequence
    number, two long-poll fetches are in flight on the one instance;
    and when each of them is answered with a new sequence number,
    each starts its successor, so two loops go on side by side. *)
Lemma two_polls_active :
  let w1 := (unary_settled Samples.session0 false 0 Samples.answer_listing).1 in
  let w2 := (unary_settled w1 false 0 Samples.answer_listing).1 in
  let w3 := (leg_settled w2 0 Samples.answer_poll None).1 in
  let w4 := (leg_settled w3 0 Samples.answer_poll None).1 in
  active_polls w1 = 1%nat
  /\ active_polls w2 = 2%nat
  /\ legs w2 = [LegPull 0%nat (VStr "Zk3xQ9a1b2c") 0; LegPull 1%nat (VStr "Zk3xQ9a1b2c") 0]
  /\ ~ (active_polls w2 <= 1)%nat
  /\ legs w4 = [LegPull 2%nat (VStr "Zk3xQ9a1b2d") 0; LegPull 3%nat (VStr "Zk3xQ9a1b2d") 0].
Proof. vm_compute. repeat split. lia. Qed.

End APIFacts.

(** * Properties of the storage *)

Module StorageFacts.
Import MutableFile Storage.

(** *** Helpers: Object.keys, forEach, splice *)

Lemma array_index_render k n :
  array_index k = Some n -> NilZero.string_of_uint (N.to_uint n) = k.
Proof.
  unfold array_index. destruct (NilZero.uint_of_string k) as [u|]; [|discriminate].
  simpl. destruct (String.eqb_spec (NilZero.string_of_uint (N.to_uint (N.of_uint u))) k)
    as [E|]; [|discriminate].
  simpl. destruct (_ <? _)%N; [|discriminate].
  intros [= <-]. exact E.
Qed.

Lemma elem_of_keys x l : x ∈ keys l <-> x ∈ l.
Proof.
  unfold keys. rewrite elem_of_app, list_elem_of_fmap, list_elem_of_filter. split.
  - intros [(n & -> & Hn)|[_ Hx]]; [|exact Hx].
    rewrite merge_sort_Permutation in Hn.
    apply list_elem_of_omap in Hn as (k & Hk & Hkn).
    rewrite (array_index_render _ _ Hkn). exact Hk.
  - intros Hx. destruct (array_index x) as [n|] eqn:E.
    + left. exists n. split; [symmetry; apply array_index_render; exact E|].
      rewrite merge_sort_Permutation. apply list_elem_of_omap. eauto.
    + right. auto.
Qed.


Lemma keys_singleton n : keys [n] = [n].
Proof.
  unfold keys. simpl. destruct (array_index n) as [i|] eqn:E.
  - rewrite filter_cons_False by (simpl; congruence).
    rewrite filter_nil. vm_compute merge_sort. simpl.
    rewrite (array_index_render _ _ E). reflexivity.
  - rewrite filter_cons_True by (simpl; congruence).
    reflexivity.
Qed.

Lemma forEach_app {S A} (body : S -> A -> S * option error) l1 l2 s s' :
  forEach body (l1 ++ l2) s = (s', None) ->
  exists s1, forEach body l1 s = (s1, None) /\ forEach body l2 s1 = (s', None).
Proof.
  revert s. induction l1 as [|x l1 IH]; intros s H; simpl in *.
  - eauto.
  - destruct (body s x) as [s1 [e|]]; [discriminate|]. apply IH. exact H.
Qed.

(** An invariant of the loop body, kept whenever the body does not
    throw, holds after a loop that did not throw. *)
Lemma forEach_invariant {S A} (body : S -> A -> S * option error)
  (I : S -> Prop) (Q : A -> Prop) l s s' :
  (forall s x s', Q x -> I s -> body s x = (s', None) -> I s') ->
  Forall Q l -> I s -> forEach body l s = (s', None) -> I s'.
Proof.
  intros Hstep HQ. revert s. induction HQ as [|x l Hx HQ IH]; intros s Hs H; simpl in *.
  - congruence.
  - destruct (body s x) as [s1 [e|]] eqn:E; [discriminate|].
    apply (IH s1); [|exact H]. eapply Hstep; eauto.
Qed.

Lemma index_of_elem {A} `{EqDecision A} (x : A) l :
  x ∈ l -> exists i, index_of x l = Some i.
Proof.
  induction l as [|y l IH]; intros Hx.
  - inversion Hx.
  - simpl. destruct (decide (y = x)) as [->|Hne]; [eauto|].
    apply elem_of_cons in Hx as [->|Hx]; [congruence|].
    destruct (IH Hx) as (i & ->). simpl. eauto.
Qed.

Lemma delete_index_of_other {A} `{EqDecision A} (x y : A) l i :
  index_of x l = Some i -> y <> x -> y ∈ l -> y ∈ delete i l.
Proof.
  revert i. induction l as [|z l IH]; intros i Hi Hne Hy; simpl in *.
  - discriminate.
  - destruct (decide (z = x)) as [->|Hzx].
    + injection Hi as <-. simpl.
      apply elem_of_cons in Hy as [->|Hy]; [congruence | exact Hy].
    + destruct (index_of x l) as [j|] eqn:E; [|discriminate].
      injection Hi as <-. simpl.
      apply elem_of_cons in Hy as [->|Hy]; [left|right; eapply IH; eauto].
Qed.

Lemma index_of_length {A} `{EqDecision A} (x : A) l i :
  index_of x l = Some i -> (i < length l)%nat.
Proof.
  revert i. induction l as [|z l IH]; intros i Hi; simpl in *; [discriminate|].
  destruct (decide (z = x)); [injection Hi as <-; lia|].
  destruct (index_of x l) as [j|]; [|discriminate].
  injection Hi as <-. specialize (IH j eq_refl). lia.
Qed.

(** Splicing out an element that is in the array keeps all the
    others. *)
Lemma splice_indexOf_other {A} `{EqDecision A} (x y : A) l :
  x ∈ l -> y <> x -> y ∈ l -> y ∈ splice1 (indexOf x l) l.
Proof.
  intros Hx Hne Hy. destruct (index_of_elem x l Hx) as (i & Hi).
  unfold splice1, indexOf. rewrite Hi.
  pose proof (index_of_length x l i Hi).
  destruct (Z.ltb_spec (Z.of_nat i) 0); [lia|].
  rewrite Z.min_l by lia. rewrite Nat2Z.id.
  eapply delete_index_of_other; eauto.
Qed.

(** *** What _importFile does to the table *)

Lemma importFile_known s f x :
  files s !! h f = Some x -> _importFile s f = (s, h f).
Proof. intros H. unfold _importFile. rewrite H. reflexivity. Qed.

Lemma importFile_handle s f : (_importFile s f).2 = h f.
Proof. unfold _importFile. destruct (files s !! h f); reflexivity. Qed.

Lemma importFile_new s f :
  files s !! h f = None ->
  exists nf,
    nodeId nf = h f /\ parent nf = None /\ children nf = None /\
    files (_importFile s f).1 = imported (files s) f nf.
Proof.
  intros H. unfold _importFile. rewrite H.
  set (s0 := set_files (<[h f := new_MutableFile f]> (files s)) s).
  set (s1 := if t f =? NODE_TYPE_DRIVE then _ else s0).
  set (s2 := if t f =? NODE_TYPE_RUBBISH_BIN then _ else s1).
  set (s3 := if t f =? NODE_TYPE_INBOX then _ else s2).
  set (s4 := if 1 <? t f then _ else s3).
  assert (H0 : exists nf, nodeId nf = h f /\ parent nf = None /\ children nf = None
                          /\ files s0 = <[h f := nf]> (files s)).
  { exists (new_MutableFile f). repeat split. }
  assert (Hname : forall (s' : storage) n,
             (exists nf, nodeId nf = h f /\ parent nf = None /\ children nf = None
                         /\ files s' = <[h f := nf]> (files s)) ->
             exists nf, nodeId nf = h f /\ parent nf = None /\ children nf = None
                        /\ alter (set_name n) (h f) (files s') = <[h f := nf]> (files s)).
  { intros s' n (nf & Hid & Hp & Hc & Hf). exists (set_name n nf).
    repeat split; try assumption. rewrite Hf. apply alter_insert_eq. }
  assert (H1 : exists nf, nodeId nf = h f /\ parent nf = None /\ children nf = None
                          /\ files s1 = <[h f := nf]> (files s)).
  { subst s1. destruct (t f =? NODE_TYPE_DRIVE); [|exact H0].
    apply (Hname (set_root (Some (h f)) s0) "Cloud Drive"). exact H0. }
  assert (H2 : exists nf, nodeId nf = h f /\ parent nf = None /\ children nf = None
                          /\ files s2 = <[h f := nf]> (files s)).
  { subst s2. destruct (t f =? NODE_TYPE_RUBBISH_BIN); [|exact H1].
    apply (Hname (set_trash (Some (h f)) s1) "Rubbish Bin"). exact H1. }
  assert (H3 : exists nf, nodeId nf = h f /\ parent nf = None /\ children nf = None
                          /\ files s3 = <[h f := nf]> (files s)).
  { subst s3. destruct (t f =? NODE_TYPE_INBOX); [|exact H2].
    apply (Hname (set_inbox (Some (h f)) s2) "Inbox"). exact H2. }
  assert (H4 : exists nf, nodeId nf = h f /\ parent nf = None /\ children nf = None
                          /\ files s4 = <[h f := nf]> (files s)).
  { subst s4. destruct (1 <? t f); exact H3. }
  clearbody s4. clear s0 s1 s2 s3 H0 H1 H2 H3 Hname.
  destruct H4 as (nf & Hid & Hp & Hc & Hf). exists nf.
  repeat split; try assumption.
  unfold imported. simpl. destruct (p f) as [q|]; [|exact Hf].
  destruct (q =? "")%string; [exact Hf|].
  rewrite <- Hf. destruct (files s4 !! q); reflexivity.
Qed.

(** *** Keeping the graph linked *)

Lemma ids_alter m g i :
  (forall f, nodeId (g f) = nodeId f) -> ids_ok m -> ids_ok (alter g i m).
Proof.
  intros Hg Hm x f' Hf'. apply lookup_alter_Some in Hf' as [(-> & f & Hf & ->)|[_ Hf]].
  - rewrite Hg. eauto.
  - eauto.
Qed.

Lemma ids_insert m x nf :
  nodeId nf = x -> ids_ok m -> ids_ok (<[x := nf]> m).
Proof.
  intros Hn Hm y f Hf. rewrite lookup_insert in Hf.
  destruct (decide (x = y)) as [<-|]; [congruence | eauto].
Qed.

(** A mutation of one object that keeps its parent, and keeps [x]
    among its children if it was there, keeps [x] linked. *)
Lemma linked_at_alter_kids m g i x :
  (forall f, parent (g f) = parent f) ->
  (forall f cs, m !! i = Some f -> children f = Some cs -> x ∈ cs ->
     exists cs', children (g f) = Some cs' /\ x ∈ cs') ->
  linked_at m x -> linked_at (alter g i m) x.
Proof.
  intros Hp Hk Hl f' q Hf' Hpar.
  assert (exists f, m !! x = Some f /\ parent f = Some q) as (f & Hf & Hfq).
  { apply lookup_alter_Some in Hf' as [(-> & f & Hf & ->)|[_ Hf]]; eauto.
    rewrite Hp in Hpar. eauto. }
  destruct (Hl f q Hf Hfq) as (fq & cs & Hq & Hcs & Hx).
  rewrite lookup_alter. destruct (decide (i = q)) as [->|Hne].
  - rewrite Hq. simpl. destruct (Hk fq cs Hq Hcs Hx) as (cs' & Hcs' & Hx').
    eauto.
  - eauto.
Qed.

(** A mutation of another object that keeps its children keeps [x]
    linked. *)
Lemma linked_at_alter_other m g i x :
  i <> x ->
  (forall f, children (g f) = children f) ->
  linked_at m x -> linked_at (alter g i m) x.
Proof.
  intros Hne Hc Hl f q Hf Hpar. rewrite lookup_alter_ne in Hf by exact Hne.
  destruct (Hl f q Hf Hpar) as (fq & cs & Hq & Hcs & Hx).
  rewrite lookup_alter. destruct (decide (i = q)) as [->|_].
  - rewrite Hq. simpl. exists (g fq), cs. rewrite Hc. auto.
  - eauto.
Qed.

Lemma linked_at_insert_fresh m k nf x :
  m !! k = None -> x <> k -> linked_at m x -> linked_at (<[k := nf]> m) x.
Proof.
  intros Hk Hne Hl f q Hf Hpar. rewrite lookup_insert_ne in Hf by congruence.
  destruct (Hl f q Hf Hpar) as (fq & cs & Hq & Hcs & Hx).
  exists fq, cs. rewrite lookup_insert_ne by congruence. auto.
Qed.

Lemma linked_at_insert_new m k nf :
  parent nf = None -> linked_at (<[k := nf]> m) k.
Proof.
  intros Hp f q Hf Hpar. rewrite lookup_insert_eq in Hf. congruence.
Qed.

(** Once [x] has parent [q] and [x] is pushed onto [q]'s children,
    [x] is linked. *)
Lemma linked_at_pushed m x q :
  is_Some (m !! q) ->
  (forall f, m !! x = Some f -> parent f = Some q) ->
  linked_at (alter (push_child x) q m) x.
Proof.
  intros [fq Hq] Hx f q' Hf Hpar.
  assert (q' = q) as ->.
  { apply lookup_alter_Some in Hf as [(-> & f0 & Hf0 & ->)|[_ Hf]].
    - simpl in Hpar. specialize (Hx _ Hf0). congruence.
    - specialize (Hx _ Hf). congruence. }
  rewrite lookup_alter_eq, Hq. simpl. eexists _, _. split; [reflexivity|].
  split; [reflexivity|]. apply elem_of_app. right. constructor.
Qed.

Lemma push_child_keeps x f cs y :
  children f = Some cs -> y ∈ cs ->
  exists cs', children (push_child x f) = Some cs' /\ y ∈ cs'.
Proof.
  intros Hc Hy. unfold push_child. simpl. rewrite Hc. simpl.
  eexists. split; [reflexivity|]. apply elem_of_app. auto.
Qed.

Lemma imported_ids m f nf :
  nodeId nf = h f -> ids_ok m -> ids_ok (imported m f nf).
Proof.
  intros Hid Hids.
  assert (H1 : ids_ok (<[h f := nf]> m)) by (apply ids_insert; assumption).
  unfold imported. destruct (p f) as [q|]; [|exact H1].
  destruct (q =? "")%string; [exact H1|].
  destruct (<[h f := nf]> m !! q); [|exact H1].
  apply ids_alter; [reflexivity|]. apply ids_alter; [reflexivity|]. exact H1.
Qed.

(** The import of a record keeps a linked object linked, and the new
    object is linked. *)
Lemma imported_linked_at m f nf z :
  m !! h f = None -> parent nf = None ->
  linked_at m z -> linked_at (imported m f nf) z.
Proof.
  intros Hnew Hp Hl.
  assert (H1 : linked_at (<[h f := nf]> m) z).
  { destruct (decide (z = h f)) as [->|Hne].
    - apply linked_at_insert_new. exact Hp.
    - apply linked_at_insert_fresh; auto. }
  unfold imported. destruct (p f) as [q|]; [|exact H1].
  destruct (q =? "")%string; [exact H1|].
  destruct (<[h f := nf]> m !! q) as [fq|] eqn:Hq; [|exact H1].
  destruct (decide (z = h f)) as [->|Hne].
  - intros f' q' Hf' Hpar.
    apply lookup_alter_Some in Hf' as [(_ & f0 & Hf0 & ->)|[Hc _]]; [|congruence].
    simpl in Hpar. injection Hpar as <-.
    rewrite lookup_alter, lookup_alter_eq, Hq.
    destruct (decide (h f = q)) as [E|_].
    + rewrite lookup_alter, Hq. rewrite decide_True by (symmetry; exact E).
      simpl. eexists _, _. split; [reflexivity|]. split; [reflexivity|].
      apply elem_of_app. right. constructor.
    + simpl. eexists _, _. split; [reflexivity|]. split; [reflexivity|].
      apply elem_of_app. right. constructor.
  - apply linked_at_alter_other; [congruence | reflexivity |].
    apply linked_at_alter_kids; [reflexivity | |exact H1].
    intros f0 cs _ Hcs Hx. eapply push_child_keeps; eauto.
Qed.

Lemma imported_linked m f nf :
  m !! h f = None -> nodeId nf = h f -> parent nf = None ->
  linked_graph m -> linked_graph (imported m f nf).
Proof.
  intros Hnew Hid Hp [Hids Hl]. split.
  - apply imported_ids; assumption.
  - intros z. apply imported_linked_at; auto.
Qed.

(** *** The steps of the change-batch handler *)

(** What a record of a ['t'] action does when it does not throw: it
    adds a new object, or finds the object under the parent named, or
    moves it. *)
Lemma move_or_add_cases y f y' :
  move_or_add y f = (y', None) ->
  (files (st y) !! h f = None /\
   (exists nf, nodeId nf = h f /\ parent nf = None /\ children nf = None /\
               files (st y') = imported (files (st y)) f nf) /\
   deleted y' = deleted y /\
   emitted y' = emitted y ++ [Add (h f)])
  \/
  (exists file op fop,
     files (st y) !! h f = Some file /\ parent file = Some op /\
     files (st y) !! op = Some fop /\ Some (nodeId fop) = p f /\
     st y' = st y /\
     deleted y' = filter (fun m => m <> h f) (deleted y) /\
     emitted y' = emitted y)
  \/
  (exists file op fop cs,
     files (st y) !! h f = Some file /\ parent file = Some op /\
     files (st y) !! op = Some fop /\ children fop = Some cs /\
     is_Some (files (st y) !! default "undefined" (p f)) /\
     files (st y') = moved (files (st y)) (h f) op cs (default "undefined" (p f)) /\
     deleted y' = filter (fun m => m <> h f) (deleted y) /\
     emitted y' = emitted y ++ [FileMove (h f) op; Move (h f) op]).
Proof.
  unfold move_or_add. destruct (files (st y) !! h f) as [file|] eqn:Hfile.
  - destruct (parent file) as [op|] eqn:Hop; [|discriminate].
    simpl.
    destruct (files (st y) !! op) as [fop|] eqn:Hfop; [|discriminate].
    destruct (decide (Some (nodeId fop) = p f)) as [E|_].
    + intros [= <-]. right. left. exists file, op, fop. repeat split; auto.
    + destruct (children fop) as [cs|] eqn:Hcs; [|discriminate].
      simpl.
      destruct (alter _ op (files (st y)) !! default "undefined" (p f))
        as [fq|] eqn:Hq; [|discriminate].
      intros [= <-]. right. right. exists file, op, fop, cs.
      repeat split; auto.
      * eapply lookup_alter_is_Some. rewrite Hq. eauto.
      * simpl. rewrite <- app_assoc. reflexivity.
  - destruct (_importFile (st y) f) as [s' x] eqn:Himp.
    intros [= <-]. left. split; [reflexivity|].
    destruct (importFile_new (st y) f Hfile) as (nf & H1 & H2 & H3 & H4).
    rewrite Himp in H4. simpl in H4.
    pose proof (importFile_handle (st y) f) as Hx. rewrite Himp in Hx. simpl in Hx.
    subst x. split; [eauto|]. split; reflexivity.
Qed.

Lemma finalize_cases y n y' :
  finalize y n = (y', None) ->
  exists file q par cs,
    files (st y) !! n = Some file /\ parent file = Some q /\
    files (st y) !! q = Some par /\ children par = Some cs /\
    files (st y') = detached (files (st y)) n q cs /\
    deleted y' = deleted y /\
    emitted y' = emitted y ++ [Delete n; FileDelete n].
Proof.
  unfold finalize. destruct (files (st y) !! n) as [file|] eqn:Hfile; [|discriminate].
  destruct (parent file) as [q|] eqn:Hq; [|discriminate].
  destruct (files (st y) !! q) as [par|] eqn:Hpar; [|discriminate].
  destruct (children par) as [cs|] eqn:Hcs; [|discriminate].
  intros [= <-]. exists file, q, par, cs. simpl.
  rewrite <- app_assoc. repeat split; auto.
Qed.

(** *** Invariants of the scan *)

Lemma par_of_alter_pres m g i x :
  (forall f, parent (g f) = parent f) -> par_of (alter g i m) x = par_of m x.
Proof.
  intros Hg. unfold par_of. rewrite lookup_alter.
  destruct (decide (i = x)) as [->|]; [|reflexivity].
  destruct (m !! x); simpl; [rewrite Hg|]; reflexivity.
Qed.

Lemma par_of_alter_ne m g i x :
  i <> x -> par_of (alter g i m) x = par_of m x.
Proof. intros Hne. unfold par_of. rewrite lookup_alter_ne by exact Hne. reflexivity. Qed.

Lemma par_of_imported_other m f nf x :
  x <> h f -> par_of (imported m f nf) x = par_of m x.
Proof.
  intros Hne.
  assert (H1 : par_of (<[h f := nf]> m) x = par_of m x).
  { unfold par_of. rewrite lookup_insert_ne by congruence. reflexivity. }
  unfold imported. destruct (p f) as [q|]; [|exact H1].
  destruct (q =? "")%string; [exact H1|].
  destruct (<[h f := nf]> m !! q); [|exact H1].
  rewrite par_of_alter_ne by congruence.
  rewrite par_of_alter_pres by reflexivity. exact H1.
Qed.

Lemma imported_is_Some m f nf x :
  is_Some (m !! x) -> is_Some (imported m f nf !! x).
Proof.
  intros Hx.
  assert (H1 : is_Some (<[h f := nf]> m !! x)).
  { rewrite lookup_insert. destruct (decide (h f = x)); eauto. }
  unfold imported. destruct (p f) as [q|]; [|exact H1].
  destruct (q =? "")%string; [exact H1|].
  destruct (<[h f := nf]> m !! q); [|exact H1].
  apply lookup_alter_is_Some, lookup_alter_is_Some. exact H1.
Qed.




Lemma moved_ids m x op cs q : ids_ok m -> ids_ok (moved m x op cs q).
Proof.
  intros Hids. unfold moved. repeat (apply ids_alter; [reflexivity|]). exact Hids.
Qed.

(** A move of a linked object keeps a linked object linked. *)
Lemma moved_linked_at m x file op fop cs q z :
  m !! x = Some file -> parent file = Some op ->
  m !! op = Some fop -> children fop = Some cs ->
  is_Some (m !! q) ->
  linked_at m x ->
  linked_at m z -> linked_at (moved m x op cs q) z.
Proof.
  intros Hx Hop Hfop Hcs Hq Hlx Hlz.
  assert (Hin : x ∈ cs).
  { destruct (Hlx file op Hx Hop) as (fq & cs' & Hfq & Hcs' & Hin). congruence. }
  unfold moved. destruct (decide (z = x)) as [->|Hne].
  - apply linked_at_pushed.
    + apply lookup_alter_is_Some, lookup_alter_is_Some. exact Hq.
    + intros f Hf. apply lookup_alter_Some in Hf as [(_ & f0 & _ & ->)|[Hc _]];
        [reflexivity | congruence].
  - apply linked_at_alter_kids; [reflexivity | |].
    { intros f0 cs0 _ Hcs0 Hz. eapply push_child_keeps; eauto. }
    apply linked_at_alter_other; [congruence | reflexivity |].
    apply linked_at_alter_kids; [reflexivity | | exact Hlz].
    intros f0 cs0 Hf0 Hcs0 Hz. simpl. eexists. split; [reflexivity|].
    assert (cs0 = cs) as -> by congruence.
    apply splice_indexOf_other; assumption.
Qed.

(** An event is not in a short explicit list of other events. *)
Ltac not_among :=
  let H := fresh "H" in
  intros H;
  repeat (apply elem_of_cons in H as [H|H]; [discriminate H || congruence|]);
  inversion H.










(** *** Invariant of the finalization *)



(** *** The load keeps the graph linked *)

Lemma linked_graph_empty : linked_graph (∅ : gmap string file).
Proof.
  split.
  - intros x f H. rewrite lookup_empty in H. discriminate.
  - intros x f q H. rewrite lookup_empty in H. discriminate.
Qed.

Lemma altered_linked m n g :
  (forall f, nodeId (g f) = nodeId f /\ parent (g f) = parent f
             /\ children (g f) = children f) ->
  linked_graph m -> linked_graph (alter g n m).
Proof.
  intros Hg [Hids Hl]. split.
  - apply ids_alter; [apply Hg | exact Hids].
  - intros z. apply linked_at_alter_kids; [apply Hg | | apply Hl].
    intros f cs _ Hcs Hz. exists cs. destruct (Hg f) as (_ & _ & ->). auto.
Qed.

Lemma importFile_linked s f :
  linked_graph (files s) -> linked_graph (files (_importFile s f).1).
Proof.
  intros Hg. destruct (files s !! h f) as [x|] eqn:E.
  - rewrite (importFile_known s f x E). exact Hg.
  - destruct (importFile_new s f E) as (nf & Hid & Hp & _ & ->).
    apply imported_linked; assumption.
Qed.

Lemma load_node_linked ph s f :
  linked_graph (files s) -> linked_graph (files (load_node ph s f)).
Proof.
  intros Hg. unfold load_node.
  pose proof (importFile_linked s f Hg) as H1.
  destruct (_importFile s f) as [s1 x]. simpl in H1.
  destruct ph as [ph|]; [|exact H1].
  destruct (files s1 !! x) as [file|]; [|exact H1].
  simpl. apply altered_linked; [|exact H1]. intros f0. repeat split.
Qed.

Lemma reload_response_linked s l :
  linked_graph (files s) ->
  linked_graph (files (reload_response s None l).1).
Proof.
  intros Hg. unfold reload_response. simpl.
  revert s Hg. induction (lst_f l) as [|f fs IH]; intros s Hg; simpl.
  - exact Hg.
  - apply IH. apply load_node_linked. exact Hg.
Qed.

(** *** A child that is imported before its parent *)

Lemma kids_of_alter_pres m g i x :
  (forall f, children (g f) = children f) -> kids_of (alter g i m) x = kids_of m x.
Proof.
  intros Hg. unfold kids_of. rewrite lookup_alter.
  destruct (decide (i = x)) as [->|]; [|reflexivity].
  destruct (m !! x); simpl; [rewrite Hg|]; reflexivity.
Qed.

(** A child listed after the import of a record is the new object or
    was listed before. *)
Lemma imported_kids m f nf x cs' c :
  children nf = None ->
  kids_of (imported m f nf) x = Some (Some cs') -> c ∈ cs' ->
  c = h f \/ exists cs, kids_of m x = Some (Some cs) /\ c ∈ cs.
Proof.
  intros Hnf Hk Hc.
  assert (H1 : kids_of (<[h f := nf]> m) x = Some (Some cs') ->
               exists cs, kids_of m x = Some (Some cs) /\ c ∈ cs).
  { unfold kids_of. rewrite lookup_insert.
    destruct (decide (h f = x)); simpl; [congruence | eauto]. }
  unfold imported in Hk. destruct (p f) as [q|]; [|auto].
  destruct (q =? "")%string; [auto|].
  destruct (<[h f := nf]> m !! q) as [fq|] eqn:Hq; [|auto].
  rewrite kids_of_alter_pres in Hk by reflexivity.
  unfold kids_of in Hk. rewrite lookup_alter in Hk.
  destruct (decide (q = x)) as [->|Hne].
  - rewrite Hq in Hk. simpl in Hk. injection Hk as <-.
    apply elem_of_app in Hc as [Hc|Hc%list_elem_of_singleton]; [|auto].
    right. rewrite lookup_insert in Hq. destruct (decide (h f = x)) as [E|].
    + injection Hq as <-. rewrite Hnf in Hc. inversion Hc.
    + unfold kids_of. rewrite Hq. simpl.
      destruct (children fq) as [cs|]; [eauto | inversion Hc].
  - right. apply H1. exact Hk.
Qed.

Lemma imported_lookup_new m f nf : is_Some (imported m f nf !! h f).
Proof.
  assert (H1 : is_Some (<[h f := nf]> m !! h f)) by (rewrite lookup_insert_eq; eauto).
  unfold imported. destruct (p f) as [q|]; [|exact H1].
  destruct (q =? "")%string; [exact H1|].
  destruct (<[h f := nf]> m !! q); [|exact H1].
  apply lookup_alter_is_Some, lookup_alter_is_Some. exact H1.
Qed.

Lemma imported_lookup_None m f nf x :
  m !! x = None -> x <> h f -> imported m f nf !! x = None.
Proof.
  intros Hx Hne.
  assert (H1 : <[h f := nf]> m !! x = None) by (rewrite lookup_insert_ne; auto).
  unfold imported. destruct (p f) as [q|]; [|exact H1].
  destruct (q =? "")%string; [exact H1|].
  destruct (<[h f := nf]> m !! q); [|exact H1].
  rewrite !lookup_alter_ne by congruence. rewrite lookup_alter.
  destruct (decide (q = x)) as [->|]; [rewrite H1; reflexivity | exact H1].
Qed.

(** What the load of one record does to the table: nothing to the
    links of a known handle, the import of a new one; the share fields
    it sets do not matter to the links. *)
Lemma load_node_files ph s f :
  exists m',
    (m' = files s /\ is_Some (files s !! h f)
     \/ files s !! h f = None /\
        exists nf, nodeId nf = h f /\ parent nf = None /\ children nf = None
                   /\ m' = imported (files s) f nf)
    /\ (forall x, par_of (files (load_node ph s f)) x = par_of m' x)
    /\ (forall x, kids_of (files (load_node ph s f)) x = kids_of m' x)
    /\ (forall x, is_Some (files (load_node ph s f) !! x) <-> is_Some (m' !! x)).
Proof.
  exists (files (_importFile s f).1). split.
  - destruct (files s !! h f) as [x|] eqn:E.
    + left. rewrite (importFile_known s f x E). eauto.
    + right. split; [reflexivity|]. apply importFile_new. exact E.
  - unfold load_node. destruct (_importFile s f) as [s1 x]. simpl.
    destruct ph as [ph|]; [|tauto].
    destruct (files s1 !! x) as [file|]; [|tauto].
    simpl. split; [|split]; intros z.
    + apply par_of_alter_pres. reflexivity.
    + apply kids_of_alter_pres. reflexivity.
    + apply lookup_alter_is_Some.
Qed.

Lemma load_node_known ph s f :
  children_known (files s) -> children_known (files (load_node ph s f)).
Proof.
  intros Hk. destruct (load_node_files ph s f) as (m' & Hm' & _ & Hkids & Hsome).
  intros x cs c Hx Hc. rewrite Hkids in Hx. apply Hsome.
  destruct Hm' as [[-> _]|(Hnew & nf & _ & _ & Hnf & ->)].
  - eapply Hk; eauto.
  - destruct (imported_kids _ _ _ _ _ _ Hnf Hx Hc) as [->|(cs0 & Hx0 & Hc0)].
    + apply imported_lookup_new.
    + apply imported_is_Some. eapply Hk; eauto.
Qed.

Lemma load_node_absent ph s f x :
  files s !! x = None -> x <> h f -> files (load_node ph s f) !! x = None.
Proof.
  intros Hx Hne. destruct (load_node_files ph s f) as (m' & Hm' & _ & _ & Hsome).
  apply eq_None_not_Some. rewrite Hsome.
  destruct Hm' as [[-> _]|(_ & nf & _ & _ & _ & ->)].
  - rewrite Hx. apply is_Some_None.
  - rewrite imported_lookup_None by assumption. apply is_Some_None.
Qed.

Lemma load_node_present ph s f x :
  is_Some (files s !! x) \/ x = h f -> is_Some (files (load_node ph s f) !! x).
Proof.
  intros Hx. destruct (load_node_files ph s f) as (m' & Hm' & _ & _ & Hsome).
  apply Hsome. destruct Hm' as [[-> Hf]|(_ & nf & _ & _ & _ & ->)].
  - destruct Hx as [Hx| ->]; assumption.
  - destruct Hx as [Hx| ->]; [apply imported_is_Some; exact Hx|].
    apply imported_lookup_new.
Qed.

(** Once a child is in the table unlinked, no later record links
    it. *)
Lemma load_node_unlinked ph s f c :
  unlinked (files s) c -> unlinked (files (load_node ph s f)) c.
Proof.
  intros [Hpar Hkids].
  destruct (load_node_files ph s f) as (m' & Hm' & Hp' & Hk' & _).
  split.
  - rewrite Hp'. destruct Hm' as [[-> _]|(Hnew & nf & _ & _ & _ & ->)]; [exact Hpar|].
    rewrite par_of_imported_other; [exact Hpar|].
    intros ->. unfold par_of in Hpar. rewrite Hnew in Hpar. discriminate.
  - intros x cs Hx Hc. rewrite Hk' in Hx.
    destruct Hm' as [[-> _]|(Hnew & nf & _ & _ & Hnf & ->)].
    + eapply Hkids; eauto.
    + destruct (imported_kids _ _ _ _ _ _ Hnf Hx Hc) as [->|(cs0 & Hx0 & Hc0)].
      * unfold par_of in Hpar. rewrite Hnew in Hpar. discriminate.
      * eapply Hkids; eauto.
Qed.

(** The import of a record whose parent is not in the table leaves
    the new object unlinked. *)
Lemma load_node_orphan ph s c q :
  children_known (files s) ->
  files s !! h c = None -> files s !! q = None ->
  p c = Some q -> q <> h c ->
  unlinked (files (load_node ph s c)) (h c).
Proof.
  intros Hk Hc Hq Hp Hne.
  destruct (load_node_files ph s c) as (m' & Hm' & Hp' & Hk' & _).
  destruct Hm' as [[_ [? Hsome]]|(_ & nf & _ & Hpnf & Hcnf & ->)]; [congruence|].
  assert (E : imported (files s) c nf = <[h c := nf]> (files s)).
  { unfold imported. rewrite Hp. destruct (q =? "")%string; [reflexivity|].
    rewrite lookup_insert_ne by congruence. rewrite Hq. reflexivity. }
  rewrite E in Hp', Hk'. split.
  - rewrite Hp'. unfold par_of. rewrite lookup_insert_eq. simpl. congruence.
  - intros x cs Hx Hin. rewrite Hk' in Hx. unfold kids_of in Hx.
    rewrite lookup_insert in Hx. destruct (decide (h c = x)) as [<-|_].
    + simpl in Hx. congruence.
    + destruct (Hk x cs (h c) Hx Hin) as [? ?]. congruence.
Qed.

Lemma fold_load_invariant (I : storage -> Prop) ph l s :
  (forall s f, I s -> I (load_node ph s f)) ->
  I s -> I (fold_left (load_node ph) l s).
Proof.
  intros Hstep. revert s. induction l as [|f l IH]; intros s Hs; simpl; auto.
Qed.

(** C2 (as amended).  The load starts from a table that has neither
    the child nor the parent and in which every listed child is an
    object of the table.  If the child's record comes before every
    record of the parent's handle, then after the load, even though
    the parent's record was imported later in the same load, the child
    is in the table without a parent and the parent's children do not
    contain it (nor do the children of any other object). *)
Theorem child_before_parent s ph pre c mid par post q :
  children_known (files s) ->
  files s !! h c = None ->
  files s !! q = None ->
  Forall (fun r => h r <> h c /\ h r <> q) pre ->
  p c = Some q -> q <> h c ->
  h par = q ->
  let s' := (reload_response s None
               (mkListing (pre ++ c :: mid ++ par :: post) ph)).1 in
  exists fc fq,
    files s' !! h c = Some fc /\ parent fc = None /\
    files s' !! q = Some fq /\
    (forall cs, children fq = Some cs -> h c ∉ cs) /\
    unlinked (files s') (h c).
Proof.
  intros Hk Hc Hq Hpre Hp Hne Hpar s'. subst s'.
  unfold reload_response. simpl.
  rewrite fold_left_app. simpl.
  set (s1 := fold_left (load_node ph) pre s).
  assert (H1 : children_known (files s1) /\ files s1 !! h c = None
               /\ files s1 !! q = None).
  { subst s1. clear Hp Hne. revert s Hk Hc Hq.
    induction Hpre as [|r pre [Hr1 Hr2] _ IH]; intros s Hk Hc Hq; simpl; [auto|].
    apply IH.
    - apply load_node_known. exact Hk.
    - apply load_node_absent; auto.
    - apply load_node_absent; auto. }
  destruct H1 as (Hk1 & Hc1 & Hq1).
  pose proof (load_node_orphan ph s1 c q Hk1 Hc1 Hq1 Hp Hne) as Hu.
  set (s2 := load_node ph s1 c) in *.
  rewrite fold_left_app. simpl.
  set (s3 := fold_left (load_node ph) mid s2).
  assert (Hu3 : unlinked (files s3) (h c)).
  { subst s3. apply (fold_load_invariant (fun s => unlinked (files s) (h c))); auto.
    intros s0 f. apply load_node_unlinked. }
  set (s4 := load_node ph s3 par).
  assert (Hq4 : is_Some (files s4 !! q)).
  { subst s4. apply load_node_present. right. symmetry. exact Hpar. }
  set (s5 := fold_left (load_node ph) post s4).
  assert (Hu5 : unlinked (files s5) (h c)).
  { subst s5. apply (fold_load_invariant (fun s => unlinked (files s) (h c))).
    - intros s0 f. apply load_node_unlinked.
    - subst s4. apply load_node_unlinked. exact Hu3. }
  assert (Hq5 : is_Some (files s5 !! q)).
  { subst s5. apply (fold_load_invariant (fun s => is_Some (files s !! q))); auto.
    intros s0 f H. apply load_node_present. auto. }
  destruct Hq5 as [fq Hfq]. pose proof Hu5 as [Hpar5 Hkids5].
  unfold par_of in Hpar5. destruct (files s5 !! h c) as [fc|] eqn:Hfc; [|discriminate].
  simpl in Hpar5. injection Hpar5 as Hpar5.
  exists fc, fq. repeat split; auto.
  - intros cs Hcs. apply (Hkids5 q cs). unfold kids_of. rewrite Hfq. simpl. congruence.
  - unfold par_of. rewrite Hfc. simpl. congruence.
Qed.

Lemma children_known_empty : children_known (∅ : gmap string file).
Proof.
  intros x cs c H. unfold kids_of in H. rewrite lookup_empty in H. discriminate.
Qed.

Lemma child_before_parent_witness :
  let s' := (reload_response Samples.empty_storage None Samples.orphan_listing).1 in
  exists fc fq,
    files s' !! "child" = Some fc /\ parent fc = None /\
    files s' !! "late" = Some fq /\
    (forall cs, children fq = Some cs -> "child" ∉ cs) /\
    unlinked (files s') "child".
Proof.
  apply (child_before_parent Samples.empty_storage None
           [Samples.record "root" None 2]
           (Samples.record "child" (Some "late") 0)
           [Samples.record "other" (Some "root") 0]
           (Samples.record "late" (Some "root") 1)
           [Samples.record "sibling" (Some "late") 0]
           "late").
  - apply children_known_empty.
  - reflexivity.
  - reflexivity.
  - repeat constructor; discriminate.
  - reflexivity.
  - discriminate.
  - reflexivity.
Defined.

(** C2 (as stated) fails: after a load in which "child" comes before
    its parent "late", the children of "late" are only the records
    that came after it. *)
Lemma orphan_not_linked :
  let s' := (reload_response Samples.empty_storage None Samples.orphan_listing).1 in
  kids_of (files s') "late" = Some (Some ["sibling"])
  /\ par_of (files s') "child" = Some None
  /\ ~ child_of (files s') "child" "late".
Proof.
  split; [vm_compute; reflexivity|]. split; [vm_compute; reflexivity|].
  intros (f & fq & cs & Hf & Hp & _).
  vm_compute in Hf. injection Hf as <-. discriminate Hp.
Qed.

(** *** Delete and move of one handle in one batch *)





(** *** Actions on handles the graph does not have *)

Lemma moved_lookup_None m x op cs q z :
  m !! z = None -> moved m x op cs q !! z = None.
Proof.
  intros Hz. unfold moved. apply eq_None_not_Some.
  rewrite !lookup_alter_is_Some. rewrite Hz. apply is_Some_None.
Qed.

(** A record for another handle leaves an unknown handle unknown,
    and marked deleted if it was. *)
Lemma move_or_add_unknown n y f y' :
  h f <> n ->
  files (st y) !! n = None ->
  move_or_add y f = (y', None) ->
  files (st y') !! n = None /\ (n ∈ deleted y -> n ∈ deleted y').
Proof.
  intros Hne Hn Hrun.
  destruct (move_or_add_cases y f y' Hrun)
    as [(_ & (nf & _ & _ & _ & Hfiles) & Hd & _)
       |[(file & op & fop & _ & _ & _ & _ & Hst & Hd & _)
        |(file & op & fop & cs & _ & _ & _ & _ & _ & Hfiles & Hd & _)]].
  - rewrite Hfiles, Hd. split; [|auto].
    apply imported_lookup_None; congruence.
  - rewrite Hst, Hd. split; [exact Hn|].
    intros Hin. apply list_elem_of_filter. split; [congruence | exact Hin].
  - rewrite Hfiles, Hd. split; [apply moved_lookup_None; exact Hn|].
    intros Hin. apply list_elem_of_filter. split; [congruence | exact Hin].
Qed.

Lemma apply_action_unknown n y o y' :
  ~ brings n o ->
  files (st y) !! n = None ->
  apply_action y o = (y', None) ->
  files (st y') !! n = None /\ (n ∈ deleted y -> n ∈ deleted y').
Proof.
  intros Hno Hn Hrun. destruct o as [x ts at_|x|recs|code]; simpl in Hrun, Hno.
  - destruct (files (st y) !! x) as [file|] eqn:Hx; injection Hrun as <-; simpl.
    + split; [|auto]. apply eq_None_not_Some.
      rewrite !lookup_alter_is_Some. rewrite Hn. apply is_Some_None.
    + auto.
  - injection Hrun as <-. simpl. split; [exact Hn|].
    intros Hin. destruct (decide (x ∈ deleted y)); [exact Hin|].
    apply elem_of_app. auto.
  - assert (Hrecs : Forall (fun r => h r <> n) recs).
    { apply Forall_forall. intros r Hr Hh. apply Hno. apply Exists_exists. eauto. }
    clear Hno. revert y Hn Hrun.
    induction Hrecs as [|r recs Hr _ IH]; intros y Hn Hrun; simpl in Hrun.
    + injection Hrun as <-. auto.
    + destruct (move_or_add y r) as [y1 [e|]] eqn:E; [discriminate|].
      destruct (move_or_add_unknown n y r y1 Hr Hn E) as [Hn1 Hd1].
      destruct (IH y1 Hn1 Hrun) as [Hn' Hd']. auto.
  - injection Hrun as <-. auto.
Qed.

Lemma finalize_unknown_throws n l y :
  n ∈ l -> files (st y) !! n = None ->
  exists y' e, forEach finalize l y = (y', Some e).
Proof.
  revert y. induction l as [|z l IH]; intros y Hin Hn; [inversion Hin|].
  simpl. destruct (finalize y z) as [y1 [e|]] eqn:E; [eauto|].
  destruct (finalize_cases y z y1 E)
    as (file & q & par & cs & Hf & _ & _ & _ & Hfiles & _).
  apply elem_of_cons in Hin as [->|Hin]; [congruence|].
  apply IH; [exact Hin|]. rewrite Hfiles. unfold detached.
  apply eq_None_not_Some. rewrite lookup_alter_is_Some, Hn. apply is_Some_None.
Qed.

(** C5.  On a storage that has no object under [n]: an update of
    [n] does nothing at all, and a batch made of it changes nothing,
    emits nothing and throws nothing.  A delete of [n] is different.
    A batch made of it changes and emits nothing either, but ends in
    a TypeError, because the finalization reads [file.parent] of the
    missing object; and every batch that contains a delete of [n] and
    no record for [n] ends in an exception. *)
Theorem unknown_handle_actions s n :
  files s !! n = None ->
  (forall y ts at_,
     files (st y) !! n = None -> apply_action y (ActU n ts at_) = (y, None))
  /\ (forall ts at_, sc_handler s [ActU n ts at_] = (s, [], None))
  /\ sc_handler s [ActD n] = (s, [], Some (undefined_read "parent"))
  /\ (forall arr,
        ActD n ∈ arr -> Forall (fun o => ~ brings n o) arr ->
        exists s' evs e, sc_handler s arr = (s', evs, Some e)).
Proof.
  intros Hn. split; [|split; [|split]].
  - intros y ts at_ Hy. simpl. rewrite Hy. reflexivity.
  - intros ts at_. unfold sc_handler. simpl. rewrite Hn. reflexivity.
  - unfold sc_handler. simpl. rewrite keys_singleton. simpl.
    unfold finalize, mark. simpl. rewrite Hn. reflexivity.
  - intros arr Hin Hno. unfold sc_handler.
    destruct (forEach apply_action arr _) as [y1 [e|]] eqn:Hscan; [eauto|].
    apply list_elem_of_split in Hin as (pre & post & ->).
    apply Forall_app in Hno as [Hpre Hpost].
    apply Forall_cons in Hpost as [_ Hpost].
    apply forEach_app in Hscan as (ya & Hscan1 & Hscan2).
    assert (Ha : files (st ya) !! n = None).
    { apply (forEach_invariant apply_action (fun y => files (st y) !! n = None)
               (fun o => ~ brings n o) pre (mkSync s [] []) ya);
        [ | exact Hpre | exact Hn | exact Hscan1].
      intros y o y' Ho Hy Hrun. eapply apply_action_unknown; eauto. }
    simpl in Hscan2.
    assert (H1 : files (st y1) !! n = None /\ n ∈ deleted y1).
    { apply (forEach_invariant apply_action
               (fun y => files (st y) !! n = None /\ n ∈ deleted y)
               (fun o => ~ brings n o) post (mark n ya) y1);
        [ | exact Hpost | | exact Hscan2].
      - intros y o y' Ho [Hy Hd] Hrun.
        destruct (apply_action_unknown n y o y' Ho Hy Hrun). auto.
      - split; [exact Ha|]. simpl.
        destruct (decide (n ∈ deleted ya)); [assumption|].
        apply elem_of_app. right. constructor. }
    destruct H1 as [Hn1 Hd1].
    destruct (finalize_unknown_throws n (keys (deleted y1)) y1) as (y2 & e & ->);
      [apply elem_of_keys; exact Hd1 | exact Hn1 | eauto].
Qed.

Lemma unknown_handle_actions_witness :
  sc_handler Samples.drive [ActU "gone" (VNum 1700000001) (VStr "YQ")]
    = (Samples.drive, [], None)
  /\ sc_handler Samples.drive [ActD "gone"]
    = (Samples.drive, [], Some (undefined_read "parent"))
  /\ exists s' evs e,
       sc_handler Samples.drive Samples.batch_unknown_delete = (s', evs, Some e).
Proof.
  destruct (unknown_handle_actions Samples.drive "gone") as (_ & Hu & Hd & Hb).
  - reflexivity.
  - split; [apply Hu|]. split; [exact Hd|].
    apply Hb.
    + apply elem_of_cons. right. apply elem_of_cons. left. reflexivity.
    + repeat constructor; simpl; try tauto.
      intros H. apply Exists_cons in H as [H|H]; [discriminate|inversion H].
Defined.

(** *** Account information *)

(** C7.  When the quota request succeeds with a response object,
    getAccountInfo calls back once, without an error, with an account
    whose [downloadBandwidthTotal] is 10 * 1024^5 if the response has
    no [mxfer], whose [downloadBandwidthUsed] is 0 if it has no
    [caxfer] and whose [sharedBandwidthUsed] is 0 if it has no
    [csxfer]. *)
Theorem getAccountInfo_defaults s r ps :
  API.closed (api s) = false ->
  API.answers_with r (VObj ps) ->
  exists acc,
    (getAccountInfo s [r]).2 = [Reply None (Some acc)]
    /\ (own ps "mxfer" = VUndef ->
        downloadBandwidthTotal acc = VNum 11258999068426240
        /\ 11258999068426240 = 10 * 1024 ^ 5)
    /\ (own ps "caxfer" = VUndef -> downloadBandwidthUsed acc = VNum 0)
    /\ (own ps "csxfer" = VUndef -> sharedBandwidthUsed acc = VNum 0).
Proof.
  intros Hc Hr.
  destruct (APIFacts.run_success (api s)
              [("a", VStr "uq"); ("strg", VNum 1); ("xfer", VNum 1); ("pro", VNum 1)]
              0 r [] (VObj ps) Hc Hr) as (f & pre & Hpre & Hrun).
  unfold getAccountInfo.
  destruct (API.request_run _ _ _ _) as [a' evs]. simpl in Hrun. subst evs.
  eexists. split.
  - simpl. destruct Hpre as [->|[c ->]]; reflexivity.
  - unfold get_or_undef. simpl.
    split; [|split]; intros ->; [split|..]; reflexivity.
Qed.

Lemma getAccountInfo_defaults_witness :
  exists acc,
    (getAccountInfo (create (mkOptions None None (Some false) VUndef VUndef None) "0.25").1
                    [Samples.answer_quota]).2 = [Reply None (Some acc)]
    /\ downloadBandwidthTotal acc = VNum 11258999068426240
    /\ downloadBandwidthUsed acc = VNum 0
    /\ sharedBandwidthUsed acc = VNum 0.
Proof.
  destruct (getAccountInfo_defaults
              (create (mkOptions None None (Some false) VUndef VUndef None) "0.25").1
              Samples.answer_quota
              [("utype", VNum 0); ("cstrg", VNum 1024); ("mstrg", VNum 53687091200)])
    as (acc & Hrun & Hm & Hca & Hcs).
  - reflexivity.
  - exists (VArr [Samples.quota_resp]). repeat split.
  - exists acc. split; [exact Hrun|].
    split; [apply Hm; reflexivity|].
    split; [apply Hca; reflexivity | apply Hcs; reflexivity].
Defined.

Lemma request_send_settles a json :
  API.closed a = false ->
  exists x, API.request_send a json = inr x
            /\ (API.closed (API.sent_api x) && negb (API.sent_isLogout x))%bool = false.
Proof.
  intros Hc. destruct (APIFacts.request_send_open a json Hc) as (x & Hs & Hcs & _).
  exists x. split; [exact Hs|]. rewrite Hcs. reflexivity.
Qed.

(** C10.  When the quota request ends in an error, whatever its
    kind (an error code as the answer, a fetch that fails or a status
    that is not ok, an empty body), the callback of getAccountInfo
    reports it to the caller and does not return: it goes on into the
    normalization, where there is no response to read from, and
    reading the first field throws a TypeError that nothing catches. *)
Theorem getAccountInfo_error_falls_through s :
  API.closed (api s) = false ->
  (forall r z,
     API.answers_code r z -> z <> -3 ->
     (getAccountInfo s [r]).2
       = [Reply (Some (API.api_error z)) None; Uncaught (undefined_read "utype")])
  /\
  (forall r e,
     API.settle r = inl e ->
     (getAccountInfo s [r]).2
       = [Reply (Some e) None; Uncaught (undefined_read "utype")])
  /\
  (forall r v,
     API.settle r = inr v -> truthy v = false ->
     (getAccountInfo s [r]).2
       = [Reply (Some (Error "Empty response")) None;
          Uncaught (undefined_read "utype")]).
Proof.
  intros Hc.
  destruct (request_send_settles (api s)
              [("a", VStr "uq"); ("strg", VNum 1); ("xfer", VNum 1); ("pro", VNum 1)]
              Hc) as (x & Hs & Hcs).
  assert (Hcl : API.closed (API.sent_api x) = false).
  { destruct (APIFacts.request_send_open (api s)
                [("a", VStr "uq"); ("strg", VNum 1); ("xfer", VNum 1); ("pro", VNum 1)]
                Hc) as (x' & Hs' & Hcs' & _). congruence. }
  split; [|split].
  - intros r z Hr Hz. unfold getAccountInfo. cbn [API.request_run]. rewrite Hs.
    rewrite (APIFacts.request_settled_code _ _ _ _ _ Hcl Hr).
    destruct (Z.eqb_spec z (-3)); [contradiction|]. reflexivity.
  - intros r e Hr. unfold getAccountInfo. cbn [API.request_run]. rewrite Hs.
    unfold API.request_settled. rewrite Hr. reflexivity.
  - intros r v Hr Hv. unfold getAccountInfo. cbn [API.request_run]. rewrite Hs.
    unfold API.request_settled, API.request_then. rewrite Hr, Hcs, Hv. reflexivity.
Qed.

Lemma getAccountInfo_error_falls_through_witness :
  (getAccountInfo (create (mkOptions None None (Some false) VUndef VUndef None) "0.25").1
                  [Samples.enoent]).2
    = [Reply (Some (API.api_error (-9))) None; Uncaught (undefined_read "utype")].
Proof.
  destruct (getAccountInfo_error_falls_through
              (create (mkOptions None None (Some false) VUndef VUndef None) "0.25").1)
    as (Hcode & _ & _).
  - reflexivity.
  - apply Hcode.
    + exists (VNum (-9)). repeat split.
    + discriminate.
Defined.

(** *** The session snapshot *)

(** C6.  For a storage that is logged in (it has a master key and a
    non-empty session id), [toJSON] succeeds and [fromJSON] of its
    result gives a storage with the same master key, session id,
    account name and user handle; the constructor run by [fromJSON]
    does not start a login; and the new storage's API is open, holds
    the session id and puts it in the query string of its requests:
    every request is sent, and with that [sid] unless the payload
    brings a [sid] of its own in [_querystring]. *)
Theorem fromJSON_toJSON s k x rnd :
  key s = Some k ->
  sid s = Some x ->
  x <> "" ->
  exists snap,
    toJSON s = inr snap
    /\ key (fromJSON snap rnd).1 = Some k
    /\ aes (fromJSON snap rnd).1 = Some k
    /\ sid (fromJSON snap rnd).1 = Some x
    /\ name (fromJSON snap rnd).1 = name s
    /\ user (fromJSON snap rnd).1 = user s
    /\ (fromJSON snap rnd).2 = StartTick
    /\ API.sid (api (fromJSON snap rnd).1) = Some x
    /\ API.closed (api (fromJSON snap rnd).1) = false
    /\ own (API.query (api (fromJSON snap rnd).1)).1 "sid" = VStr x
    /\ forall json,
         exists sent g qs body,
           API.request_send (api (fromJSON snap rnd).1) json = inr sent
           /\ API.sent_fetch sent = API.PostCs g qs body
           /\ (API.overrides "sid" json = false -> own qs "sid" = VStr x).
Proof.
  intros Hk Hs Hx. unfold toJSON. rewrite Hk. eexists. split; [reflexivity|].
  assert (Hsid : API.sid (api (fromJSON (mkSnapshot (Base64.e64 k) (sid s) (name s)
                                           (user s) (options s)) rnd).1) = Some x).
  { unfold fromJSON. simpl. exact Hs. }
  assert (Hcl : API.closed (api (fromJSON (mkSnapshot (Base64.e64 k) (sid s) (name s)
                                          (user s) (options s)) rnd).1) = false)
    by reflexivity.
  split; [unfold fromJSON; simpl; rewrite Base64Facts.d64_e64; reflexivity|].
  split; [unfold fromJSON; simpl; rewrite Base64Facts.d64_e64; reflexivity|].
  split; [exact Hs|]. split; [reflexivity|]. split; [reflexivity|].
  split; [reflexivity|]. split; [exact Hsid|]. split; [exact Hcl|].
  split; [apply APIFacts.query_sid; assumption|].
  intros json.
  destruct (APIFacts.request_send_accepted
              (api (fromJSON (mkSnapshot (Base64.e64 k) (sid s) (name s)
                                (user s) (options s)) rnd).1) json)
    as (sent & g & qs & body & Hsent & _ & Hf & Hq).
  { rewrite Hcl. reflexivity. }
  exists sent, g, qs, body. split; [exact Hsent|]. split; [exact Hf|].
  intros Hov. rewrite (Hq "sid" Hov). apply APIFacts.query_sid; assumption.
Qed.

Lemma fromJSON_toJSON_witness :
  exists snap,
    toJSON Samples.logged_in = inr snap
    /\ key (fromJSON snap "0.4142135623").1 = Some Samples.master_key
    /\ sid (fromJSON snap "0.4142135623").1 = Some "c2Vzc2lvbi1pZA"
    /\ (fromJSON snap "0.4142135623").2 = StartTick.
Proof.
  destruct (fromJSON_toJSON Samples.logged_in Samples.master_key
              "c2Vzc2lvbi1pZA" "0.4142135623")
    as (snap & H1 & H2 & _ & H4 & _ & _ & H7 & _).
  - reflexivity.
  - reflexivity.
  - discriminate.
  - exists snap. repeat split; assumption.
Defined.

(** *** Listeners registered by reload *)

Lemma reload_registers s :
  is_connecting (status s) = false ->
  API.closed (api s) = false ->
  exists sent s',
    reload s false = Requested s' sent
    /\ API.sc_listeners (api s') = API.sc_listeners (api s) ++ [API.StorageSync]
    /\ files s' = files s
    /\ status s' = status s
    /\ API.closed (api s') = false.
Proof.
  intros Hst Hc. unfold reload. rewrite Hst. simpl.
  unfold API.request_send, API.query. simpl. rewrite Hc. simpl.
  eexists _, _. split; [reflexivity|]. simpl. auto.
Qed.

Lemma reload_times_registers n s :
  is_connecting (status s) = false ->
  API.closed (api s) = false ->
  API.sc_listeners (api (reload_times n s))
    = API.sc_listeners (api s) ++ repeat API.StorageSync n
  /\ files (reload_times n s) = files s
  /\ status (reload_times n s) = status s
  /\ API.closed (api (reload_times n s)) = false.
Proof.
  intros Hst Hc. induction n as [|n (IHl & IHf & IHs & IHc)]; simpl.
  - rewrite app_nil_r. auto.
  - destruct (reload_registers (reload_times n s)) as (sent & s' & Hr & Hl & Hf & Hs & Hc');
      [congruence | exact IHc |].
    rewrite Hr, Hl, IHl, Hf, Hs, <- app_assoc.
    repeat split; try assumption.
    f_equal. symmetry. apply repeat_cons.
Qed.

Lemma forEach_listeners arr (l : list API.listener) s acc :
  forEach (fun (x : storage * list event) (_ : API.listener) =>
             let '(s1, evs1, e1) := sc_handler (fst x) arr in
             ((s1, snd x ++ evs1), e1)) l (s, acc)
  = let '(s2, evs2, e2) := sc_handler_times (length l) s arr in
    ((s2, acc ++ evs2), e2).
Proof.
  revert s acc. induction l as [|x l IH]; intros s acc; simpl.
  - rewrite app_nil_r. reflexivity.
  - destruct (sc_handler s arr) as [[s1 evs1] [e|]].
    + reflexivity.
    + rewrite IH. destruct (sc_handler_times (length l) s1 arr) as [[s2 evs2] e2].
      rewrite app_assoc. reflexivity.
Qed.

(** Emitting a batch runs the handler once per registered listener,
    in a row. *)
Lemma emit_sc_times s arr :
  emit_sc s arr = sc_handler_times (length (API.sc_listeners (api s))) s arr.
Proof.
  unfold emit_sc. rewrite forEach_listeners.
  destruct (sc_handler_times _ s arr) as [[s2 evs2] e2]. reflexivity.
Qed.

Lemma sc_handler_update s n ts at_ :
  is_Some (files s !! n) ->
  exists s',
    sc_handler s [ActU n ts at_] = (s', [FileUpdate n; Update n], None)
    /\ is_Some (files s' !! n).
Proof.
  intros [f Hf]. unfold sc_handler. simpl. rewrite Hf. simpl.
  eexists. split; [reflexivity|]. simpl.
  apply lookup_alter_is_Some, lookup_alter_is_Some. eauto.
Qed.

Lemma sc_handler_times_update k s n ts at_ :
  is_Some (files s !! n) ->
  exists s',
    sc_handler_times k s [ActU n ts at_]
      = (s', concat (repeat [FileUpdate n; Update n] k), None).
Proof.
  revert s. induction k as [|k IH]; intros s Hn; simpl.
  - eauto.
  - destruct (sc_handler_update s n ts at_ Hn) as (s1 & -> & Hn1).
    destruct (IH s1 Hn1) as (s2 & ->). eauto.
Qed.

(** A record for an object that is already under the parent it
    names does nothing. *)
Lemma sc_handler_in_place s f file q fq :
  files s !! h f = Some file -> parent file = Some q ->
  files s !! q = Some fq -> nodeId fq = q -> p f = Some q ->
  sc_handler s [ActT [f]] = (s, [], None).
Proof.
  intros Hf Hp Hq Hid Hpf. unfold sc_handler. simpl.
  unfold move_or_add. simpl. rewrite Hf, Hp, Hq, Hid, Hpf.
  rewrite decide_True by reflexivity. simpl. reflexivity.
Qed.

Lemma sc_handler_times_in_place k s f file q fq :
  files s !! h f = Some file -> parent file = Some q ->
  files s !! q = Some fq -> nodeId fq = q -> p f = Some q ->
  sc_handler_times k s [ActT [f]] = (s, [], None).
Proof.
  intros Hf Hp Hq Hid Hpf. induction k as [|k IH]; simpl; [reflexivity|].
  rewrite (sc_handler_in_place s f file q fq) by assumption.
  rewrite IH. reflexivity.
Qed.

Lemma move_or_add_new y f :
  files (st y) !! h f = None ->
  move_or_add y f
    = (emit (Add (h f)) (on_st (fun _ => (_importFile (st y) f).1) y), None).
Proof.
  intros Hnew. unfold move_or_add. rewrite Hnew.
  pose proof (importFile_handle (st y) f) as Hh.
  destruct (_importFile (st y) f) as [s1 x]. simpl in Hh. subst x. reflexivity.
Qed.

(** The first run adds the new object under its parent. *)
Lemma sc_handler_add s f q :
  ids_ok (files s) ->
  files s !! h f = None -> p f = Some q -> q <> "" -> is_Some (files s !! q) ->
  exists s' file fq,
    sc_handler s [ActT [f]] = (s', [Add (h f)], None)
    /\ files s' !! h f = Some file /\ parent file = Some q
    /\ files s' !! q = Some fq /\ nodeId fq = q.
Proof.
  intros Hids Hnew Hp Hq [fq Hfq].
  assert (Hne : h f <> q) by congruence.
  destruct (importFile_new s f Hnew) as (nf & Hid & Hpnf & Hcnf & Hfiles).
  exists (_importFile s f).1.
  assert (Hrun : sc_handler s [ActT [f]] = ((_importFile s f).1, [Add (h f)], None)).
  { unfold sc_handler. cbn [forEach apply_action].
    rewrite move_or_add_new by exact Hnew. reflexivity. }
  rewrite Hrun, Hfiles. unfold imported. rewrite Hp.
  destruct (String.eqb_spec q ""); [contradiction|].
  rewrite lookup_insert_ne, Hfq by exact Hne.
  rewrite lookup_alter_eq, lookup_alter_ne, lookup_insert_eq by congruence.
  rewrite lookup_alter_ne, lookup_alter_eq, lookup_insert_ne, Hfq by congruence.
  simpl. eexists _, _. repeat split. apply (Hids _ _ Hfq).
Qed.

(** C9 (as amended).  Each call of reload on an open storage that is
    not connecting registers one more ['sc'] listener and removes
    none, and leaves the table as it is; a batch emitted afterwards
    is run through the handler once per listener, each run on the
    storage the run before left.  So an update of a known object is
    emitted once per listener; but a new object is added, and ['add']
    emitted, by the first run only: the later runs find it in
    place. *)
Theorem reload_listeners_accumulate s n :
  is_connecting (status s) = false ->
  API.closed (api s) = false ->
  API.sc_listeners (api (reload_times n s))
    = API.sc_listeners (api s) ++ repeat API.StorageSync n
  /\ files (reload_times n s) = files s
  /\ (forall arr,
        emit_sc (reload_times n s) arr
          = sc_handler_times (length (API.sc_listeners (api s)) + n)
              (reload_times n s) arr)
  /\ (forall x ts at_,
        is_Some (files s !! x) ->
        exists s',
          emit_sc (reload_times n s) [ActU x ts at_]
            = (s', concat (repeat [FileUpdate x; Update x]
                             (length (API.sc_listeners (api s)) + n)), None))
  /\ (forall f q,
        ids_ok (files s) ->
        files s !! h f = None -> p f = Some q -> q <> "" ->
        is_Some (files s !! q) ->
        (0 < length (API.sc_listeners (api s)) + n)%nat ->
        exists s',
          emit_sc (reload_times n s) [ActT [f]] = (s', [Add (h f)], None)).
Proof.
  intros Hst Hc.
  destruct (reload_times_registers n s Hst Hc) as (Hl & Hf & _ & _).
  assert (Hlen : length (API.sc_listeners (api (reload_times n s)))
                 = (length (API.sc_listeners (api s)) + n)%nat).
  { rewrite Hl, length_app, repeat_length. reflexivity. }
  split; [exact Hl|]. split; [exact Hf|]. split; [|split].
  - intros arr. rewrite emit_sc_times, Hlen. reflexivity.
  - intros x ts at_ Hx. rewrite emit_sc_times, Hlen.
    apply sc_handler_times_update. rewrite Hf. exact Hx.
  - intros f q Hids Hnew Hp Hq Hsome Hpos. rewrite emit_sc_times, Hlen.
    destruct (length (API.sc_listeners (api s)) + n)%nat as [|k]; [lia|].
    destruct (sc_handler_add (reload_times n s) f q) as (s' & file & fq & Hrun & H1 & H2 & H3 & H4);
      try (rewrite Hf); try assumption.
    simpl. rewrite Hrun.
    rewrite (sc_handler_times_in_place k s' f file q fq) by assumption.
    eauto.
Qed.

Lemma reload_listeners_accumulate_witness :
  API.sc_listeners (api (reload_times 2 Samples.drive))
    = [API.StorageSync; API.StorageSync]
  /\ (exists s',
        emit_sc (reload_times 2 Samples.drive) [ActU "file2" (VNum 1700000005) (VStr "bmV3")]
          = (s', [FileUpdate "file2"; Update "file2"; FileUpdate "file2"; Update "file2"],
             None))
  /\ (exists s',
        emit_sc (reload_times 2 Samples.drive) Samples.add_batch
          = (s', [Add "file9"], None)).
Proof.
  destruct (reload_listeners_accumulate Samples.drive 2) as (Hl & _ & _ & Hu & Ha).
  - reflexivity.
  - reflexivity.
  - split; [exact Hl|]. split.
    + apply (Hu "file2"). vm_compute. eauto.
    + apply (Ha (Samples.record "file9" (Some "dirA") 0) "dirA").
      * apply reload_response_linked, linked_graph_empty.
      * reflexivity.
      * reflexivity.
      * discriminate.
      * vm_compute. eauto.
      * vm_compute. lia.
Defined.

(** C9 (as stated) fails: with two listeners registered, a batch that
    adds one object emits ['add'] once, not twice. *)
Lemma add_emitted_once :
  length (API.sc_listeners (api Samples.drive_reloaded_twice)) = 2%nat
  /\ exists s',
       emit_sc Samples.drive_reloaded_twice Samples.add_batch
         = (s', [Add "file9"], None)
       /\ sc_handler Samples.drive_reloaded_twice Samples.add_batch
         = (s', [Add "file9"], None)
       /\ [Add "file9"] <> [Add "file9"] ++ [Add "file9"].
Proof.
  split; [reflexivity|]. eexists. split; [vm_compute; reflexivity|].
  split; [vm_compute; reflexivity | discriminate].
Qed.

End StorageFacts.

(** * The long poll, step by step *)

Module PollFacts.
Import API.

(** What the handler of a pull does with a bare negative number. *)
Lemma pull_settled_code a k r z :
  settle r = inr (VNum z) -> z < 0 ->
  pull_settled a k r
    = (set_sn None a,
       if closed a then PollStop
       else if ((z =? -3) && (k <? MAX_RETRIES))%bool
            then PollRetry (2 ^ (k + 1) * 1000)
            else PollError (api_error z)).
Proof.
  intros Hr Hz. unfold pull_settled, pull_then. rewrite Hr.
  assert (Hn : is_negative_number (VNum z) = Some z).
  { unfold is_negative_number. destruct (Z.ltb_spec z 0); [reflexivity | lia]. }
  rewrite Hn. cbn [closed set_sn].
  destruct (closed a); [reflexivity|].
  destruct ((z =? -3) && (k <? MAX_RETRIES))%bool; reflexivity.
Qed.

Lemma start_pull_legs w sn k :
  legs (start_pull w sn k) = legs w ++ [LegPull (controllers (api w)) sn k]
  /\ API.sn (api (start_pull w sn k)) = Some (controllers (api w))
  /\ controllers (api (start_pull w sn k)) = S (controllers (api w))
  /\ closed (api (start_pull w sn k)) = closed (api w)
  /\ keepalive (api (start_pull w sn k)) = keepalive (api w).
Proof. repeat split. Qed.

Lemma leg_pull_retry a c sn k r :
  closed a = false -> settle r = inr (VNum (-3)) -> k < MAX_RETRIES ->
  forall th,
  leg_settled (mkSession a [LegPull c sn k]) 0 r th
    = (mkSession (set_sn None a) [LegTimer sn (k + 1)], []).
Proof.
  intros Hc Hr Hk th. unfold leg_settled. cbn [legs api lookup list_lookup].
  rewrite (pull_settled_code a k r (-3) Hr) by lia. rewrite Hc.
  replace (k <? MAX_RETRIES) with true by (symmetry; apply Z.ltb_lt; exact Hk).
  reflexivity.
Qed.

Lemma leg_pull_error a c sn k r z :
  closed a = false -> settle r = inr (VNum z) -> z < 0 ->
  z <> -3 \/ MAX_RETRIES <= k ->
  forall th,
  leg_settled (mkSession a [LegPull c sn k]) 0 r th
    = (mkSession (set_sn None a) [], [EmitError (api_error z)]).
Proof.
  intros Hc Hr Hz Hk th. unfold leg_settled. cbn [legs api lookup list_lookup].
  rewrite (pull_settled_code a k r z Hr Hz). rewrite Hc.
  replace ((z =? -3) && (k <? MAX_RETRIES))%bool with false; [reflexivity|].
  symmetry. apply andb_false_iff. destruct Hk as [Hk|Hk].
  - left. apply Z.eqb_neq. exact Hk.
  - right. apply Z.ltb_ge. exact Hk.
Qed.

Lemma fire_timer_pull a sn k :
  fire_timer (mkSession a [LegTimer sn k])
    = start_pull (mkSession a []) sn k.
Proof. reflexivity. Qed.

Lemma fire_timer_idle a c sn k :
  fire_timer (mkSession a [LegPull c sn k]) = mkSession a [LegPull c sn k].
Proof. reflexivity. Qed.


Lemma start_pull_single a sn k :
  start_pull (mkSession a []) sn k
    = mkSession (pull a sn).1 [LegPull (controllers a) sn k].
Proof. reflexivity. Qed.

Lemma pull_fields a sn :
  closed (pull a sn).1 = closed a
  /\ controllers (pull a sn).1 = S (controllers a)
  /\ keepalive (pull a sn).1 = keepalive a
  /\ API.sn (pull a sn).1 = Some (controllers a).
Proof. repeat split. Qed.

Lemma pull_closed a sn : closed (pull a sn).1 = closed a.
Proof. reflexivity. Qed.

Lemma set_sn_closed c a : closed (set_sn c a) = closed a.
Proof. reflexivity. Qed.

(** One round of the backoff: the pull in flight is answered -3
    below the limit, the timer fires, and the next pull is in flight. *)
Lemma poll_round a c sn k r rest :
  closed a = false -> settle r = inr (VNum (-3)) -> k < MAX_RETRIES ->
  poll_run (mkSession a [LegPull c sn k]) (r :: rest)
    = poll_run (mkSession (set_sn None a) [LegTimer sn (k + 1)]) rest.
Proof.
  intros Hc Hr Hk. cbn [poll_run]. rewrite fire_timer_idle.
  rewrite (leg_pull_retry a c sn k r Hc Hr Hk).
  destruct (poll_run _ rest). reflexivity.
Qed.

Lemma poll_timer a sn k r rest :
  poll_run (mkSession a [LegTimer sn k]) (r :: rest)
    = poll_run (mkSession (pull a sn).1 [LegPull (controllers a) sn k]) (r :: rest).
Proof. cbn [poll_run]. rewrite fire_timer_pull, start_pull_single, fire_timer_idle. reflexivity. Qed.

(** X1: a long poll answered with the code -3 (as a bare number, or
    by the status text 'Server Too Busy') is repeated with the same
    sequence number after 2, 4, 8 and 16 seconds; a fifth -3 is
    reported as an ['error'] event with the text of EAGAIN, and the
    polling ends there: nothing is in flight afterwards.  (Here and
    below an ['error'] event stands for the call of [emit], taken to
    return: a listener is registered and does not throw.) *)
Theorem pull_retry_policy w sn r1 r2 r3 r4 r5 :
  closed (api w) = false ->
  legs w = [] ->
  settle r1 = inr (VNum (-3)) -> settle r2 = inr (VNum (-3)) ->
  settle r3 = inr (VNum (-3)) -> settle r4 = inr (VNum (-3)) ->
  settle r5 = inr (VNum (-3)) ->
  (forall k, k < MAX_RETRIES ->
     (pull_settled (api w) k r1).2 = PollRetry (2 ^ (k + 1) * 1000))
  /\ (let w4 := (poll_run (start_pull w sn 0) [r1; r2; r3; r4]).1 in
      (poll_run (start_pull w sn 0) [r1; r2; r3; r4]).2 = []
      /\ legs w4 = [LegTimer sn 4]
      /\ controllers (api w4) = (controllers (api w) + 4)%nat)
  /\ (let w5 := (poll_run (start_pull w sn 0) [r1; r2; r3; r4; r5]).1 in
      (poll_run (start_pull w sn 0) [r1; r2; r3; r4; r5]).2
        = [EmitError (api_error (-3))]
      /\ legs w5 = []
      /\ API.sn (api w5) = None
      /\ controllers (api w5) = (controllers (api w) + 5)%nat).
Proof.
  intros Hc Hl H1 H2 H3 H4 H5. destruct w as [a l]. cbn [legs api] in *. subst l.
  split; [|split].
  - intros k Hk. rewrite (pull_settled_code a k r1 (-3) H1) by lia.
    rewrite Hc. cbn [snd].
    replace (k <? MAX_RETRIES) with true by (symmetry; apply Z.ltb_lt; exact Hk).
    reflexivity.
  - rewrite start_pull_single.
    rewrite poll_round by (try assumption; reflexivity || (unfold MAX_RETRIES; lia)).
    rewrite poll_timer.
    rewrite poll_round by (try assumption; reflexivity || (unfold MAX_RETRIES; lia)).
    rewrite poll_timer.
    rewrite poll_round by (try assumption; reflexivity || (unfold MAX_RETRIES; lia)).
    rewrite poll_timer.
    rewrite poll_round by (try assumption; reflexivity || (unfold MAX_RETRIES; lia)).
    cbn. repeat split. lia.
  - rewrite start_pull_single.
    rewrite poll_round by (try assumption; reflexivity || (unfold MAX_RETRIES; lia)).
    rewrite poll_timer.
    rewrite poll_round by (try assumption; reflexivity || (unfold MAX_RETRIES; lia)).
    rewrite poll_timer.
    rewrite poll_round by (try assumption; reflexivity || (unfold MAX_RETRIES; lia)).
    rewrite poll_timer.
    rewrite poll_round by (try assumption; reflexivity || (unfold MAX_RETRIES; lia)).
    rewrite poll_timer.
    cbn [poll_run]. rewrite fire_timer_idle.
    rewrite (leg_pull_error _ _ sn _ r5 (-3)); try assumption; try lia.
    + cbn. repeat split. lia.
    + right. cbn. unfold MAX_RETRIES. lia.
Qed.

Lemma pull_retry_policy_witness :
  (pull_settled Samples.api0 2 Samples.eagain_bare).2 = PollRetry 8000
  /\ (poll_run (start_pull Samples.session0 (VStr "Zk3xQ9a1b2c") 0)
        [Samples.eagain_bare; Samples.eagain_busy; Samples.eagain_bare;
         Samples.eagain_busy; Samples.eagain_bare]).2
     = [EmitError (api_error (-3))]
  /\ legs (poll_run (start_pull Samples.session0 (VStr "Zk3xQ9a1b2c") 0)
        [Samples.eagain_bare; Samples.eagain_busy; Samples.eagain_bare;
         Samples.eagain_busy; Samples.eagain_bare]).1 = [].
Proof.
  destruct (pull_retry_policy Samples.session0 (VStr "Zk3xQ9a1b2c")
              Samples.eagain_bare Samples.eagain_busy Samples.eagain_bare
              Samples.eagain_busy Samples.eagain_bare)
    as (Hd & _ & He & Hl & _); try reflexivity.
  split; [|split].
  - apply (Hd 2). reflexivity.
  - exact He.
  - exact Hl.
Defined.


(** X2: an error code other than -3 that answers a long poll as a
    bare number is reported once as an ['error'] event and the polling
    ends.  Unlike [request], [pull] does not look inside an array: an
    answer that is an array, even one that starts with an error code,
    raises no event and starts nothing, so the polling ends silently,
    while the same answer to a unary request is delivered as an error. *)
Theorem pull_error_codes w i c sn k r th :
  legs w !! i = Some (LegPull c sn k) ->
  closed (api w) = false ->
  (forall z, settle r = inr (VNum z) -> z < 0 -> z <> -3 ->
     leg_settled w i r th
       = (mkSession (set_sn None (api w)) (delete i (legs w)),
          [EmitError (api_error z)]))
  /\ (forall l, settle r = inr (VArr l) ->
        leg_settled w i r th
          = (mkSession (set_sn None (api w)) (delete i (legs w)), []))
  /\ (forall z rest il kk,
        settle r = inr (VArr (VNum z :: rest)) -> z < 0 -> z <> -3 ->
        request_settled (api w) il kk r
          = Deliver None (Some (api_error z)) (VNum z)).
Proof.
  intros Hl Hc. split; [|split].
  - intros z Hr Hz H3. unfold leg_settled. rewrite Hl.
    rewrite (pull_settled_code _ k r z Hr Hz), Hc.
    replace (z =? -3) with false by (symmetry; apply Z.eqb_neq; exact H3).
    reflexivity.
  - intros l Hr. unfold leg_settled. rewrite Hl.
    unfold pull_settled, pull_then. rewrite Hr.
    cbn [closed set_sn is_negative_number option_map]. rewrite Hc.
    reflexivity.
  - intros z rest il kk Hr Hz H3. unfold request_settled, request_then.
    rewrite Hr, Hc. cbn [andb truthy negb].
    change (get_or_undef (VArr (VNum z :: rest)) "length")
      with (VNum (Z.of_nat (S (length rest)))).
    cbn [truthy]. replace (Z.of_nat (S (length rest)) =? 0) with false
      by (symmetry; apply Z.eqb_neq; lia).
    cbn [negb]. change (get_or_undef (VArr (VNum z :: rest)) "0") with (VNum z).
    unfold is_negative_number.
    replace (z <? 0) with true by (symmetry; apply Z.ltb_lt; exact Hz).
    replace (z =? -3) with false by (symmetry; apply Z.eqb_neq; exact H3).
    reflexivity.
Qed.

Lemma pull_error_codes_witness :
  leg_settled (start_pull Samples.session0 (VStr "Zk3xQ9a1b2c") 0) 0 Samples.enoent None
    = (mkSession (set_sn None (api (start_pull Samples.session0 (VStr "Zk3xQ9a1b2c") 0))) [],
       [EmitError (api_error (-9))])
  /\ leg_settled (start_pull Samples.session0 (VStr "Zk3xQ9a1b2c") 0) 0
       (Response "OK" true (inr (VArr [VNum (-9)]))) None
    = (mkSession (set_sn None (api (start_pull Samples.session0 (VStr "Zk3xQ9a1b2c") 0))) [],
       []).
Proof.
  split.
  - apply (pull_error_codes (start_pull Samples.session0 (VStr "Zk3xQ9a1b2c") 0)
             0 0%nat (VStr "Zk3xQ9a1b2c") 0 Samples.enoent None);
      [reflexivity | reflexivity | reflexivity | lia | lia].
  - apply (proj1 (proj2
             (pull_error_codes (start_pull Samples.session0 (VStr "Zk3xQ9a1b2c") 0)
                0 0%nat (VStr "Zk3xQ9a1b2c") 0
                (Response "OK" true (inr (VArr [VNum (-9)]))) None
                eq_refl eq_refl)) [VNum (-9)]).
    reflexivity.
Defined.

(** X3: closing the instance while the long poll sits in its wait
    leg does not end the polling at once.  Whatever the wait fetch
    settles to, its handler calls [pull] with the sequence number it
    kept, without looking at [closed]: one more request to sc goes
    out, under a controller that [close] never aborts.  Only the
    answer to that request is dropped, with no event. *)
Theorem close_during_wait a c sn r th :
  let w1 := (close_session (mkSession a [LegWait c sn])).2 in
  let w2 := (leg_settled w1 0 r th).1 in
  (leg_settled w1 0 r th).2 = []
  /\ legs w2 = [LegPull (controllers a) sn 0]
  /\ closed (api w2) = true
  /\ API.sn (api w2) = Some (controllers a)
  /\ (close_session (mkSession a [LegWait c sn])).1 = API.sn a
  /\ forall r' resp th',
       settle r' = inr resp ->
       leg_settled w2 0 r' th' = (mkSession (set_sn None (api w2)) [], []).
Proof.
  cbn zeta. repeat split.
  intros r' resp th' Hr. unfold leg_settled. cbn [legs lookup list_lookup].
  unfold pull_settled, pull_then. rewrite Hr. reflexivity.
Qed.

(** X4: [close] aborts the controller of the poll that was started
    last, and the rejection that the abort causes is swallowed: no
    event, nothing in flight.  An answer that still arrives is
    dropped.  A failure of another kind (a network error, a status
    that is not ok) is still reported as an ['error'] event after the
    close. *)
Theorem close_aborts_poll a sn k th :
  let w1 := start_pull (mkSession a []) sn k in
  let w2 := (close_session w1).2 in
  (close_session w1).1 = Some (controllers a)
  /\ legs w2 = [LegPull (controllers a) sn k]
  /\ leg_settled w2 0 (Rejected AbortError) th = (mkSession (api w2) [], [])
  /\ (forall r resp, settle r = inr resp ->
        leg_settled w2 0 r th = (mkSession (set_sn None (api w2)) [], []))
  /\ (forall r e, settle r = inl e -> ename e <> "AbortError" ->
        leg_settled w2 0 r th = (mkSession (api w2) [], [EmitError e])).
Proof.
  cbn zeta. repeat split.
  - intros r resp Hr. unfold leg_settled. cbn [legs lookup list_lookup].
    unfold pull_settled, pull_then. rewrite Hr. reflexivity.
  - intros r e Hr He. unfold leg_settled. cbn [legs lookup list_lookup].
    unfold pull_settled, ignoreAbortError. rewrite Hr.
    destruct (String.eqb_spec (ename e) "AbortError") as [E|E]; [contradiction|].
    reflexivity.
Qed.

(** X5: a poll answer with a truthy [w] sends the session to the
    wait URL and nothing else: no batch is emitted even if the answer
    carries one, and the sequence number of the answer is not looked
    at.  When the wait ends, however it ends, the poll resumes with the
    sequence number it had before and a retry count of zero. *)
Theorem wait_keeps_sequence_number a c sn k r resp url r' th th' :
  closed a = false ->
  settle r = inr resp ->
  get resp "w" = Some url -> truthy url = true ->
  let s1 := leg_settled (mkSession a [LegPull c sn k]) 0 r th in
  let s2 := leg_settled s1.1 0 r' th' in
  s1.2 = []
  /\ legs s1.1 = [LegWait (controllers a) sn]
  /\ s2.2 = []
  /\ legs s2.1 = [LegPull (S (controllers a)) sn 0].
Proof.
  intros Hc Hr Hw Ht. cbn zeta.
  assert (Hn : is_negative_number resp = None).
  { destruct resp; try reflexivity. cbn in Hw. inversion Hw; subst url. discriminate Ht. }
  assert (E : leg_settled (mkSession a [LegPull c sn k]) 0 r th
              = (start_wait (mkSession (set_sn None a) []) url sn, [])).
  { unfold leg_settled. cbn [legs api lookup list_lookup].
    unfold pull_settled, pull_then. rewrite Hr. cbn [closed set_sn]. rewrite Hc.
    rewrite Hn, Hw, Ht. reflexivity. }
  rewrite E. repeat split.
Qed.

Lemma wait_keeps_sequence_number_witness :
  let r := Response "OK" true
             (inr (VObj [("w", VStr "https://g.api.mega.co.nz/wsc/x");
                         ("sn", VStr "other"); ("a", VArr [])])) in
  let s1 := leg_settled (mkSession Samples.api0 [LegPull 0%nat (VStr "Zk3xQ9a1b2c") 3]) 0 r None in
  let s2 := leg_settled s1.1 0 (Rejected (Error "socket hang up")) None in
  s1.2 = []
  /\ legs s1.1 = [LegWait 0%nat (VStr "Zk3xQ9a1b2c")]
  /\ s2.2 = []
  /\ legs s2.1 = [LegPull 1%nat (VStr "Zk3xQ9a1b2c") 0].
Proof.
  apply (wait_keeps_sequence_number Samples.api0 0%nat (VStr "Zk3xQ9a1b2c") 3
           (Response "OK" true
              (inr (VObj [("w", VStr "https://g.api.mega.co.nz/wsc/x");
                          ("sn", VStr "other"); ("a", VArr [])])))
           (VObj [("w", VStr "https://g.api.mega.co.nz/wsc/x");
                  ("sn", VStr "other"); ("a", VArr [])])
           (VStr "https://g.api.mega.co.nz/wsc/x")); reflexivity.
Defined.

(** X6: a poll answer without [w] and with a sequence number has its
    batch, if it has one, emitted once as ['sc'], and the next pull
    is started with the new sequence number and a retry count of
    zero.  When a listener throws (anything but an AbortError, which
    the promise chain swallows), the exception is reported as an
    ['error'] event and the next pull is never started: the polling
    ends. *)
Theorem poll_batch_then_next a c sn k r resp sn' :
  closed a = false ->
  settle r = inr resp ->
  (exists w, get resp "w" = Some w /\ truthy w = false) ->
  get resp "sn" = Some sn' -> truthy sn' = true ->
  (forall batch, get resp "a" = Some batch -> truthy batch = true ->
     leg_settled (mkSession a [LegPull c sn k]) 0 r None
       = (mkSession (pull (set_sn None a) sn').1 [LegPull (controllers a) sn' 0],
          [EmitSc batch])
     /\ forall e,
          ename e <> "AbortError" ->
          leg_settled (mkSession a [LegPull c sn k]) 0 r (Some e)
            = (mkSession (set_sn None a) [], [EmitSc batch; EmitError e]))
  /\ (forall batch th, get resp "a" = Some batch -> truthy batch = false ->
        leg_settled (mkSession a [LegPull c sn k]) 0 r th
          = (mkSession (pull (set_sn None a) sn').1 [LegPull (controllers a) sn' 0], [])).
Proof.
  intros Hc Hr (w & Hw & Hf) Hs Ht.
  assert (Hn : is_negative_number resp = None).
  { destruct resp; try reflexivity. cbn in Hs. inversion Hs; subst sn'. discriminate Ht. }
  assert (Hs' : get_or_undef resp "sn" = sn') by (unfold get_or_undef; rewrite Hs; reflexivity).
  split.
  - intros batch Ha Hb.
    assert (Ha' : get_or_undef resp "a" = batch) by (unfold get_or_undef; rewrite Ha; reflexivity).
    split; [|intros e _]; unfold leg_settled; cbn [legs api lookup list_lookup];
      unfold pull_settled, pull_then; rewrite Hr; cbn [closed set_sn]; rewrite Hc;
      rewrite Hn, Hw, Hf; cbn [truthy]; rewrite Hs', Ht, Ha', Hb; reflexivity.
  - intros batch th Ha Hb.
    assert (Ha' : get_or_undef resp "a" = batch) by (unfold get_or_undef; rewrite Ha; reflexivity).
    unfold leg_settled; cbn [legs api lookup list_lookup];
      unfold pull_settled, pull_then; rewrite Hr; cbn [closed set_sn]; rewrite Hc;
      rewrite Hn, Hw, Hf; cbn [truthy]; rewrite Hs', Ht, Ha', Hb. reflexivity.
Qed.

Lemma poll_batch_then_next_witness :
  let r := Response "OK" true
             (inr (VObj [("a", VArr [VObj [("a", VStr "d"); ("n", VStr "gone")]]);
                         ("sn", VStr "Zk3xQ9a1b2d")])) in
  leg_settled (mkSession Samples.api0 [LegPull 0%nat (VStr "Zk3xQ9a1b2c") 2]) 0 r
    (Some (TypeError "Cannot read properties of undefined (reading 'parent')"))
  = (mkSession (set_sn None Samples.api0) [],
     [EmitSc (VArr [VObj [("a", VStr "d"); ("n", VStr "gone")]]);
      EmitError (TypeError "Cannot read properties of undefined (reading 'parent')")]).
Proof.
  cbn zeta.
  apply (poll_batch_then_next Samples.api0 0%nat (VStr "Zk3xQ9a1b2c") 2
           (Response "OK" true
              (inr (VObj [("a", VArr [VObj [("a", VStr "d"); ("n", VStr "gone")]]);
                          ("sn", VStr "Zk3xQ9a1b2d")])))
           (VObj [("a", VArr [VObj [("a", VStr "d"); ("n", VStr "gone")]]);
                  ("sn", VStr "Zk3xQ9a1b2d")])
           (VStr "Zk3xQ9a1b2d"));
    try reflexivity; [exists VUndef; split; reflexivity | discriminate].
Defined.

End PollFacts.

(** * Unary requests: failures and retries *)

Module RequestFacts.
Import API.

Lemma query_closed a : closed (query a).2 = closed a.
Proof.
  unfold query. destruct (post_increment (counterId a)) as [old c]. reflexivity.
Qed.

Lemma query_gateway a : gateway (query a).2 = gateway a.
Proof.
  unfold query. destruct (post_increment (counterId a)) as [old c]. reflexivity.
Qed.

Lemma query_keepalive a : keepalive (query a).2 = keepalive a.
Proof.
  unfold query. destruct (post_increment (counterId a)) as [old c]. reflexivity.
Qed.

(** What request hands to fetch, written out. *)
Lemma request_send_shape a json :
  (closed a && negb (isLogout json))%bool = false ->
  request_send a json
    = inr (mkSent (query a).2
             (if typeof_object (own json "_querystring")
              then delete_prop json "_querystring" else json)
             (isLogout json)
             (PostCs (gateway a)
                (if typeof_object (own json "_querystring")
                 then assign (query a).1 (own json "_querystring")
                 else (query a).1)
                (VArr [VObj (if typeof_object (own json "_querystring")
                             then delete_prop json "_querystring" else json)]))).
Proof.
  intros H. unfold request_send. rewrite H.
  rewrite <- (query_gateway a). destruct (query a) as [qs a1]. reflexivity.
Qed.

Lemma own_delete_prop json k : own (delete_prop json k) k = VUndef.
Proof.
  unfold delete_prop. induction json as [|[k' v] r IH]; [reflexivity|].
  rewrite filter_cons. cbn [fst].
  destruct (k =? k')%string eqn:E; cbn [negb].
  - rewrite decide_False by (intros []). exact IH.
  - rewrite decide_True by exact I. cbn [own]. rewrite E. exact IH.
Qed.

Lemma own_delete_prop_other json k k' :
  k' <> k -> own (delete_prop json k) k' = own json k'.
Proof.
  intros Hk. unfold delete_prop. induction json as [|[k0 v] r IH]; [reflexivity|].
  rewrite filter_cons. cbn [fst].
  destruct (String.eqb_spec k k0) as [E|E]; cbn [negb].
  - rewrite decide_False by (intros []). cbn [own]. subst k0.
    destruct (String.eqb_spec k' k); [contradiction|]. exact IH.
  - rewrite decide_True by exact I. cbn [own].
    destruct (String.eqb_spec k' k0); [reflexivity|]. exact IH.
Qed.

Lemma isLogout_delete_prop json :
  isLogout (delete_prop json "_querystring") = isLogout json.
Proof.
  unfold isLogout. rewrite own_delete_prop_other by discriminate. reflexivity.
Qed.

(** X7: the ways a unary request fails without a retry, whatever its
    retry count.  A fetch that rejects and a status that is not ok
    (other than 'Server Too Busy') reach the callback through the
    catch handler, the second as "Server returned error: " followed by
    the status text, even when the body is the code -3.  A falsy body
    (null, 0, false, the empty string) is reported as 'Empty
    response'.  No timer is set in any of these cases. *)
Theorem request_failures a json k rest :
  (closed a && negb (isLogout json))%bool = false ->
  (forall e, exists f,
     (request_run a json k (Rejected e :: rest)).2 = [Fetched f; Caught e])
  /\ (forall st js, st <> "Server Too Busy" -> exists f,
        (request_run a json k (Response st false js :: rest)).2
          = [Fetched f; Caught (Error ("Server returned error: " ++ st)%string)])
  /\ (forall st v, st <> "Server Too Busy" -> truthy v = false -> exists f,
        (request_run a json k (Response st true (inr v) :: rest)).2
          = [Fetched f; Called (Some (Error "Empty response")) VUndef]).
Proof.
  intros H.
  assert (H' : forall s, request_send a json = inr s ->
               (closed (sent_api s) && negb (sent_isLogout s))%bool = false).
  { intros s Hs. rewrite (request_send_shape a json H) in Hs. injection Hs as <-.
    exact H. }
  pose proof (request_send_shape a json H) as Hs.
  split; [|split].
  - intros e. eexists. destruct rest; cbn [request_run]; rewrite Hs; reflexivity.
  - intros st js Hst. eexists.
    destruct rest; cbn [request_run]; rewrite Hs;
      unfold request_settled, settle, handleApiResponse;
      destruct (String.eqb_spec st "Server Too Busy"); try contradiction; reflexivity.
  - intros st v Hst Hv. eexists.
    specialize (H' _ Hs).
    destruct rest; cbn [request_run]; rewrite Hs;
      unfold request_settled, settle, handleApiResponse, request_then;
      destruct (String.eqb_spec st "Server Too Busy"); try contradiction;
      cbn [negb]; rewrite H', Hv; reflexivity.
Qed.

Lemma request_failures_witness :
  exists f,
    (request_run Samples.api0 Samples.payload_f 0
       [Response "Bad Gateway" false (inr (VNum (-3))); Samples.answer_listing]).2
      = [Fetched f; Caught (Error "Server returned error: Bad Gateway")].
Proof.
  apply (proj1 (proj2 (request_failures Samples.api0 Samples.payload_f 0
                         [Samples.answer_listing] eq_refl))
           "Bad Gateway" (inr (VNum (-3)))).
  discriminate.
Defined.

(** X8: the query parameters that a payload brings in [_querystring]
    go out with the first attempt only.  request deletes the property
    from the caller's object before it sends, and a retry after -3
    passes that same object on: the second fetch has the next id of
    the counter (and the session id) and none of the payload's own
    parameters.  Neither body contains [_querystring]. *)
Theorem querystring_dropped_on_retry a json r :
  closed a = false ->
  typeof_object (own json "_querystring") = true ->
  answers_code r (-3) ->
  let json' := delete_prop json "_querystring" in
  (request_run a json 0 [r]).2
    = [Fetched (PostCs (gateway a) (assign (query a).1 (own json "_querystring"))
                  (VArr [VObj json']));
       TimerSet 2000;
       Fetched (PostCs (gateway a) (query (query a).2).1 (VArr [VObj json']))]
  /\ own json' "_querystring" = VUndef.
Proof.
  intros Hc Hq Hr json'. split; [|apply own_delete_prop].
  assert (H1 : (closed a && negb (isLogout json))%bool = false) by (rewrite Hc; reflexivity).
  cbn [request_run]. rewrite (request_send_shape a json H1), Hq.
  cbn [sent_api sent_isLogout sent_json sent_fetch].
  rewrite (APIFacts.request_settled_code _ _ 0 r (-3)) by (rewrite ?query_closed; assumption).
  cbn [Z.eqb Z.ltb Z.compare MAX_RETRIES Pos.compare Pos.compare_cont andb].
  assert (H2 : (closed (query a).2 && negb (isLogout json'))%bool = false)
    by (rewrite query_closed, Hc; reflexivity).
  cbn [request_run]. fold json'.
  rewrite (request_send_shape _ json' H2).
  assert (Hd : own json' "_querystring" = VUndef) by apply own_delete_prop.
  rewrite Hd. cbn [typeof_object sent_api sent_fetch snd].
  rewrite query_gateway. reflexivity.
Qed.

Lemma querystring_dropped_on_retry_witness :
  (request_run Samples.api_counting Samples.payload_own_id 0 [Samples.eagain_bare]).2
    = [Fetched (PostCs DEFAULT_GATEWAY [("id", VStr "7")] (VArr [VObj [("a", VStr "g")]]));
       TimerSet 2000;
       Fetched (PostCs DEFAULT_GATEWAY [("id", VStr "10")] (VArr [VObj [("a", VStr "g")]]))].
Proof.
  apply (querystring_dropped_on_retry Samples.api_counting Samples.payload_own_id
           Samples.eagain_bare).
  - reflexivity.
  - reflexivity.
  - exists (VNum (-3)). repeat split.
Defined.

Lemma query_sn a : API.sn (query a).2 = API.sn a /\ controllers (query a).2 = controllers a.
Proof.
  unfold query. destruct (post_increment (counterId a)) as [old c]. split; reflexivity.
Qed.

Lemma no_keepalive_no_pull a il k r sn err resp :
  keepalive a = false -> request_settled a il k r <> Deliver (Some sn) err resp.
Proof.
  intros Hk. unfold request_settled. destruct (settle r) as [e|v]; [discriminate|].
  unfold request_then. rewrite Hk. cbn [andb].
  destruct (closed a && negb il)%bool; [discriminate|].
  destruct (negb (truthy v)); [discriminate|].
  destruct (is_negative_number _) as [z|]; [|discriminate].
  destruct ((z =? -3) && (k <? MAX_RETRIES))%bool; discriminate.
Qed.

Lemma request_send_sent a json s :
  request_send a json = inr s ->
  sent_api s = (query a).2.
Proof.
  unfold request_send. destruct (closed a && negb (isLogout json))%bool; [discriminate|].
  destruct (query a) as [qs a1]. intros H. injection H as <-. reflexivity.
Qed.

(** X9: without keepalive no unary request ever starts the long
    poll, whatever the server answers and however often the request
    is retried: no pull is started, no controller is created and
    [this.sn] stays as it was.  A storage constructed with
    [keepalive: false] has such an API. *)
Theorem no_keepalive_no_poll a :
  keepalive a = false ->
  (forall answers json k,
     Forall (fun ev => forall c, ev <> PullStarted c) (request_run a json k answers).2
     /\ API.sn (request_run a json k answers).1 = API.sn a
     /\ controllers (request_run a json k answers).1 = controllers a
     /\ keepalive (request_run a json k answers).1 = false)
  /\ (forall o rnd,
        Storage.opt_keepalive o = Some false ->
        keepalive (Storage.api (Storage.create o rnd).1) = false).
Proof.
  intros Hk. split; [|intros o rnd Ho; cbn; rewrite Ho; reflexivity].
  intros answers. revert a Hk.
  induction answers as [|r rest IH]; intros a Hk json k; cbn [request_run];
    destruct (request_send a json) as [e|s] eqn:E;
    try (cbn [fst snd]; split; [repeat constructor; discriminate | auto]);
    pose proof (request_send_sent a json s E) as Ha;
    destruct (query_sn a) as [Hsn Hc];
    pose proof (query_keepalive a) as Hka.
  - cbn [fst snd]. rewrite Ha, Hsn, Hc, Hka.
    split; [repeat constructor; discriminate | auto].
  - destruct (request_settled (sent_api s) (sent_isLogout s) k r)
      as [|d|[sn|] err resp|e0] eqn:D.
    + cbn [fst snd]. rewrite Ha, Hsn, Hc, Hka.
      split; [repeat constructor; discriminate | auto].
    + assert (Hk' : keepalive (sent_api s) = false) by (rewrite Ha, Hka; exact Hk).
      destruct (IH (sent_api s) Hk' (sent_json s) (k + 1)) as (H1 & H2 & H3 & H4).
      destruct (request_run (sent_api s) (sent_json s) (k + 1) rest) as [a' evs].
      cbn [fst snd] in *. rewrite H2, H3, Ha, Hsn, Hc.
      split; [repeat constructor; try discriminate; exact H1 | auto].
    + exfalso. apply (no_keepalive_no_pull (sent_api s) (sent_isLogout s) k r sn err resp);
        [rewrite Ha, Hka; exact Hk | exact D].
    + cbn [fst snd]. rewrite Ha, Hsn, Hc, Hka.
      split; [repeat constructor; discriminate | auto].
    + cbn [fst snd]. rewrite Ha, Hsn, Hc, Hka.
      split; [repeat constructor; discriminate | auto].
Qed.

Lemma no_keepalive_no_poll_witness :
  (request_run (create false None "0.8723456789123") Samples.payload_f 0
     [Samples.eagain_bare; Samples.answer_listing]).2
  = [Fetched (PostCs DEFAULT_GATEWAY [("id", VStr "8723456789")] (VArr [VObj Samples.payload_f]));
     TimerSet 2000;
     Fetched (PostCs DEFAULT_GATEWAY [("id", VStr "8723456790")] (VArr [VObj Samples.payload_f]));
     Called None Samples.listing_resp]
  /\ Forall (fun ev => forall c, ev <> PullStarted c)
       (request_run (create false None "0.8723456789123") Samples.payload_f 0
          [Samples.eagain_bare; Samples.answer_listing]).2.
Proof.
  split; [reflexivity|].
  apply (proj1 (no_keepalive_no_poll (create false None "0.8723456789123") eq_refl)
           [Samples.eagain_bare; Samples.answer_listing] Samples.payload_f 0).
Defined.

End RequestFacts.

(** * The life of a storage: construction, login, close *)

Module LifecycleFacts.
Import MutableFile Storage.

Lemma request_send_api a json s :
  API.request_send a json = inr s ->
  API.sent_api s = (API.query a).2 /\ API.sent_isLogout s = API.isLogout json.
Proof.
  unfold API.request_send.
  destruct (API.closed a && negb (API.isLogout json))%bool; [discriminate|].
  destruct (API.query a) as [qs a1]. intros H. injection H as <-. split; reflexivity.
Qed.

Lemma request_run_closed answers :
  forall a json k,
    API.closed (API.request_run a json k answers).1 = API.closed a.
Proof.
  induction answers as [|r rest IH]; intros a json k; cbn [API.request_run];
    destruct (API.request_send a json) as [e|s] eqn:E; try reflexivity;
    destruct (request_send_api a json s E) as [Ha _];
    assert (Hs : API.closed (API.sent_api s) = API.closed a)
      by (rewrite Ha; apply RequestFacts.query_closed).
  - exact Hs.
  - destruct (API.request_settled (API.sent_api s) (API.sent_isLogout s) k r)
      as [|d|[sn|] err resp|e]; try exact Hs.
    specialize (IH (API.sent_api s) (API.sent_json s) (k + 1)).
    destruct (API.request_run (API.sent_api s) (API.sent_json s) (k + 1) rest)
      as [a' evs]. cbn [fst] in *. rewrite IH. exact Hs.
Qed.

Lemma query_set_closed b a :
  (API.query (API.set_closed b a)).1 = (API.query a).1.
Proof.
  unfold API.query. cbn [API.counterId API.set_closed].
  destruct (API.post_increment (API.counterId a)) as [old c]. reflexivity.
Qed.

Lemma importFile_status s f : status (_importFile s f).1 = status s.
Proof.
  unfold _importFile. destruct (files s !! h f); [reflexivity|].
  cbn zeta.
  repeat match goal with
         | |- context [if ?b then _ else _] => destruct b
         | |- context [match ?x with Some _ => _ | None => _ end] => destruct x
         end; reflexivity.
Qed.

Lemma load_node_status ph s f : status (load_node ph s f) = status s.
Proof.
  unfold load_node. pose proof (importFile_status s f) as H.
  destruct (_importFile s f) as [s1 x]. cbn [fst] in H.
  destruct ph; [destruct (files s1 !! x)|]; exact H.
Qed.

Lemma reload_response_status s err l : status (reload_response s err l).1 = status s.
Proof.
  unfold reload_response. destruct err; [reflexivity|]. cbn [fst].
  apply (StorageFacts.fold_load_invariant (fun s' => status s' = status s)).
  - intros s0 f H. rewrite load_node_status. exact H.
  - reflexivity.
Qed.

(** X10: a storage restored with [fromJSON] is never 'ready': the
    constructor leaves the status 'closed' and only login sets it.
    [mkdir] and [upload] therefore throw 'storage is not ready' on
    it, and still do after a reload has loaded the file listing,
    which goes through since the status is not 'connecting'. *)
Theorem restored_storage_not_ready snap rnd :
  let s := (fromJSON snap rnd).1 in
  status s = StatusClosed
  /\ mkdir s = inl (Error "storage is not ready")
  /\ upload s = inl (Error "storage is not ready")
  /\ forall force l, exists s1 sent,
       reload s force = Requested s1 sent
       /\ mkdir (reload_response s1 None l).1 = inl (Error "storage is not ready")
       /\ upload (reload_response s1 None l).1 = inl (Error "storage is not ready").
Proof.
  cbn zeta. repeat split.
  intros force l. unfold reload.
  change (is_connecting (status (fromJSON snap rnd).1)) with false. cbn [andb].
  destruct (API.request_send _ _) as [e|sent] eqn:E.
  - unfold API.request_send in E. cbn in E. discriminate E.
  - eexists _, sent. split; [reflexivity|].
    unfold mkdir, upload. rewrite reload_response_status. split; reflexivity.
Qed.

(** X11: [close] sets the status to 'closed', closes the API, which
    aborts the controller of the running poll, and still sends the
    logout request: 'sml' is the one payload a closed API lets
    through, and it goes out with the query string of any other
    request.  Afterwards [mkdir] throws 'storage is not ready', and
    [reload] and [getAccountInfo] throw 'API is closed' from inside
    request. *)
Theorem close_logs_out s answers :
  let s' := (close s answers).1.1 in
  status s' = StatusClosed
  /\ API.closed (api s') = true
  /\ (close s answers).1.2 = API.sn (api s)
  /\ (exists rest,
        (close s answers).2
          = API.Fetched (API.PostCs (API.gateway (api s)) (API.query (api s)).1
                           (VArr [VObj [("a", VStr "sml")]])) :: rest)
  /\ mkdir s' = inl (Error "storage is not ready")
  /\ (forall force, exists s'', reload s' force = Threw s'' (Error "API is closed"))
  /\ (forall answers', (getAccountInfo s' answers').2 = [Uncaught (Error "API is closed")]).
Proof.
  cbn zeta. unfold close. cbn [API.close status set_status api].
  pose proof (request_run_closed answers (API.set_closed true (api s))
                [("a", VStr "sml")] 0) as Hc.
  assert (Hs : API.request_send (API.set_closed true (api s)) [("a", VStr "sml")]
               = inr (API.mkSent (API.query (API.set_closed true (api s))).2
                        [("a", VStr "sml")] true
                        (API.PostCs (API.gateway (api s)) (API.query (api s)).1
                           (VArr [VObj [("a", VStr "sml")]])))).
  { rewrite RequestFacts.request_send_shape by reflexivity.
    cbn [own String.eqb Ascii.eqb Bool.eqb typeof_object API.isLogout API.gateway
         API.set_closed].
    rewrite query_set_closed. reflexivity. }
  assert (Hev : exists rest,
            (API.request_run (API.set_closed true (api s)) [("a", VStr "sml")] 0 answers).2
            = API.Fetched (API.PostCs (API.gateway (api s)) (API.query (api s)).1
                             (VArr [VObj [("a", VStr "sml")]])) :: rest).
  { destruct answers as [|r rest]; cbn [API.request_run]; rewrite Hs;
      cbn [API.sent_fetch API.sent_api API.sent_isLogout API.sent_json].
    - eexists. reflexivity.
    - destruct (API.request_settled _ true 0 r) as [|d|[sn|] err resp|e];
        try (eexists; reflexivity).
      destruct (API.request_run _ [("a", VStr "sml")] (0 + 1) rest). eexists. reflexivity. }
  destruct (API.request_run (API.set_closed true (api s)) [("a", VStr "sml")] 0 answers)
    as [a' evs]. cbn [fst snd] in *. cbn [API.closed API.set_closed] in Hc.
  split; [reflexivity|]. split; [exact Hc|]. split; [reflexivity|].
  split; [exact Hev|]. split; [reflexivity|]. split.
  - intros force. unfold reload. cbn [status set_status set_api is_connecting andb].
    cbn [api set_mounts set_api].
    rewrite APIFacts.request_send_refused by (rewrite Hc; reflexivity).
    eexists. reflexivity.
  - intros answers'. unfold getAccountInfo. cbn [api set_api].
    destruct answers'; cbn [API.request_run];
      rewrite APIFacts.request_send_refused by (rewrite Hc; reflexivity); reflexivity.
Qed.

(** X12: a storage constructed without an e-mail address that is a
    string, and with automatic login not switched off, sends
    nothing: login hands its callback the error "starting a session
    without credentials isn't supported" on the next tick, the status
    stays 'closed' and the request counter is untouched. *)
Theorem login_without_credentials o rnd :
  opt_autologin o <> Some false ->
  (forall e, opt_email o <> VStr e) ->
  new_Storage o rnd
    = ((create o rnd).1,
       Logging (NoCredentials
                  (Error "starting a session without credentials isn't supported")))
  /\ status (new_Storage o rnd).1 = StatusClosed
  /\ API.counterId (api (new_Storage o rnd).1) = API.CStr (substring 2 10 rnd).
Proof.
  intros Ha He. unfold new_Storage, create.
  assert (Hf : flag (opt_autologin (with_defaults o)) = true).
  { destruct o as [ka al [[|]|] em pw gw]; cbn in *; congruence. }
  rewrite Hf. unfold login. cbn [options opt_email with_defaults].
  destruct (opt_email o) as [| | | |e| |] eqn:E; try (repeat split; fail).
  exfalso. exact (He e eq_refl).
Qed.

Lemma login_without_credentials_witness :
  new_Storage (mkOptions None None None VUndef (VStr "secret") None) "0.25"
    = ((create (mkOptions None None None VUndef (VStr "secret") None) "0.25").1,
       Logging (NoCredentials
                  (Error "starting a session without credentials isn't supported"))).
Proof.
  apply (login_without_credentials
           (mkOptions None None None VUndef (VStr "secret") None) "0.25").
  - discriminate.
  - discriminate.
Defined.

(** X13: with an e-mail address the constructor starts login: the
    first request asks for the account version ('us0') of the
    lower-cased address, and the status is 'connecting' from then on.
    While it is, [mkdir] throws and a [reload] that is not forced
    sends nothing and registers no listener: it waits for 'ready'.  An
    answer whose version is neither 1 nor 2 ends login with 'Account
    version not supported'. *)
Theorem login_asks_version_first o rnd email :
  opt_autologin o <> Some false ->
  opt_email o = VStr email ->
  exists s' sent qs,
    new_Storage o rnd = (s', Logging (VersionAsked (toLowerCase email) sent))
    /\ API.sent_fetch sent
       = API.PostCs (API.gateway (api s')) qs
           (VArr [VObj [("a", VStr "us0"); ("user", VStr (toLowerCase email))]])
    /\ status s' = StatusConnecting
    /\ mkdir s' = inl (Error "storage is not ready")
    /\ reload s' false = Deferred (set_ready_once [false] s')
    /\ (forall response v,
          get response "v" = Some v -> v <> VNum 1 -> v <> VNum 2 ->
          login_version None response
            = inr (LoginError (Error "Account version not supported"))).
Proof.
  intros Ha He. unfold new_Storage, create.
  assert (Hf : flag (opt_autologin (with_defaults o)) = true).
  { destruct o as [ka al [[|]|] em pw gw]; cbn in *; congruence. }
  rewrite Hf. unfold login. cbn [options opt_email with_defaults]. rewrite He.
  rewrite RequestFacts.request_send_shape by reflexivity.
  cbn [own String.eqb Ascii.eqb Bool.eqb typeof_object].
  eexists _, _, _. split; [reflexivity|].
  cbn [API.sent_fetch api set_status set_api API.sent_api].
  rewrite RequestFacts.query_gateway.
  split; [reflexivity|]. split; [reflexivity|]. split; [reflexivity|].
  split; [reflexivity|].
  intros response v Hv H1 H2. unfold login_version. rewrite Hv.
  destruct v as [| | |z| | |]; try reflexivity.
  destruct z as [|[q|q|]|q]; try reflexivity; try congruence.
  destruct q; try reflexivity. congruence.
Qed.

Lemma login_asks_version_first_witness :
  exists s' sent qs,
    new_Storage (mkOptions None None None (VStr "Ada@Example.ORG") (VStr "secret") None)
                "0.8723456789123"
      = (s', Logging (VersionAsked "ada@example.org" sent))
    /\ API.sent_fetch sent
       = API.PostCs (API.gateway (api s')) qs
           (VArr [VObj [("a", VStr "us0"); ("user", VStr "ada@example.org")]])
    /\ status s' = StatusConnecting.
Proof.
  destruct (login_asks_version_first
              (mkOptions None None None (VStr "Ada@Example.ORG") (VStr "secret") None)
              "0.8723456789123" "Ada@Example.ORG")
    as (s' & sent & qs & H1 & H2 & H3 & _); [discriminate | reflexivity |].
  exists s', sent, qs. split; [exact H1|]. split; [exact H2 | exact H3].
Defined.

Lemma reload_times_deferred n s :
  status s = StatusConnecting ->
  reload_times n s = set_ready_once (ready_once s ++ repeat false n) s.
Proof.
  intros Hs. induction n as [|n IH].
  - cbn. rewrite app_nil_r. destruct s; reflexivity.
  - cbn [reload_times]. rewrite IH. unfold reload.
    cbn [status set_ready_once ready_once]. rewrite Hs. cbn [is_connecting negb andb].
    cbn [set_ready_once api files options status mounts root trash inbox key aes sid
         name user ready_once].
    rewrite <- app_assoc.
    replace (repeat false n ++ [false]) with (repeat false (S n))
      by apply repeat_cons.
    reflexivity.
Qed.

(** Once the status is 'ready', the reloads that waited run one
    after the other. *)
Lemma fire_ready_all l :
  forall s,
    status s = StatusReady ->
    API.closed (api s) = false ->
    ready_once s = l ->
    exists s' sents,
      fire_ready (length l) s = (s', sents, None)
      /\ length sents = length l
      /\ status s' = StatusReady
      /\ ready_once s' = []
      /\ files s' = files s
      /\ API.closed (api s') = false
      /\ API.sc_listeners (api s')
         = API.sc_listeners (api s) ++ repeat API.StorageSync (length l)
      /\ Forall (fun sent => exists g qs,
                   API.sent_fetch sent
                     = API.PostCs g qs (VArr [VObj [("a", VStr "f"); ("c", VNum 1)]]))
                sents.
Proof.
  induction l as [|force rest IH]; intros s Hs Hc Hr.
  - exists s, []. cbn. rewrite app_nil_r. repeat split; auto.
  - cbn [length fire_ready]. rewrite Hr. unfold reload.
    cbn [status set_ready_once]. rewrite Hs.
    cbn [is_connecting andb api set_mounts set_ready_once].
    rewrite RequestFacts.request_send_shape by (rewrite Hc; reflexivity).
    cbn [own String.eqb Ascii.eqb Bool.eqb typeof_object API.sent_api].
    match goal with
    | |- context [fire_ready (length rest) ?s1] =>
        destruct (IH s1) as (s' & sents & H1 & H2 & H3 & H4 & H5 & H6 & H7 & H8);
          [exact Hs
          | cbn [api set_api API.closed API.add_sc_listener];
            rewrite RequestFacts.query_closed; exact Hc
          | reflexivity |]
    end.
    rewrite H1. eexists _, _. split; [reflexivity|].
    cbn [length]. split; [congruence|]. split; [exact H3|]. split; [exact H4|].
    split; [exact H5|]. split; [exact H6|]. split.
    + rewrite H7. cbn [api set_api API.sc_listeners API.add_sc_listener].
      assert (Hq : API.sc_listeners (API.query (api s)).2 = API.sc_listeners (api s)).
      { unfold API.query. destruct (API.post_increment _). reflexivity. }
      rewrite Hq, <- app_assoc. reflexivity.
    + constructor; [|exact H8]. eexists _, _. reflexivity.
Qed.

(** X14: a reload asked for while the storage is connecting is put
    off: nothing is sent and no listener is registered, however many
    times it is asked for.  When login becomes ready, the reloads that
    waited run once each: each sends its listing request and
    registers its own ['sc'] listener, and none is left waiting. *)
Theorem deferred_reload_runs_on_ready s n :
  status s = StatusConnecting ->
  API.closed (api s) = false ->
  ready_once s = [] ->
  api (reload_times n s) = api s
  /\ ready_once (reload_times n s) = repeat false n
  /\ exists s2 sents,
       ready (reload_times n s) = (s2, sents, None)
       /\ length sents = n
       /\ status s2 = StatusReady
       /\ ready_once s2 = []
       /\ files s2 = files s
       /\ API.sc_listeners (api s2)
          = API.sc_listeners (api s) ++ repeat API.StorageSync n
       /\ Forall (fun sent => exists g qs,
                    API.sent_fetch sent
                      = API.PostCs g qs (VArr [VObj [("a", VStr "f"); ("c", VNum 1)]]))
                 sents.
Proof.
  intros Hs Hc Hr. rewrite (reload_times_deferred n s Hs), Hr. cbn [app].
  split; [reflexivity|]. split; [reflexivity|].
  unfold ready. cbn [ready_once set_status set_ready_once].
  match goal with
  | |- context [fire_ready _ ?s1] =>
      destruct (fire_ready_all (repeat false n) s1)
        as (s' & sents & H1 & H2 & H3 & H4 & H5 & H6 & H7 & H8);
        [reflexivity | exact Hc | reflexivity |]
  end.
  rewrite repeat_length in *.
  exists s', sents. repeat split; assumption.
Qed.

Lemma deferred_reload_runs_on_ready_witness :
  let s := set_status StatusConnecting Samples.empty_storage in
  api (reload_times 2 s) = api s
  /\ exists s2 sents,
       ready (reload_times 2 s) = (s2, sents, None)
       /\ length sents = 2%nat
       /\ status s2 = StatusReady
       /\ API.sc_listeners (api s2) = [API.StorageSync; API.StorageSync].
Proof.
  cbn zeta.
  destruct (deferred_reload_runs_on_ready
              (set_status StatusConnecting Samples.empty_storage) 2)
    as (H0 & _ & s2 & sents & H1 & H2 & H3 & _ & _ & H4 & _); try reflexivity.
  split; [exact H0|]. exists s2, sents.
  split; [exact H1|]. split; [exact H2|]. split; [exact H3 | exact H4].
Defined.

End LifecycleFacts.

(** * The file graph: loads, reloads and change batches *)

Module GraphFacts.
Import MutableFile Storage.

Lemma update_file_mounts k g s : mounts (update_file k g s) = mounts s.
Proof. reflexivity. Qed.

(** The mounts after the import of a record. *)
Lemma importFile_mounts s f :
  mounts (_importFile s f).1
    = match files s !! h f with
      | Some _ => mounts s
      | None => mounts s ++ (if 1 <? t f then [h f] else [])
      end.
Proof.
  unfold _importFile. destruct (files s !! h f); [reflexivity|].
  cbn zeta. cbn [fst].
  repeat match goal with
         | |- context [if (?a =? ?b) then _ else _] => destruct (a =? b)
         | |- context [if (?a =? ?b)%string then _ else _] => destruct (a =? b)%string
         | |- context [match p f with Some _ => _ | None => _ end] => destruct (p f)
         | |- context [match ?m !! ?k with Some _ => _ | None => _ end] =>
             destruct (m !! k)
         end;
    destruct (1 <? t f); cbn; rewrite ?app_nil_r; reflexivity.
Qed.

Lemma load_node_mounts ph s f :
  mounts (load_node ph s f) = mounts (_importFile s f).1.
Proof.
  unfold load_node. destruct (_importFile s f) as [s1 x]. cbn [fst].
  destruct ph; [destruct (files s1 !! x)|]; reflexivity.
Qed.

Lemma fold_load_absent ph l s x :
  files s !! x = None -> Forall (fun f => h f <> x) l ->
  files (fold_left (load_node ph) l s) !! x = None.
Proof.
  revert s. induction l as [|f l IH]; intros s Hx Hl; [exact Hx|].
  inversion Hl; subst. cbn [fold_left]. apply IH; [|assumption].
  apply StorageFacts.load_node_absent; [exact Hx | congruence].
Qed.

Lemma first_load_mounts_fold ph l :
  forall s,
    Forall (fun f => files s !! h f = None) l ->
    NoDup (h <$> l) ->
    mounts (fold_left (load_node ph) l s) = mounts s ++ mount_handles l.
Proof.
  induction l as [|f l IH]; intros s Hn Hd.
  - cbn. rewrite app_nil_r. reflexivity.
  - inversion Hn as [|? ? Hf Hl]; subst. rewrite fmap_cons in Hd.
    apply NoDup_cons in Hd as [Hnot Hd].
    cbn [fold_left]. rewrite IH; [| |exact Hd].
    + rewrite load_node_mounts, importFile_mounts, Hf.
      unfold mount_handles. cbn [List.filter].
      destruct (1 <? t f); cbn [fmap list_fmap]; rewrite <- app_assoc; reflexivity.
    + apply Forall_forall. intros g Hg.
      apply StorageFacts.load_node_absent.
      * rewrite Forall_forall in Hl. apply Hl. exact Hg.
      * intros E. apply Hnot. rewrite <- E. apply list_elem_of_fmap_2. exact Hg.
Qed.

(** X15: the mounts that the first load reports.  For a listing in
    which no handle occurs twice and none is in the table yet, the
    callback of reload gets the handles of the records whose type is
    above 1 (drive, inbox, rubbish bin, and whatever else has such a
    type), in the order of the listing, and nothing else. *)
Theorem first_load_mounts s force l :
  (is_connecting (status s) && negb force)%bool = false ->
  API.closed (api s) = false ->
  Forall (fun f => files s !! h f = None) (lst_f l) ->
  NoDup (h <$> lst_f l) ->
  exists s1 sent,
    reload s force = Requested s1 sent
    /\ (reload_response s1 None l).2 = inr (mount_handles (lst_f l))
    /\ mounts (reload_response s1 None l).1 = mount_handles (lst_f l).
Proof.
  intros Hs Hc Hn Hd. unfold reload. rewrite Hs.
  cbn [api set_mounts].
  rewrite RequestFacts.request_send_shape by (rewrite Hc; reflexivity).
  eexists _, _. split; [reflexivity|].
  unfold reload_response. cbn [fst snd].
  rewrite first_load_mounts_fold; [split; reflexivity | exact Hn | exact Hd].
Qed.

Lemma first_load_mounts_witness :
  exists s1 sent,
    reload Samples.empty_storage false = Requested s1 sent
    /\ (reload_response s1 None Samples.drive_listing).2 = inr ["root"].
Proof.
  destruct (first_load_mounts Samples.empty_storage false Samples.drive_listing)
    as (s1 & sent & H1 & H2 & _).
  - reflexivity.
  - reflexivity.
  - repeat constructor.
  - vm_compute. repeat constructor; intros H; repeat (apply elem_of_cons in H as [H|H]; [discriminate H|]); inversion H.
  - exists s1, sent. split; [exact H1 | exact H2].
Defined.

Lemma load_node_known_handle ph s f :
  is_Some (files s !! h f) ->
  mounts (load_node ph s f) = mounts s
  /\ (forall x, par_of (files (load_node ph s f)) x = par_of (files s) x)
  /\ (forall x, kids_of (files (load_node ph s f)) x = kids_of (files s) x).
Proof.
  intros [x Hx]. unfold load_node. rewrite (StorageFacts.importFile_known s f x Hx).
  destruct ph as [ph|]; [|repeat split]. rewrite Hx.
  split; [reflexivity|]. split; intros y; cbn [files update_file set_files].
  - apply StorageFacts.par_of_alter_pres. reflexivity.
  - apply StorageFacts.kids_of_alter_pres. reflexivity.
Qed.

Lemma reload_again_fold ph l :
  forall s,
    Forall (fun f => is_Some (files s !! h f)) l ->
    mounts (fold_left (load_node ph) l s) = mounts s
    /\ (forall x, par_of (files (fold_left (load_node ph) l s)) x = par_of (files s) x)
    /\ (forall x, kids_of (files (fold_left (load_node ph) l s)) x = kids_of (files s) x).
Proof.
  induction l as [|f l IH]; intros s Hk; [repeat split|].
  inversion Hk as [|? ? Hf Hl]; subst. cbn [fold_left].
  destruct (load_node_known_handle ph s f Hf) as (Hm & Hp & Hc).
  destruct (IH (load_node ph s f)) as (Hm' & Hp' & Hc').
  - apply Forall_forall. intros g Hg. apply StorageFacts.load_node_present. left.
    rewrite Forall_forall in Hl. apply Hl. exact Hg.
  - split; [congruence|]. split; intros x; [rewrite Hp' | rewrite Hc']; auto.
Qed.

(** X16: a reload of a listing whose handles the table already has
    imports nothing, since [_importFile] leaves a known handle
    alone: no parent and no list of children changes, even where the
    listing names other parents.  As reload has emptied
    [this.mounts] and only a new record is pushed to it, the callback
    gets an empty list of mounts, and [this.mounts] stays empty. *)
Theorem reload_again_changes_nothing s force l :
  (is_connecting (status s) && negb force)%bool = false ->
  API.closed (api s) = false ->
  Forall (fun f => is_Some (files s !! h f)) (lst_f l) ->
  exists s1 sent,
    reload s force = Requested s1 sent
    /\ (reload_response s1 None l).2 = inr []
    /\ mounts (reload_response s1 None l).1 = []
    /\ (forall x, par_of (files (reload_response s1 None l).1) x = par_of (files s) x)
    /\ (forall x, kids_of (files (reload_response s1 None l).1) x = kids_of (files s) x).
Proof.
  intros Hs Hc Hk. unfold reload. rewrite Hs. cbn [api set_mounts].
  rewrite RequestFacts.request_send_shape by (rewrite Hc; reflexivity).
  eexists _, _. split; [reflexivity|].
  unfold reload_response. cbn [fst snd].
  match goal with
  | |- context [fold_left _ _ ?s0] =>
      destruct (reload_again_fold (lst_ph l) (lst_f l) s0) as (Hm & Hp & Hk');
        [exact Hk|]
  end.
  rewrite Hm. split; [reflexivity|]. split; [reflexivity|]. split; assumption.
Qed.

Lemma reload_again_changes_nothing_witness :
  exists s1 sent,
    reload Samples.drive false = Requested s1 sent
    /\ (reload_response s1 None Samples.drive_listing).2 = inr []
    /\ mounts Samples.drive = ["root"].
Proof.
  destruct (reload_again_changes_nothing Samples.drive false Samples.drive_listing)
    as (s1 & sent & H1 & H2 & _).
  - reflexivity.
  - reflexivity.
  - repeat constructor; vm_compute; eauto.
  - exists s1, sent. split; [exact H1|]. split; [exact H2 | reflexivity].
Defined.


(** The children lists after the import of a new record: as they
    were, or with the new handle appended to one of them. *)
Lemma imported_kids_shape m f nf x cs' :
  children nf = None ->
  kids_of (imported m f nf) x = Some (Some cs') ->
  kids_of m x = Some (Some cs')
  \/ exists cs0, cs' = cs0 ++ [h f] /\ (kids_of m x = Some (Some cs0) \/ cs0 = []).
Proof.
  intros Hnf Hk.
  assert (H1 : kids_of (<[h f := nf]> m) x = Some (Some cs') ->
               kids_of m x = Some (Some cs')).
  { unfold kids_of. rewrite lookup_insert.
    destruct (decide (h f = x)); simpl; [congruence | auto]. }
  unfold imported in Hk. destruct (p f) as [q|]; [|auto].
  destruct (q =? "")%string; [auto|].
  destruct (<[h f := nf]> m !! q) as [fq|] eqn:Hq; [|auto].
  rewrite StorageFacts.kids_of_alter_pres in Hk by reflexivity.
  unfold kids_of in Hk. rewrite lookup_alter in Hk.
  destruct (decide (q = x)) as [->|Hne]; [|auto].
  rewrite Hq in Hk. simpl in Hk. injection Hk as <-.
  right. exists (default [] (children fq)). split; [reflexivity|].
  rewrite lookup_insert in Hq. destruct (decide (h f = x)) as [E|].
  - injection Hq as <-. rewrite Hnf. right. reflexivity.
  - unfold kids_of. rewrite Hq. simpl.
    destruct (children fq) as [cs|]; [left | right]; reflexivity.
Qed.

Lemma load_node_distinct ph s f :
  children_known (files s) -> children_distinct (files s) ->
  children_distinct (files (load_node ph s f)).
Proof.
  intros Hk Hd.
  destruct (StorageFacts.load_node_files ph s f) as (m' & Hm' & _ & Hkids & _).
  intros x cs Hx. rewrite Hkids in Hx.
  destruct Hm' as [[-> _]|(Hnew & nf & _ & _ & Hnf & ->)]; [eapply Hd; eauto|].
  destruct (imported_kids_shape _ _ _ _ _ Hnf Hx) as [H0|(cs0 & -> & H0)];
    [eapply Hd; eauto|].
  apply NoDup_app. split; [|split].
  - destruct H0 as [H0| ->]; [eapply Hd; eauto | constructor].
  - intros c Hc Hc'. apply list_elem_of_singleton in Hc'. subst c.
    destruct H0 as [H0| ->]; [|inversion Hc].
    destruct (Hk x cs0 (h f) H0 Hc) as [? ?]. congruence.
  - apply NoDup_singleton.
Qed.

Lemma children_distinct_empty : children_distinct (∅ : gmap string file).
Proof. intros x cs Hx. unfold kids_of in Hx. rewrite lookup_empty in Hx. discriminate. Qed.

(** X17: the shape of the file graph that every load keeps, and that
    the first load therefore establishes: an object sits under its own
    handle, an object that has a parent is among the children of that
    parent, every child listed is an object of the table, and no
    object lists a child twice. *)
Theorem load_keeps_graph_shape s l :
  linked_graph (files s) ->
  children_known (files s) ->
  children_distinct (files s) ->
  let s' := (reload_response s None l).1 in
  linked_graph (files s') /\ children_known (files s') /\ children_distinct (files s').
Proof.
  intros Hl Hk Hd. cbn zeta. unfold reload_response. cbn [fst].
  apply (StorageFacts.fold_load_invariant
           (fun s0 => linked_graph (files s0) /\ children_known (files s0)
                      /\ children_distinct (files s0))).
  - intros s0 f (H1 & H2 & H3). split; [|split].
    + apply StorageFacts.load_node_linked. exact H1.
    + apply StorageFacts.load_node_known. exact H2.
    + apply load_node_distinct; assumption.
  - auto.
Qed.

Lemma load_keeps_graph_shape_witness :
  let s' := (reload_response Samples.empty_storage None Samples.orphan_listing).1 in
  linked_graph (files s') /\ children_known (files s') /\ children_distinct (files s').
Proof.
  apply (load_keeps_graph_shape Samples.empty_storage Samples.orphan_listing).
  - apply StorageFacts.linked_graph_empty.
  - apply StorageFacts.children_known_empty.
  - apply children_distinct_empty.
Defined.


Lemma importFile_ids s f :
  ids_ok (files s) -> ids_ok (files (_importFile s f).1).
Proof.
  intros Hi. destruct (files s !! h f) as [x|] eqn:E.
  - rewrite (StorageFacts.importFile_known s f x E). exact Hi.
  - destruct (StorageFacts.importFile_new s f E) as (nf & Hid & _ & _ & ->).
    apply StorageFacts.imported_ids; assumption.
Qed.

Lemma importFile_present s f : is_Some (files (_importFile s f).1 !! h f).
Proof.
  destruct (files s !! h f) as [x|] eqn:E.
  - rewrite (StorageFacts.importFile_known s f x E). cbn [fst]. rewrite E. eauto.
  - destruct (StorageFacts.importFile_new s f E) as (nf & _ & _ & _ & ->).
    apply StorageFacts.imported_lookup_new.
Qed.

Lemma load_node_ids ph s f :
  ids_ok (files s) -> ids_ok (files (load_node ph s f)).
Proof.
  intros Hi. unfold load_node. pose proof (importFile_ids s f Hi) as H1.
  destruct (_importFile s f) as [s1 x]. cbn [fst] in H1.
  destruct ph as [ph|]; [|exact H1]. destruct (files s1 !! x); [|exact H1].
  cbn [files update_file set_files]. apply StorageFacts.ids_alter; [reflexivity | exact H1].
Qed.

(** The load of a record sets the share fields of its object from
    the table of public handles. *)
Lemma load_node_share ph s f :
  ids_ok (files s) ->
  exists file,
    files (load_node (Some ph) s f) !! h f = Some file
    /\ shareId file = find_ph ph (h f)
    /\ shared file = Some (truthy (find_ph ph (h f))).
Proof.
  intros Hi. unfold load_node.
  pose proof (importFile_ids s f Hi) as H1.
  pose proof (importFile_present s f) as [file0 H2].
  pose proof (StorageFacts.importFile_handle s f) as H3.
  destruct (_importFile s f) as [s1 x]. cbn [fst snd] in *. subst x.
  rewrite H2. cbn [files update_file set_files]. rewrite lookup_alter_eq, H2.
  cbn [fmap option_fmap option_map]. eexists. split; [reflexivity|].
  rewrite (H1 _ _ H2). split; reflexivity.
Qed.

Lemma imported_share_other m f nf x file :
  x <> h f -> m !! x = Some file ->
  exists file', imported m f nf !! x = Some file'
                /\ shareId file' = shareId file /\ shared file' = shared file
                /\ MutableFile.name file' = MutableFile.name file.
Proof.
  intros Hne Hx.
  assert (H1 : <[h f := nf]> m !! x = Some file) by (rewrite lookup_insert_ne; auto).
  unfold imported. destruct (p f) as [q|]; [|eauto].
  destruct (q =? "")%string; [eauto|].
  destruct (<[h f := nf]> m !! q); [|eauto].
  rewrite lookup_alter_ne by congruence. rewrite lookup_alter.
  destruct (decide (q = x)) as [->|]; [|eauto].
  rewrite H1. cbn. eexists. split; [reflexivity|]. repeat split.
Qed.

Lemma load_node_share_other ph s f x file :
  x <> h f -> files s !! x = Some file ->
  exists file', files (load_node ph s f) !! x = Some file'
                /\ shareId file' = shareId file /\ shared file' = shared file
                /\ MutableFile.name file' = MutableFile.name file.
Proof.
  intros Hne Hx. unfold load_node.
  pose proof (StorageFacts.importFile_handle s f) as H3.
  assert (H4 : exists file', files (_importFile s f).1 !! x = Some file'
               /\ shareId file' = shareId file /\ shared file' = shared file
               /\ MutableFile.name file' = MutableFile.name file).
  { destruct (files s !! h f) as [y|] eqn:E.
    - rewrite (StorageFacts.importFile_known s f y E). eauto.
    - destruct (StorageFacts.importFile_new s f E) as (nf & _ & _ & _ & ->).
      apply imported_share_other; assumption. }
  destruct (_importFile s f) as [s1 y]. cbn [fst snd] in *. subst y.
  destruct ph as [ph|]; [|exact H4]. destruct (files s1 !! h f); [|exact H4].
  cbn [files update_file set_files]. rewrite lookup_alter_ne by congruence. exact H4.
Qed.

Lemma share_fold ph l x :
  forall s,
    ids_ok (files s) ->
    Exists (fun f => h f = x) l
    \/ (exists file, files s !! x = Some file
        /\ shareId file = find_ph ph x /\ shared file = Some (truthy (find_ph ph x))) ->
    exists file, files (fold_left (load_node (Some ph)) l s) !! x = Some file
      /\ shareId file = find_ph ph x /\ shared file = Some (truthy (find_ph ph x)).
Proof.
  induction l as [|g l IH]; intros s Hi H.
  - destruct H as [H|H]; [inversion H | exact H].
  - cbn [fold_left]. apply IH; [apply load_node_ids; exact Hi|].
    destruct (decide (h g = x)) as [E|E].
    + right. subst x. apply load_node_share. exact Hi.
    + destruct H as [H|(file & Hx & H1 & H2)].
      * left. inversion H; subst; [contradiction | assumption].
      * right. destruct (load_node_share_other (Some ph) s g x file) as (file' & ? & ? & ? & _);
          [congruence | exact Hx |]. exists file'. repeat split; congruence.
Qed.

(** X18: after a load whose listing has a table of public handles,
    the object of every record of the listing, whether the record was
    new or its handle already known, has its share id taken from the
    first entry of that table with its handle ([undefined] when there
    is none), and is flagged as shared exactly when that id is truthy. *)
Theorem share_flags_follow_listing s l ph f :
  ids_ok (files s) ->
  f ∈ l ->
  exists file,
    files (reload_response s None (mkListing l (Some ph))).1 !! h f = Some file
    /\ shareId file = find_ph ph (h f)
    /\ shared file = Some (truthy (find_ph ph (h f))).
Proof.
  intros Hi Hf. unfold reload_response. cbn [fst lst_f lst_ph].
  apply share_fold; [exact Hi|]. left. apply Exists_exists. exists f. auto.
Qed.

Lemma share_flags_follow_listing_witness :
  exists file,
    files (reload_response Samples.drive None
             (mkListing [Samples.record "file2" (Some "dirB") 0;
                         Samples.record "file7" (Some "dirB") 0]
                        (Some [("file7", VStr "AbCdEfGh"); ("file7", VStr "other")]))).1
      !! "file2" = Some file
    /\ shareId file = VUndef
    /\ shared file = Some false.
Proof.
  apply (share_flags_follow_listing Samples.drive
           [Samples.record "file2" (Some "dirB") 0;
            Samples.record "file7" (Some "dirB") 0]
           [("file7", VStr "AbCdEfGh"); ("file7", VStr "other")]
           (Samples.record "file2" (Some "dirB") 0)).
  - apply (StorageFacts.reload_response_linked Samples.empty_storage Samples.drive_listing).
    apply StorageFacts.linked_graph_empty.
  - apply list_elem_of_here.
Defined.


(** *** Change batches *)





(** [splice] at the position that [indexOf] gives. *)
Lemma index_of_absent {A} `{EqDecision A} (x : A) (l : list A) :
  x ∉ l -> index_of x l = None.
Proof.
  induction l as [|y r IH]; intros Hx; [reflexivity|].
  cbn [index_of]. destruct (decide (y = x)) as [->|].
  - exfalso. apply Hx. apply list_elem_of_here.
  - rewrite IH; [reflexivity|]. intros H'. apply Hx. apply list_elem_of_further. exact H'.
Qed.

Lemma delete_last {A} (l : list A) : delete (length l - 1)%nat l = removelast l.
Proof.
  induction l as [|a [|b r] IH]; [reflexivity | reflexivity |].
  cbn [length] in *. replace (S (S (length r)) - 1)%nat with (S (S (length r) - 1)) by lia.
  cbn [delete list_delete]. change (removelast (a :: b :: r)) with (a :: removelast (b :: r)).
  f_equal. exact IH.
Qed.

Lemma splice_absent {A} `{EqDecision A} (x : A) (l : list A) :
  x ∉ l -> splice1 (indexOf x l) l = removelast l.
Proof.
  intros Hx. unfold indexOf. rewrite (index_of_absent x l Hx). unfold splice1.
  cbn [Z.ltb Z.compare]. rewrite <- delete_last. f_equal. lia.
Qed.

Lemma filter_others {A} `{EqDecision A} (x : A) (l : list A) :
  x ∉ l -> filter (fun y => y <> x) l = l.
Proof.
  induction l as [|y r IH]; intros Hx; [reflexivity|].
  rewrite filter_cons_True.
  - f_equal. apply IH. intros H'. apply Hx. apply list_elem_of_further. exact H'.
  - intros ->. apply Hx. apply list_elem_of_here.
Qed.

Lemma delete_index_of {A} `{EqDecision A} (x : A) (l : list A) :
  NoDup l -> forall i, index_of x l = Some i -> delete i l = filter (fun y => y <> x) l.
Proof.
  induction l as [|y r IH]; intros Hd i Hi; [discriminate Hi|].
  apply NoDup_cons in Hd as [Hy Hd]. cbn [index_of] in Hi.
  destruct (decide (y = x)) as [->|Hne].
  - injection Hi as <-. cbn [delete list_delete].
    rewrite filter_cons_False by (intros H'; apply H'; reflexivity).
    symmetry. apply filter_others. exact Hy.
  - destruct (index_of x r) as [j|] eqn:Ej; [|discriminate Hi].
    injection Hi as <-. cbn [delete list_delete].
    rewrite filter_cons_True by exact Hne. f_equal. apply IH; [exact Hd | reflexivity].
Qed.

Lemma splice_present {A} `{EqDecision A} (x : A) (l : list A) :
  NoDup l -> x ∈ l -> splice1 (indexOf x l) l = filter (fun y => y <> x) l.
Proof.
  intros Hd Hx. unfold indexOf.
  destruct (StorageFacts.index_of_elem x l Hx) as [i Hi]. rewrite Hi.
  pose proof (StorageFacts.index_of_length x l i Hi) as Hlen.
  unfold splice1. replace (Z.of_nat i <? 0) with false by (symmetry; apply Z.ltb_ge; lia).
  replace (Z.to_nat (Z.min (Z.of_nat i) (Z.of_nat (length l)))) with i by lia.
  apply delete_index_of; assumption.
Qed.

(** The handler on a batch that is one delete of a known object
    whose parent is known and has children. *)
Lemma sc_delete_known s n file q fq cs :
  files s !! n = Some file -> parent file = Some q ->
  files s !! q = Some fq -> children fq = Some cs ->
  sc_handler s [ActD n]
    = (update_file q (set_children (Some (splice1 (indexOf n cs) cs))) s,
       [Delete n; FileDelete n], None).
Proof.
  intros Hn Hp Hq Hc. unfold sc_handler. cbn [forEach apply_action]. unfold mark.
  cbn [deleted st emitted].
  rewrite decide_False by (intros H; inversion H). cbn [app].
  rewrite StorageFacts.keys_singleton. cbn [forEach]. unfold finalize. cbn [st].
  rewrite Hn, Hp, Hq, Hc. reflexivity.
Qed.

(** X20: a delete takes the object out of the children of its parent
    and emits the two delete events, and that is all: the object
    stays in the table under its handle with its parent field set,
    and the mounts are not touched.  When the parent lists each child
    once, its children afterwards are the others, in their order. *)
Theorem delete_detaches_only s n file q fq cs :
  files s !! n = Some file -> parent file = Some q ->
  files s !! q = Some fq -> children fq = Some cs ->
  n ∈ cs -> NoDup cs ->
  exists s',
    sc_handler s [ActD n] = (s', [Delete n; FileDelete n], None)
    /\ par_of (files s') n = Some (Some q)
    /\ kids_of (files s') q = Some (Some (filter (fun m => m <> n) cs))
    /\ mounts s' = mounts s
    /\ forall x, x <> q -> files s' !! x = files s !! x.
Proof.
  intros Hn Hp Hq Hc Hin Hd. eexists.
  split; [apply (sc_delete_known s n file q fq cs); assumption|].
  cbn [files update_file set_files]. split; [|split; [|split]].
  - rewrite StorageFacts.par_of_alter_pres by reflexivity.
    unfold par_of. rewrite Hn. cbn. rewrite Hp. reflexivity.
  - unfold kids_of. rewrite lookup_alter_eq, Hq. cbn.
    rewrite splice_present by assumption. reflexivity.
  - reflexivity.
  - intros x Hx. apply lookup_alter_ne. congruence.
Qed.

Lemma delete_detaches_only_witness :
  exists s',
    sc_handler Samples.drive [ActD "file2"] = (s', [Delete "file2"; FileDelete "file2"], None)
    /\ par_of (files s') "file2" = Some (Some "dirA")
    /\ kids_of (files s') "dirA" = Some (Some ["file1"; "file3"]).
Proof.
  destruct (delete_detaches_only Samples.drive "file2"
              (mkFile "file2" 0 false None (VNum 1700000000) (VStr "YXR0cg")
                 (Some "dirA") None VUndef None)
              "dirA"
              (mkFile "dirA" 1 true None (VNum 1700000000) (VStr "YXR0cg")
                 (Some "root") (Some ["file1"; "file2"; "file3"]) VUndef None)
              ["file1"; "file2"; "file3"])
    as (s' & H1 & H2 & H3 & _); try reflexivity.
  - apply list_elem_of_further, list_elem_of_here.
  - repeat constructor; StorageFacts.not_among.
  - exists s'. split; [exact H1|]. split; [exact H2 | exact H3].
Defined.

(** X21: a delete of an object that its parent no longer lists takes
    the last child of that parent out instead: [indexOf] gives -1 and
    [splice(-1, 1)] removes the last element.  So when a handle is
    deleted by one batch and again by a later one, the second delete
    removes a sibling that no batch has named, and emits the delete
    events for the handle a second time. *)
Theorem repeated_delete_removes_sibling s n file q fq cs :
  files s !! n = Some file -> parent file = Some q ->
  files s !! q = Some fq -> children fq = Some cs ->
  n ∈ cs -> NoDup cs ->
  exists s1 s2,
    sc_handler s [ActD n] = (s1, [Delete n; FileDelete n], None)
    /\ sc_handler s1 [ActD n] = (s2, [Delete n; FileDelete n], None)
    /\ kids_of (files s1) q = Some (Some (filter (fun m => m <> n) cs))
    /\ kids_of (files s2) q
       = Some (Some (removelast (filter (fun m => m <> n) cs))).
Proof.
  intros Hn Hp Hq Hc Hin Hd.
  pose (cs1 := filter (fun m => m <> n) cs).
  pose (s1 := update_file q (set_children (Some (splice1 (indexOf n cs) cs))) s).
  assert (Hq1 : files s1 !! q = Some (set_children (Some cs1) fq)).
  { unfold s1. cbn [files update_file set_files]. rewrite lookup_alter_eq, Hq. cbn.
    rewrite splice_present by assumption. reflexivity. }
  assert (Hn1 : exists file1, files s1 !! n = Some file1 /\ parent file1 = Some q).
  { unfold s1. cbn [files update_file set_files]. rewrite lookup_alter.
    destruct (decide (q = n)) as [->|E].
    - rewrite Hn. cbn. eexists. split; [reflexivity|]. exact Hp.
    - eauto. }
  destruct Hn1 as (file1 & Hn1 & Hp1).
  assert (Hnot : n ∉ cs1).
  { unfold cs1. intros H. apply list_elem_of_filter in H as [H _]. apply H. reflexivity. }
  exists s1, (update_file q (set_children (Some (splice1 (indexOf n cs1) cs1))) s1).
  split; [apply (sc_delete_known s n file q fq cs); assumption|].
  split; [apply (sc_delete_known s1 n file1 q (set_children (Some cs1) fq) cs1);
          auto|].
  split.
  - unfold kids_of. rewrite Hq1. reflexivity.
  - unfold kids_of. cbn [files update_file set_files]. rewrite lookup_alter_eq, Hq1. cbn.
    rewrite splice_absent by exact Hnot. reflexivity.
Qed.

Lemma repeated_delete_removes_sibling_witness :
  exists s1 s2,
    sc_handler Samples.drive [ActD "file1"] = (s1, [Delete "file1"; FileDelete "file1"], None)
    /\ sc_handler s1 [ActD "file1"] = (s2, [Delete "file1"; FileDelete "file1"], None)
    /\ kids_of (files s1) "dirA" = Some (Some ["file2"; "file3"])
    /\ kids_of (files s2) "dirA" = Some (Some ["file2"]).
Proof.
  destruct (repeated_delete_removes_sibling Samples.drive "file1"
              (mkFile "file1" 0 false None (VNum 1700000000) (VStr "YXR0cg")
                 (Some "dirA") None VUndef None)
              "dirA"
              (mkFile "dirA" 1 true None (VNum 1700000000) (VStr "YXR0cg")
                 (Some "root") (Some ["file1"; "file2"; "file3"]) VUndef None)
              ["file1"; "file2"; "file3"])
    as (s1 & s2 & H1 & H2 & H3 & H4); try reflexivity.
  - apply list_elem_of_here.
  - repeat constructor; StorageFacts.not_among.
  - exists s1, s2. split; [exact H1|]. split; [exact H2|]. split; [exact H3 | exact H4].
Defined.

(** X22: an object without a parent (a mount such as the drive, or
    an orphan of the load) can be neither deleted nor moved by a change
    batch: either action makes the handler throw a TypeError, on
    [parent.children] and on [oldparent.nodeId], with the storage
    unchanged and nothing emitted. *)
Theorem parentless_cannot_move_or_delete s x file :
  files s !! x = Some file -> parent file = None ->
  sc_handler s [ActD x] = (s, [], Some (undefined_read "children"))
  /\ forall r, h r = x ->
       sc_handler s [ActT [r]] = (s, [], Some (undefined_read "nodeId")).
Proof.
  intros Hx Hp. split.
  - unfold sc_handler. cbn [forEach apply_action]. unfold mark.
    cbn [deleted st emitted].
    rewrite decide_False by (intros H; inversion H). cbn [app].
    rewrite StorageFacts.keys_singleton. cbn [forEach]. unfold finalize. cbn [st].
    rewrite Hx, Hp. reflexivity.
  - intros r <-. unfold sc_handler. cbn [forEach apply_action]. unfold move_or_add.
    cbn [st]. rewrite Hx, Hp. reflexivity.
Qed.

Lemma parentless_cannot_move_or_delete_witness :
  sc_handler Samples.drive [ActD "root"]
    = (Samples.drive, [], Some (undefined_read "children"))
  /\ sc_handler Samples.drive [ActT [Samples.record "root" (Some "dirA") 2]]
    = (Samples.drive, [], Some (undefined_read "nodeId")).
Proof.
  destruct (parentless_cannot_move_or_delete Samples.drive "root"
              (mkFile "root" 2 true (Some "Cloud Drive") (VNum 1700000000) (VStr "YXR0cg")
                 None (Some ["dirA"; "dirB"]) VUndef None))
    as [H1 H2]; try reflexivity.
  split; [exact H1|]. apply H2. reflexivity.
Defined.

(** X23: a move to a parent that the table does not have leaves the
    object detached.  By the time the handler reads the children of
    the new parent and throws, it has taken the object out of the
    children of the old one and has set its parent to [undefined]; no
    event is emitted. *)
Theorem move_to_unknown_parent s r file op fop cs :
  files s !! h r = Some file -> parent file = Some op ->
  files s !! op = Some fop -> children fop = Some cs ->
  Some (nodeId fop) <> p r ->
  files s !! default "undefined" (p r) = None ->
  exists s',
    sc_handler s [ActT [r]] = (s', [], Some (undefined_read "children"))
    /\ par_of (files s') (h r) = Some None
    /\ (op <> h r ->
        kids_of (files s') op = Some (Some (splice1 (indexOf (h r) cs) cs)))
    /\ forall x, is_Some (files s' !! x) <-> is_Some (files s !! x).
Proof.
  intros Hx Hp Hop Hc Hne Hq.
  exists (update_file (h r) (set_parent None)
            (update_file op (set_children (Some (splice1 (indexOf (h r) cs) cs))) s)).
  split.
  - unfold sc_handler. cbn [forEach apply_action]. unfold move_or_add.
    cbn [st unmark]. rewrite Hx, Hp, Hop.
    rewrite decide_False by exact Hne. rewrite Hc.
    cbn [on_st st files update_file set_files].
    rewrite lookup_alter_ne by (intros E; rewrite <- E, Hop in Hq; discriminate Hq).
    unfold unmark. cbn [st deleted emitted]. rewrite Hq. reflexivity.
  - cbn [files update_file set_files]. split; [|split].
    + unfold par_of. rewrite lookup_alter_eq.
      assert (Hs : is_Some (alter (set_children (Some (splice1 (indexOf (h r) cs) cs)))
                              op (files s) !! h r))
        by (apply lookup_alter_is_Some; eauto).
      destruct Hs as [f1 ->]. reflexivity.
    + intros Hd. unfold kids_of. rewrite lookup_alter_ne by congruence.
      rewrite lookup_alter_eq, Hop. reflexivity.
    + intros x. rewrite !lookup_alter_is_Some. reflexivity.
Qed.

Lemma move_to_unknown_parent_witness :
  exists s',
    sc_handler Samples.drive [ActT [Samples.record "file1" (Some "dirZ") 0]]
      = (s', [], Some (undefined_read "children"))
    /\ par_of (files s') "file1" = Some None
    /\ kids_of (files s') "dirA" = Some (Some ["file2"; "file3"]).
Proof.
  destruct (move_to_unknown_parent Samples.drive (Samples.record "file1" (Some "dirZ") 0)
              (mkFile "file1" 0 false None (VNum 1700000000) (VStr "YXR0cg")
                 (Some "dirA") None VUndef None)
              "dirA"
              (mkFile "dirA" 1 true None (VNum 1700000000) (VStr "YXR0cg")
                 (Some "root") (Some ["file1"; "file2"; "file3"]) VUndef None)
              ["file1"; "file2"; "file3"])
    as (s' & H1 & H2 & H3 & _); try reflexivity.
  - discriminate.
  - exists s'. split; [exact H1|]. split; [exact H2|]. apply H3. discriminate.
Defined.


Lemma move_or_add_linked y f y' :
  linked_graph (files (st y)) -> move_or_add y f = (y', None) ->
  linked_graph (files (st y')).
Proof.
  intros Hg H.
  destruct (StorageFacts.move_or_add_cases y f y' H)
    as [(Hnew & (nf & Hid & Hp & _ & Hf) & _)
       |[(file & op & fop & _ & _ & _ & _ & Hst & _)
        |(file & op & fop & cs & Hx & Hp & Hop & Hc & Hq & Hf & _)]].
  - rewrite Hf. apply StorageFacts.imported_linked; assumption.
  - rewrite Hst. exact Hg.
  - rewrite Hf. destruct Hg as [Hids Hl]. split.
    + apply StorageFacts.moved_ids. exact Hids.
    + intros z. eapply StorageFacts.moved_linked_at; eauto.
Qed.

Lemma move_or_add_deleted y f y' :
  deleted y = [] -> move_or_add y f = (y', None) -> deleted y' = [].
Proof.
  intros Hd H.
  destruct (StorageFacts.move_or_add_cases y f y' H)
    as [(_ & _ & Hd' & _)
       |[(file & op & fop & _ & _ & _ & _ & _ & Hd' & _)
        |(file & op & fop & cs & _ & _ & _ & _ & _ & _ & Hd' & _)]];
    rewrite Hd', Hd; reflexivity.
Qed.

Lemma apply_action_linked y o y' :
  linked_graph (files (st y)) -> apply_action y o = (y', None) ->
  linked_graph (files (st y')).
Proof.
  intros Hg H. destruct o as [n ts at_|n|f|a]; cbn [apply_action] in H.
  - destruct (files (st y) !! n); injection H as <-; [|exact Hg].
    cbn [st emit on_st files update_file set_files].
    apply StorageFacts.altered_linked; [intros f0; repeat split|].
    apply StorageFacts.altered_linked; [intros f0; repeat split|]. exact Hg.
  - injection H as <-. exact Hg.
  - apply (StorageFacts.forEach_invariant move_or_add
             (fun y0 => linked_graph (files (st y0))) (fun _ => True) f y y');
      [|apply Forall_forall; auto | exact Hg | exact H].
    intros y0 x y1 _ H0 H1. eapply move_or_add_linked; eauto.
  - injection H as <-. exact Hg.
Qed.

Lemma apply_action_deleted y o y' :
  is_delete o = false -> deleted y = [] -> apply_action y o = (y', None) ->
  deleted y' = [].
Proof.
  intros Ho Hd H. destruct o as [n ts at_|n|f|a]; cbn [apply_action] in H;
    try discriminate Ho.
  - destruct (files (st y) !! n); injection H as <-; exact Hd.
  - apply (StorageFacts.forEach_invariant move_or_add
             (fun y0 => deleted y0 = []) (fun _ => True) f y y');
      [|apply Forall_forall; auto | exact Hd | exact H].
    intros y0 x y1 _ H0 H1. eapply move_or_add_deleted; eauto.
  - injection H as <-. exact Hd.
Qed.

(** X24: a move record for a known object, naming a known parent
    other than the one it has, relocates it: the object leaves the
    children of the old parent, its parent field names the new one,
    it is appended to the children of the new parent (created if that
    parent had none), and 'move' is emitted on the file and then on the
    storage, both with the old parent. *)
Theorem move_relocates s r file op fop cs q fq :
  files s !! h r = Some file -> parent file = Some op ->
  files s !! op = Some fop -> children fop = Some cs ->
  p r = Some q -> q <> nodeId fop ->
  files s !! q = Some fq ->
  q <> op -> op <> h r -> q <> h r ->
  exists s',
    sc_handler s [ActT [r]] = (s', [FileMove (h r) op; Move (h r) op], None)
    /\ par_of (files s') (h r) = Some (Some q)
    /\ kids_of (files s') op = Some (Some (splice1 (indexOf (h r) cs) cs))
    /\ kids_of (files s') q = Some (Some (default [] (children fq) ++ [h r]))
    /\ mounts s' = mounts s.
Proof.
  intros Hx Hp Hop Hc Hpr Hne Hq Hqo Hox Hqx.
  exists (update_file q (push_child (h r))
            (update_file (h r) (set_parent (Some q))
               (update_file op (set_children (Some (splice1 (indexOf (h r) cs) cs))) s))).
  split.
  - unfold sc_handler. cbn [forEach apply_action]. unfold move_or_add.
    cbn [st unmark]. rewrite Hx, Hp, Hop.
    rewrite decide_False by (rewrite Hpr; congruence). rewrite Hc.
    cbn [on_st st files update_file set_files]. rewrite Hpr.
    change (default "undefined" (Some q)) with q.
    rewrite lookup_alter_ne by congruence.
    unfold unmark. cbn [st deleted emitted]. rewrite Hq.
    cbn [on_st emit st deleted emitted app].
    change (filter (fun m : string => m <> h r) []) with (@nil string).
    change (keys []) with (@nil string). reflexivity.
  - cbn [files update_file set_files mounts]. split; [|split; [|split]].
    + unfold par_of. rewrite lookup_alter_ne by congruence.
      rewrite lookup_alter_eq. rewrite lookup_alter_ne by congruence. rewrite Hx.
      reflexivity.
    + unfold kids_of. rewrite lookup_alter_ne by congruence.
      rewrite lookup_alter_ne by congruence. rewrite lookup_alter_eq, Hop. reflexivity.
    + unfold kids_of. rewrite lookup_alter_eq. rewrite lookup_alter_ne by congruence.
      rewrite lookup_alter_ne by congruence. rewrite Hq. reflexivity.
    + reflexivity.
Qed.

Lemma move_relocates_witness :
  exists s',
    sc_handler Samples.drive [ActT [Samples.record "file2" (Some "dirB") 0]]
      = (s', [FileMove "file2" "dirA"; Move "file2" "dirA"], None)
    /\ par_of (files s') "file2" = Some (Some "dirB")
    /\ kids_of (files s') "dirA" = Some (Some ["file1"; "file3"])
    /\ kids_of (files s') "dirB" = Some (Some ["file2"]).
Proof.
  destruct (move_relocates Samples.drive (Samples.record "file2" (Some "dirB") 0)
              (mkFile "file2" 0 false None (VNum 1700000000) (VStr "YXR0cg")
                 (Some "dirA") None VUndef None)
              "dirA"
              (mkFile "dirA" 1 true None (VNum 1700000000) (VStr "YXR0cg")
                 (Some "root") (Some ["file1"; "file2"; "file3"]) VUndef None)
              ["file1"; "file2"; "file3"]
              "dirB"
              (mkFile "dirB" 1 true None (VNum 1700000000) (VStr "YXR0cg")
                 (Some "root") None VUndef None))
    as (s' & H1 & H2 & H3 & H4 & _);
    [vm_compute; reflexivity | reflexivity | vm_compute; reflexivity | reflexivity
    | reflexivity | discriminate | vm_compute; reflexivity
    | discriminate | discriminate | discriminate |].
  exists s'. split; [exact H1|]. split; [exact H2|]. split; [exact H3 | exact H4].
Defined.

(** X25: a batch without a delete that the handler gets through
    keeps the graph linked: afterwards every object still sits under
    its own handle, and every object that has a parent, the added and
    the moved ones included, is among the children of that parent. *)
Theorem adds_and_moves_keep_links s arr s' evs :
  linked_graph (files s) ->
  Forall (fun o => is_delete o = false) arr ->
  sc_handler s arr = (s', evs, None) ->
  linked_graph (files s').
Proof.
  intros Hg Hn H. unfold sc_handler in H.
  destruct (forEach apply_action arr (mkSync s [] [])) as [y e] eqn:E.
  destruct e as [e|]; [discriminate H|].
  assert (Hy : linked_graph (files (st y)) /\ deleted y = []).
  { apply (StorageFacts.forEach_invariant apply_action
             (fun y0 => linked_graph (files (st y0)) /\ deleted y0 = [])
             (fun o => is_delete o = false) arr (mkSync s [] []) y);
      [|exact Hn | split; [exact Hg | reflexivity] | exact E].
    intros y0 o y1 Ho [H0 H0'] H1. split.
    - eapply apply_action_linked; eauto.
    - eapply apply_action_deleted; eauto. }
  destruct Hy as [Hl Hd]. rewrite Hd in H.
  change (keys []) with (@nil string) in H. cbn [forEach] in H.
  injection H as <- _. exact Hl.
Qed.

Lemma adds_and_moves_keep_links_witness :
  linked_graph
    (files (sc_handler Samples.drive
              [ActT [Samples.record "file1" (Some "dirB") 0;
                     Samples.record "file4" (Some "dirB") 0];
               ActU "file2" (VNum 1700000005) (VStr "bmV3")]).1.1).
Proof.
  apply (adds_and_moves_keep_links Samples.drive
           [ActT [Samples.record "file1" (Some "dirB") 0;
                  Samples.record "file4" (Some "dirB") 0];
            ActU "file2" (VNum 1700000005) (VStr "bmV3")]
           _
           [FileMove "file1" "dirA"; Move "file1" "dirA"; Add "file4";
            FileUpdate "file2"; Update "file2"]).
  - apply (StorageFacts.reload_response_linked Samples.empty_storage Samples.drive_listing).
    apply StorageFacts.linked_graph_empty.
  - repeat constructor.
  - vm_compute. reflexivity.
Defined.


(** *** The mount points of the first load *)

Lemma importFile_roots s f :
  files s !! h f = None ->
  root (_importFile s f).1 = (if t f =? NODE_TYPE_DRIVE then Some (h f) else root s)
  /\ trash (_importFile s f).1
     = (if t f =? NODE_TYPE_RUBBISH_BIN then Some (h f) else trash s)
  /\ inbox (_importFile s f).1 = (if t f =? NODE_TYPE_INBOX then Some (h f) else inbox s).
Proof.
  intros H. unfold _importFile. rewrite H. cbn zeta. cbn [fst].
  destruct (t f =? NODE_TYPE_DRIVE), (t f =? NODE_TYPE_RUBBISH_BIN),
    (t f =? NODE_TYPE_INBOX), (1 <? t f);
    repeat match goal with
           | |- context [match p f with Some _ => _ | None => _ end] => destruct (p f)
           | |- context [if (?a =? ?b)%string then _ else _] => destruct (a =? b)%string
           | |- context [match ?m !! ?k with Some _ => _ | None => _ end] =>
               destruct (m !! k)
           end; repeat split.
Qed.

Lemma load_node_roots ph s f :
  root (load_node ph s f) = root (_importFile s f).1
  /\ trash (load_node ph s f) = trash (_importFile s f).1
  /\ inbox (load_node ph s f) = inbox (_importFile s f).1.
Proof.
  unfold load_node. destruct (_importFile s f) as [s1 x]. cbn [fst].
  destruct ph; [destruct (files s1 !! x)|]; repeat split.
Qed.

Lemma last_of_type_cons k f l :
  last_of_type k (f :: l)
    = match last_of_type k l with
      | Some x => Some x
      | None => if t f =? k then Some (h f) else None
      end.
Proof.
  unfold last_of_type. cbn [List.filter]. destruct (t f =? k).
  - rewrite last_cons. destruct (last (List.filter _ l)); reflexivity.
  - destruct (last (List.filter _ l)); reflexivity.
Qed.

Lemma fold_mount_point ph k (proj : storage -> option string) :
  (forall s f, files s !! h f = None ->
     proj (load_node ph s f) = if t f =? k then Some (h f) else proj s) ->
  forall l s,
    Forall (fun f => files s !! h f = None) l ->
    NoDup (h <$> l) ->
    proj (fold_left (load_node ph) l s)
      = match last_of_type k l with Some x => Some x | None => proj s end.
Proof.
  intros Hstep. induction l as [|f l IH]; intros s Hn Hd; [reflexivity|].
  inversion Hn as [|? ? Hf Hl]; subst. rewrite fmap_cons in Hd.
  apply NoDup_cons in Hd as [Hnot Hd].
  cbn [fold_left]. rewrite IH; [| |exact Hd].
  - rewrite last_of_type_cons. destruct (last_of_type k l); [reflexivity|].
    rewrite Hstep by exact Hf. destruct (t f =? k); reflexivity.
  - apply Forall_forall. intros g Hg. apply StorageFacts.load_node_absent.
    + rewrite Forall_forall in Hl. apply Hl. exact Hg.
    + intros E. apply Hnot. rewrite <- E. apply list_elem_of_fmap_2. exact Hg.
Qed.

(** The object that the import of a new record of a mount type
    enters carries the name of that mount. *)
Lemma importFile_named s f :
  files s !! h f = None ->
  exists file,
    files (_importFile s f).1 !! h f = Some file
    /\ (t f = NODE_TYPE_DRIVE -> MutableFile.name file = Some "Cloud Drive")
    /\ (t f = NODE_TYPE_RUBBISH_BIN -> MutableFile.name file = Some "Rubbish Bin")
    /\ (t f = NODE_TYPE_INBOX -> MutableFile.name file = Some "Inbox").
Proof.
  intros H. unfold _importFile. rewrite H.
  unfold NODE_TYPE_DRIVE, NODE_TYPE_RUBBISH_BIN, NODE_TYPE_INBOX.
  set (s0 := set_files (<[h f := new_MutableFile f]> (files s)) s).
  set (s1 := if t f =? 2 then _ else s0).
  set (s2 := if t f =? 4 then _ else s1).
  set (s3 := if t f =? 3 then _ else s2).
  set (s4 := if 1 <? t f then _ else s3).
  assert (H0 : exists file, files s0 !! h f = Some file).
  { eexists. unfold s0. cbn [files set_files]. apply lookup_insert_eq. }
  assert (H1 : exists file, files s1 !! h f = Some file
               /\ (t f = 2 -> MutableFile.name file = Some "Cloud Drive")).
  { destruct H0 as [file Hf]. subst s1. destruct (Z.eqb_spec (t f) 2) as [E|E].
    - cbn [files update_file set_files set_root]. rewrite lookup_alter_eq, Hf.
      eexists. split; [reflexivity|]. reflexivity.
    - exists file. split; [exact Hf|]. intros; contradiction. }
  assert (H2 : exists file, files s2 !! h f = Some file
               /\ (t f = 2 -> MutableFile.name file = Some "Cloud Drive")
               /\ (t f = 4 -> MutableFile.name file = Some "Rubbish Bin")).
  { destruct H1 as (file & Hf & Hn). subst s2. destruct (Z.eqb_spec (t f) 4) as [E|E].
    - cbn [files update_file set_files set_trash]. rewrite lookup_alter_eq, Hf.
      eexists. split; [reflexivity|]. split; [intros; lia | reflexivity].
    - exists file. split; [exact Hf|]. split; [exact Hn | intros; contradiction]. }
  assert (H3 : exists file, files s3 !! h f = Some file
               /\ (t f = 2 -> MutableFile.name file = Some "Cloud Drive")
               /\ (t f = 4 -> MutableFile.name file = Some "Rubbish Bin")
               /\ (t f = 3 -> MutableFile.name file = Some "Inbox")).
  { destruct H2 as (file & Hf & Hn & Hn'). subst s3.
    destruct (Z.eqb_spec (t f) 3) as [E|E].
    - cbn [files update_file set_files set_inbox]. rewrite lookup_alter_eq, Hf.
      eexists. split; [reflexivity|].
      split; [intros; lia|]. split; [intros; lia | reflexivity].
    - exists file. split; [exact Hf|]. split; [exact Hn|].
      split; [exact Hn' | intros; contradiction]. }
  assert (H4 : exists file, files s4 !! h f = Some file
               /\ (t f = 2 -> MutableFile.name file = Some "Cloud Drive")
               /\ (t f = 4 -> MutableFile.name file = Some "Rubbish Bin")
               /\ (t f = 3 -> MutableFile.name file = Some "Inbox")).
  { subst s4. destruct (1 <? t f); exact H3. }
  clearbody s4. clear s0 s1 s2 s3 H0 H1 H2 H3.
  cbn zeta. cbn [fst]. destruct (p f) as [q|]; [|exact H4].
  destruct (q =? "")%string; [exact H4|].
  destruct (files s4 !! q) as [fq|] eqn:Eq; [|exact H4].
  destruct H4 as (file & Hf & Hn).
  cbn [files update_file set_files]. rewrite lookup_alter_eq, lookup_alter.
  destruct (decide (q = h f)) as [->|Hne]; rewrite Hf;
    eexists; (split; [reflexivity|]); exact Hn.
Qed.


Lemma load_node_named ph s f :
  files s !! h f = None ->
  exists file,
    files (load_node ph s f) !! h f = Some file
    /\ (t f = NODE_TYPE_DRIVE -> MutableFile.name file = Some "Cloud Drive")
    /\ (t f = NODE_TYPE_RUBBISH_BIN -> MutableFile.name file = Some "Rubbish Bin")
    /\ (t f = NODE_TYPE_INBOX -> MutableFile.name file = Some "Inbox").
Proof.
  intros H. unfold load_node.
  pose proof (importFile_named s f H) as (file & Hf & Hn).
  pose proof (StorageFacts.importFile_handle s f) as H3.
  destruct (_importFile s f) as [s1 x]. cbn [fst snd] in *. subst x.
  destruct ph as [ph|]; [|eauto]. rewrite Hf.
  cbn [files update_file set_files]. rewrite lookup_alter_eq, Hf.
  eexists. split; [reflexivity|]. exact Hn.
Qed.

Lemma fold_keeps_name ph l x :
  forall s file,
    files s !! x = Some file ->
    Forall (fun g => h g <> x) l ->
    exists file', files (fold_left (load_node ph) l s) !! x = Some file'
                  /\ MutableFile.name file' = MutableFile.name file.
Proof.
  induction l as [|g l IH]; intros s file Hx Hl; [eauto|].
  inversion Hl as [|? ? Hg Hl']; subst. cbn [fold_left].
  destruct (load_node_share_other ph s g x file) as (file1 & H1 & _ & _ & Hn);
    [congruence | exact Hx |].
  destruct (IH (load_node ph s g) file1 H1 Hl') as (file' & H' & Hn').
  exists file'. split; [exact H' | congruence].
Qed.

Lemma fold_named ph f :
  forall l s,
    Forall (fun g => files s !! h g = None) l ->
    NoDup (h <$> l) ->
    f ∈ l ->
    exists file,
      files (fold_left (load_node ph) l s) !! h f = Some file
      /\ (t f = NODE_TYPE_DRIVE -> MutableFile.name file = Some "Cloud Drive")
      /\ (t f = NODE_TYPE_RUBBISH_BIN -> MutableFile.name file = Some "Rubbish Bin")
      /\ (t f = NODE_TYPE_INBOX -> MutableFile.name file = Some "Inbox").
Proof.
  induction l as [|g l IH]; intros s Hn Hd Hf; [inversion Hf|].
  inversion Hn as [|? ? Hg Hl]; subst. rewrite fmap_cons in Hd.
  apply NoDup_cons in Hd as [Hnot Hd]. cbn [fold_left].
  apply elem_of_cons in Hf as [->|Hin].
  - destruct (load_node_named ph s g Hg) as (file & H1 & N2 & N4 & N3).
    destruct (fold_keeps_name ph l (h g) (load_node ph s g) file H1)
      as (file' & H' & Hn').
    + apply Forall_forall. intros g' Hg' E. apply Hnot. rewrite <- E.
      apply list_elem_of_fmap_2. exact Hg'.
    + exists file'. split; [exact H'|]. rewrite Hn'. auto.
  - apply IH; [|exact Hd|exact Hin].
    apply Forall_forall. intros g' Hg'. apply StorageFacts.load_node_absent.
    + rewrite Forall_forall in Hl. apply Hl. exact Hg'.
    + intros E. apply Hnot. rewrite <- E. apply list_elem_of_fmap_2. exact Hg'.
Qed.

(** X26: where the first load leaves the mount points.  For a
    listing in which no handle occurs twice and none is in the table
    yet, [root], [trash] and [inbox] afterwards refer to the last
    record of type 2, of type 4 and of type 3 (and are left as they
    were when the listing has none), and the object of every record of
    one of these types is named 'Cloud Drive', 'Rubbish Bin' or
    'Inbox'. *)
Theorem first_load_mount_points s l :
  Forall (fun f => files s !! h f = None) (lst_f l) ->
  NoDup (h <$> lst_f l) ->
  let s' := (reload_response s None l).1 in
  root s' = match last_of_type NODE_TYPE_DRIVE (lst_f l) with
            | Some x => Some x | None => root s end
  /\ trash s' = match last_of_type NODE_TYPE_RUBBISH_BIN (lst_f l) with
                | Some x => Some x | None => trash s end
  /\ inbox s' = match last_of_type NODE_TYPE_INBOX (lst_f l) with
                | Some x => Some x | None => inbox s end
  /\ forall f, f ∈ lst_f l ->
       exists file,
         files s' !! h f = Some file
         /\ (t f = NODE_TYPE_DRIVE -> MutableFile.name file = Some "Cloud Drive")
         /\ (t f = NODE_TYPE_RUBBISH_BIN -> MutableFile.name file = Some "Rubbish Bin")
         /\ (t f = NODE_TYPE_INBOX -> MutableFile.name file = Some "Inbox").
Proof.
  intros Hn Hd. cbn zeta. unfold reload_response. cbn [fst].
  split; [|split; [|split]].
  - apply (fold_mount_point (lst_ph l) NODE_TYPE_DRIVE root); [|exact Hn|exact Hd].
    intros s0 f Hf. destruct (load_node_roots (lst_ph l) s0 f) as (-> & _ & _).
    apply (importFile_roots s0 f Hf).
  - apply (fold_mount_point (lst_ph l) NODE_TYPE_RUBBISH_BIN trash); [|exact Hn|exact Hd].
    intros s0 f Hf. destruct (load_node_roots (lst_ph l) s0 f) as (_ & -> & _).
    apply (importFile_roots s0 f Hf).
  - apply (fold_mount_point (lst_ph l) NODE_TYPE_INBOX inbox); [|exact Hn|exact Hd].
    intros s0 f Hf. destruct (load_node_roots (lst_ph l) s0 f) as (_ & _ & ->).
    apply (importFile_roots s0 f Hf).
  - intros f Hf. apply fold_named; assumption.
Qed.

Lemma first_load_mount_points_witness :
  root Samples.drive = Some "root"
  /\ trash Samples.drive = None
  /\ exists file, files Samples.drive !! "root" = Some file
                  /\ MutableFile.name file = Some "Cloud Drive".
Proof.
  destruct (first_load_mount_points Samples.empty_storage Samples.drive_listing)
    as (H1 & H2 & _ & H4).
  - repeat constructor.
  - vm_compute. repeat constructor; StorageFacts.not_among.
  - split; [exact H1|]. split; [exact H2|].
    destruct (H4 (Samples.record "root" None 2)) as (file & Hf & Hn & _);
      [apply list_elem_of_here|].
    exists file. split; [exact Hf|]. apply Hn. reflexivity.
Defined.

End GraphFacts.

(** * Account information *)

Module AccountFacts.
Import MutableFile Storage.

(** X27: how getAccountInfo normalizes a response that is an object.
    The type, the storage figures and the share ratio are passed on
    as they are, [undefined] when missing.  The three bandwidth
    figures go through [||]: any falsy value, a reported 0 included,
    is replaced by the default, so a download quota of 0 reads as
    10 * 1024^5. *)
Theorem getAccountInfo_normalizes s r ps :
  API.closed (api s) = false ->
  API.answers_with r (VObj ps) ->
  (getAccountInfo s [r]).2
    = [Reply None
         (Some (mkAccount (own ps "utype") (own ps "cstrg") (own ps "mstrg")
                  (or_else (own ps "mxfer") (VNum (1024 ^ 5 * 10)))
                  (or_else (own ps "caxfer") (VNum 0))
                  (or_else (own ps "csxfer") (VNum 0))
                  (own ps "srvratio")))]
  /\ (own ps "mxfer" = VNum 0 ->
      or_else (own ps "mxfer") (VNum (1024 ^ 5 * 10)) = VNum 11258999068426240).
Proof.
  intros Hc Hr. split; [|intros ->; reflexivity].
  destruct (APIFacts.run_success (api s)
              [("a", VStr "uq"); ("strg", VNum 1); ("xfer", VNum 1); ("pro", VNum 1)]
              0 r [] (VObj ps) Hc Hr) as (f & pre & Hpre & Hrun).
  unfold getAccountInfo.
  destruct (API.request_run _ _ _ _) as [a' evs]. cbn [snd] in *. subst evs.
  destruct Hpre as [->|[c ->]]; reflexivity.
Qed.

Lemma getAccountInfo_normalizes_witness :
  (getAccountInfo Samples.logged_in
     [API.Response "OK" true
        (inr (VObj [("utype", VNum 1); ("cstrg", VNum 5); ("mxfer", VNum 0)]))]).2
    = [Reply None
         (Some (mkAccount (VNum 1) (VNum 5) VUndef (VNum 11258999068426240)
                  (VNum 0) (VNum 0) VUndef))].
Proof.
  apply (getAccountInfo_normalizes Samples.logged_in
           (API.Response "OK" true
              (inr (VObj [("utype", VNum 1); ("cstrg", VNum 5); ("mxfer", VNum 0)])))
           [("utype", VNum 1); ("cstrg", VNum 5); ("mxfer", VNum 0)]).
  - reflexivity.
  - exists (VObj [("utype", VNum 1); ("cstrg", VNum 5); ("mxfer", VNum 0)]).
    repeat split.
Defined.

End AccountFacts.
